(** * LM Studio embedding adapter: a model of [src/lmstudio.ts]

    The module [src/lmstudio.ts] is embedded function by function.  JavaScript
    values are an inductive type, text is [string] (one character per UTF-16
    code unit, code units below 256), numbers are the non-finite values plus
    the integers.  Module-level variables, the adapter instance, the platform
    (clock and HTTP server) and a trace of observable events form the world
    that asynchronous functions thread; a call returns, throws or never
    finishes. *)

From Stdlib Require Import List ZArith Lia Bool String Ascii QArith Qround DecimalString.
Import ListNotations.
Local Open Scope string_scope.
Local Open Scope Z_scope.
Set Warnings "-register-all".

(** ** JavaScript values *)

(** A JavaScript number: the three non-finite values and the integers.
    Numbers with a fractional part are not modelled; the properties that
    depend on the value of a number say so. *)
Inductive Num : Type :=
| NaN
| PosInf
| NegInf
| Fin (z : Z).

Inductive JsVal : Type :=
| VUndefined
| VNull
| VBool (b : bool)
| VNum (n : Num)
| VStr (s : string)
| VArr (l : list JsVal)
| VObj (fields : list (string * JsVal)).

(** An embedding is whatever array the server sent: [Array.isArray] is the
    only test the adapter applies to it. *)
Definition Vec : Type := list JsVal.

(** [a ?? b] *)
Definition nullish (v : JsVal) : bool :=
  match v with
  | VUndefined | VNull => true
  | _ => false
  end.

Definition coalesce (a b : JsVal) : JsVal := if nullish a then b else a.

Notation "a ?? b" := (coalesce a b) (at level 45, left associativity).

(** Own property of an object, first binding of the key. *)
Fixpoint lookup (k : string) (fields : list (string * JsVal)) : JsVal :=
  match fields with
  | [] => VUndefined
  | (k', v) :: rest => if String.eqb k k' then v else lookup k rest
  end.

Fixpoint has_key (k : string) (fields : list (string * JsVal)) : bool :=
  match fields with
  | [] => false
  | (k', _) :: rest => String.eqb k k' || has_key k rest
  end.

(** [v?.k] for the property names the adapter reads (none of them is a
    property of strings, arrays, numbers or booleans). *)
Definition prop (v : JsVal) (k : string) : JsVal :=
  match v with
  | VObj fields => lookup k fields
  | _ => VUndefined
  end.

(** [Boolean(v)] *)
Definition truthy (v : JsVal) : bool :=
  match v with
  | VUndefined | VNull => false
  | VBool b => b
  | VNum NaN => false
  | VNum (Fin z) => negb (z =? 0)
  | VNum _ => true
  | VStr s => negb (String.eqb s "")
  | VArr _ | VObj _ => true
  end.

(** [Number.isFinite(v)]: no coercion, only a finite number passes. *)
Definition Number_isFinite (v : JsVal) : bool :=
  match v with
  | VNum (Fin _) => true
  | _ => false
  end.

(** [a > 0] on numbers. *)
Definition num_pos (n : Num) : bool :=
  match n with
  | Fin z => 0 <? z
  | PosInf => true
  | _ => false
  end.

(** ** Strings *)

(** White space and line terminators that [String.prototype.trim] removes,
    among the code units below 256. *)
Definition is_ws (c : ascii) : bool :=
  let n := nat_of_ascii c in
  (Nat.eqb n 9 || Nat.eqb n 10 || Nat.eqb n 11 || Nat.eqb n 12
   || Nat.eqb n 13 || Nat.eqb n 32 || Nat.eqb n 160)%bool.

Fixpoint trimStart (s : string) : string :=
  match s with
  | EmptyString => EmptyString
  | String c rest => if is_ws c then trimStart rest else s
  end.

Fixpoint trimEnd (s : string) : string :=
  match s with
  | EmptyString => EmptyString
  | String c rest =>
      match trimEnd rest with
      | EmptyString => if is_ws c then EmptyString else String c EmptyString
      | kept => String c kept
      end
  end.

Definition trim (s : string) : string := trimEnd (trimStart s).

Definition str_len (s : string) : Z := Z.of_nat (String.length s).

(** [s.replace(/\/$/, "")]: one trailing slash is removed. *)
Fixpoint strip_trailing_slash (s : string) : string :=
  match s with
  | EmptyString => EmptyString
  | String c EmptyString => if Ascii.eqb c "/" then EmptyString else s
  | String c rest => String c (strip_trailing_slash rest)
  end.

(** The decimal numeral of an integer, as [String] prints a number that is
    a safe integer (of magnitude at most [2^53]). *)
Definition decimal (z : Z) : string := NilZero.string_of_int (Z.to_int z).

Definition Num_toString (n : Num) : string :=
  match n with
  | NaN => "NaN"
  | PosInf => "Infinity"
  | NegInf => "-Infinity"
  | Fin z => decimal z
  end.

Fixpoint join (sep : string) (parts : list string) : string :=
  match parts with
  | [] => ""
  | [p] => p
  | p :: rest => p ++ sep ++ join sep rest
  end.

(** [String(v)].  An array joins its elements with commas, [null] and
    [undefined] elements printing as nothing; a plain object prints as
    [[object Object]]. *)
Fixpoint String_of (v : JsVal) : string :=
  match v with
  | VUndefined => "undefined"
  | VNull => "null"
  | VBool true => "true"
  | VBool false => "false"
  | VNum n => Num_toString n
  | VStr s => s
  | VArr l =>
      join "," (map (fun e => if nullish e then "" else String_of e) l)
  | VObj _ => "[object Object]"
  end.

(** ** The input normalizer *)

(** [coerceToText] *)
Definition coerceToText (item : JsVal) : string :=
  match item with
  | VStr s => s
  | _ =>
      let candidate :=
        prop item "embed_input" ??
        prop item "text" ??
        prop item "content" ??
        prop item "input" ??
        prop (prop item "data") "embed_input" ??
        prop (prop item "data") "text" ??
        prop (prop item "data") "content" ??
        VNull in
      match candidate with
      | VStr s => s
      | _ => ""
      end
  end.

(** The arrow function mapped by [normalizeBatchInputs]. *)
Definition normalizeItem (item : JsVal) : string :=
  let text := coerceToText item in
  let trimmed := trim text in
  if String.eqb trimmed "" then " " else trimmed.

(** [normalizeBatchInputs] *)
Definition normalizeBatchInputs (inputs : list JsVal) : list string :=
  map normalizeItem inputs.

(** ** Token estimate *)

(** [estimateTokens]: [Math.max(1, Math.ceil(len / 4))], the division being
    the exact quotient. *)
Definition estimateTokens (text : string) : Z :=
  let len := str_len text in
  Z.max 1 (Qceiling (inject_Z len / inject_Z 4)).

(** ** Chunking *)

Section Chunk.
Context {T : Type}.

(** [items.slice(i, j)] for indices [0 <= i <= j]. *)
Definition slice (items : list T) (i j : nat) : list T :=
  firstn (j - i) (skipn i items).

(** The loop of [chunk] for a positive integer [size]: one round per unit
    of [fuel], from index [i]. *)
Fixpoint chunk_from (fuel : nat) (items : list T) (size i : nat) : list (list T) :=
  match fuel with
  | O => []
  | S fuel' =>
      if (i <? List.length items)%nat
      then slice items i (i + size) :: chunk_from fuel' items size (i + size)
      else []
  end.

(** [chunk(items, size)].  [None] stands for a loop that never ends: with a
    size that is zero, negative or [-Infinity] the index never reaches the
    length.  With [NaN] the first slice is empty and the index becomes
    [NaN], which ends the loop; with [Infinity] the first slice is the whole
    list. *)
Definition chunk (items : list T) (size : Num) : option (list (list T)) :=
  match items with
  | [] => Some []
  | _ :: _ =>
      match size with
      | Fin z =>
          if 0 <? z
          then Some (chunk_from (List.length items) items (Z.to_nat z) 0)
          else None
      | NaN => Some [[]]
      | PosInf => Some [items]
      | NegInf => None
      end
  end.
End Chunk.

(** ** Records keyed by model identifier *)

(** [ProviderModelConfig] *)
Record ProviderModelConfig : Type := {
  pm_id : string;
  pm_name : string;
  pm_model_key : string;
  pm_model : string;
  pm_description : string;
  pm_max_tokens : option Num;
  pm_batch_size : option Num;
  pm_use_gpu : bool;
  pm_adapter : string
}.

(** [Record<string, ProviderModelConfig>], properties in creation order. *)
Definition Catalog : Type := list (string * ProviderModelConfig).

(** The own property [k] of [r] is set to [v]: an existing property keeps
    its place, a new one comes last. *)
Fixpoint own_set (r : Catalog) (k : string) (v : ProviderModelConfig) : Catalog :=
  match r with
  | [] => [(k, v)]
  | (k', v') :: rest =>
      if String.eqb k k' then (k, v) :: rest else (k', v') :: own_set rest k v
  end.

(** [r[k] = v] for a record created as [{}] and an object [v].  The key
    [__proto__] names the accessor inherited from [Object.prototype]: the
    assignment then replaces the prototype of [r] and creates no property,
    so that [Object.keys] does not list it. *)
Definition record_set (r : Catalog) (k : string) (v : ProviderModelConfig) : Catalog :=
  if String.eqb k "__proto__" then r else own_set r k v.

(** A key is an array index when it is the decimal numeral, without leading
    zeros, of an integer below [2^32 - 1]. *)
Definition array_index (k : string) : option N :=
  match NilEmpty.uint_of_string k with
  | Some u =>
      let n := N.of_uint u in
      if (String.eqb (NilZero.string_of_uint (N.to_uint n)) k && (n <? 2 ^ 32 - 1)%N)%bool
      then Some n
      else None
  | None => None
  end.

Fixpoint insert_index (n : N) (sorted : list N) : list N :=
  match sorted with
  | [] => [n]
  | m :: rest => if (n <=? m)%N then n :: sorted else m :: insert_index n rest
  end.

Definition sort_indices (l : list N) : list N := fold_right insert_index [] l.

Definition index_keys (r : Catalog) : list N :=
  flat_map (fun kv => match array_index (fst kv) with Some n => [n] | None => [] end) r.

Definition name_keys (r : Catalog) : list string :=
  flat_map (fun kv => match array_index (fst kv) with Some _ => [] | None => [fst kv] end) r.

(** [Object.keys(r)]: array indices in ascending order, then the other keys
    in creation order. *)
Definition Object_keys (r : Catalog) : list string :=
  map (fun n => NilZero.string_of_uint (N.to_uint n)) (sort_indices (index_keys r))
  ++ name_keys r.

(** ** The platform and the world *)

(** [RequestInit] as the module fills it; [body] is the value handed to
    [JSON.stringify]. *)
Record RequestInit : Type := {
  method : option string;
  headers : list (string * string);
  body : option JsVal
}.

(** One call of [fetch]: the address, the init object and the delay after
    which the abort timer fires. *)
Record Request : Type := {
  url : string;
  init : RequestInit;
  abort_after : option Num
}.

(** What [fetchJson] reads of a response; [res_text = None] when reading the
    body fails. *)
Record Response : Type := {
  res_ok : bool;
  res_status : Z;
  res_statusText : string;
  res_text : option string
}.

Inductive FetchFailure : Type :=
| NetworkError
| Aborted.

Inductive FetchOutcome : Type :=
| Rejected (why : FetchFailure)
| Responded (res : Response).

(** The host: a clock, an HTTP server that answers each request from its
    current state, and the two built-in conversions on text. *)
Record Platform : Type := {
  Env : Type;
  Date_now : Env -> Z;
  fetch : Env -> Request -> Env * FetchOutcome;
  JSON_parse : string -> option JsVal;
  StringToNumber : string -> Num
}.

(** The errors the module raises or lets through. *)
Inductive Err : Type :=
| FetchError (why : FetchFailure)
| HttpStatusError (status : Z) (statusText text : string)
| SyntaxError
| InvalidEmbeddingResponse
| EmptyEmbeddingResponse
| NoModelsAvailable
| RangeError.

Inductive Outcome (A : Type) : Type :=
| Ret (a : A)
| Throw (e : Err)
| Diverge.

Arguments Ret {A} a.
Arguments Throw {A} e.
Arguments Diverge {A}.

(** [LmStudioSettings]; a numeric field is [None] once a partial update has
    stored [undefined] in it. *)
Record LmStudioSettings : Type := {
  baseUrl : string;
  requestTimeoutMs : option Num;
  maxTokens : option Num;
  batchSize : option Num
}.

Definition initial_settings : LmStudioSettings := {|
  baseUrl := "http://127.0.0.1:1234";
  requestTimeoutMs := Some (Fin 120000);
  maxTokens := Some (Fin 512);
  batchSize := Some (Fin 16)
|}.

(** [Partial<LmStudioSettings>]: [None] for a key that is not given. *)
Record PartialSettings : Type := {
  next_baseUrl : option string;
  next_requestTimeoutMs : option (option Num);
  next_maxTokens : option (option Num);
  next_batchSize : option (option Num)
}.

Definition spread {A : Type} (old : A) (next : option A) : A :=
  match next with
  | Some v => v
  | None => old
  end.

(** The [data] object of the caller's model. *)
Record ModelData : Type := {
  d_model_key : JsVal;
  d_model : JsVal;
  d_model_id : JsVal;
  d_id : JsVal;
  d_batch_size : JsVal;
  d_max_batch_size : JsVal;
  d_dims : JsVal;
  d_provider_models : option Catalog
}.

(** The caller's model object; [m_debounce_save] tells whether the save hook
    is there. *)
Record Model : Type := {
  m_data : option ModelData;
  m_model_key : JsVal;
  m_id : JsVal;
  m_debounce_save : bool
}.

Inductive AdapterState : Type :=
| unloaded
| loaded.

(** The fields of an [LmStudioEmbeddingAdapter] instance. *)
Record Adapter : Type := {
  model : option Model;
  state : AdapterState
}.

Inductive Event : Type :=
| Fetched (req : Request)
| SaveRequested
| Logged (expected got : nat).

Record EmbeddingResult : Type := {
  vec : Vec;
  tokens : Z
}.

(** What [embed] and [embed_query] return: an item of [embed_batch], or the
    object [{ vec: [] }]. *)
Inductive EmbedReturn : Type :=
| Item (r : EmbeddingResult)
| VecOnly (v : Vec).

Section Lmstudio.
Context {P : Platform}.

(** The module-level variables [settings], [cachedModels] and
    [lastFetchedAt], the adapter instance [this], the platform state and
    the events observed so far. *)
Record World : Type := {
  settings : LmStudioSettings;
  cachedModels : Catalog;
  lastFetchedAt : Z;
  this : Adapter;
  env : Env P;
  trace : list Event
}.

Definition set_settings (w : World) (s : LmStudioSettings) : World :=
  {| settings := s; cachedModels := cachedModels w; lastFetchedAt := lastFetchedAt w;
     this := this w; env := env w; trace := trace w |}.

Definition set_catalog (w : World) (c : Catalog) (stamp : Z) : World :=
  {| settings := settings w; cachedModels := c; lastFetchedAt := stamp;
     this := this w; env := env w; trace := trace w |}.

Definition set_this (w : World) (a : Adapter) : World :=
  {| settings := settings w; cachedModels := cachedModels w; lastFetchedAt := lastFetchedAt w;
     this := a; env := env w; trace := trace w |}.

Definition set_env (w : World) (e : Env P) : World :=
  {| settings := settings w; cachedModels := cachedModels w; lastFetchedAt := lastFetchedAt w;
     this := this w; env := e; trace := trace w |}.

Definition emit (w : World) (ev : Event) : World :=
  {| settings := settings w; cachedModels := cachedModels w; lastFetchedAt := lastFetchedAt w;
     this := this w; env := env w; trace := trace w ++ [ev] |}.

(** *** Calls that return, throw or never finish *)

Definition M (A : Type) : Type := World -> World * Outcome A.

Definition ret {A : Type} (a : A) : M A := fun w => (w, Ret a).

Definition throw {A : Type} (e : Err) : M A := fun w => (w, Throw e).

Definition diverge {A : Type} : M A := fun w => (w, Diverge).

Definition lift {A : Type} (o : Outcome A) : M A := fun w => (w, o).

Definition bind {A B : Type} (m : M A) (k : A -> M B) : M B :=
  fun w =>
    match m w with
    | (w', Ret a) => k a w'
    | (w', Throw e) => (w', Throw e)
    | (w', Diverge) => (w', Diverge)
    end.

(** [try { body } catch (err) { handler }] *)
Definition try_catch {A : Type} (body : M A) (handler : Err -> M A) : M A :=
  fun w =>
    match body w with
    | (w', Throw e) => handler e w'
    | done => done
    end.

Notation "x <- m ;; k" := (bind m (fun x => k))
  (at level 61, m at next level, right associativity).

(** [setLmStudioSettings] *)
Definition setLmStudioSettings (next : PartialSettings) : M unit :=
  fun w =>
    let s := settings w in
    (set_settings w
       {| baseUrl := spread (baseUrl s) (next_baseUrl next);
          requestTimeoutMs := spread (requestTimeoutMs s) (next_requestTimeoutMs next);
          maxTokens := spread (maxTokens s) (next_maxTokens next);
          batchSize := spread (batchSize s) (next_batchSize next) |},
     Ret tt).

(** *** HTTP client *)

(** [normalizeBaseUrl] *)
Definition normalizeBaseUrl (u : string) : string :=
  strip_trailing_slash (trim u).

Definition no_init : RequestInit :=
  {| method := None; headers := []; body := None |}.

(** [fetchJson]: the request is recorded in the trace; the platform says
    whether [fetch] rejects (network failure, or the abort timer) or
    responds. *)
Definition fetchJson (urlPath : string) (i : RequestInit) : M JsVal :=
  fun w =>
    let base := normalizeBaseUrl (baseUrl (settings w)) in
    let req := {| url := base ++ urlPath; init := i;
                  abort_after := requestTimeoutMs (settings w) |} in
    let (e', outcome) := fetch P (env w) req in
    let w' := emit (set_env w e') (Fetched req) in
    match outcome with
    | Rejected why => (w', Throw (FetchError why))
    | Responded res =>
        let text := match res_text res with Some t => t | None => "" end in
        if negb (res_ok res)
        then (w', Throw (HttpStatusError (res_status res) (res_statusText res) text))
        else if String.eqb text "" then (w', Ret VNull)
        else match JSON_parse P text with
             | Some v => (w', Ret v)
             | None => (w', Throw SyntaxError)
             end
    end.

(** *** Model catalog *)

Definition model_entry (s : LmStudioSettings) (id : string) : ProviderModelConfig :=
  {| pm_id := id; pm_name := id; pm_model_key := id; pm_model := id;
     pm_description := "LM Studio local embedding model";
     pm_max_tokens := maxTokens s; pm_batch_size := batchSize s;
     pm_use_gpu := false; pm_adapter := "lmstudio" |}.

(** One round of the loop of [listModels]. *)
Definition add_model (s : LmStudioSettings) (next : Catalog) (m : JsVal) : Catalog :=
  let id := trim (String_of (prop m "id" ?? VStr "")) in
  if String.eqb id "" then next else record_set next id (model_entry s id).

Definition data_array (data : JsVal) : list JsVal :=
  match prop data "data" with
  | VArr l => l
  | _ => []
  end.

(** The test that lets [listModels] answer from the cache. *)
Definition cache_fresh (refresh : bool) (w : World) : bool :=
  negb refresh
  && (Date_now P (env w) - lastFetchedAt w <? 15000)
  && negb (Nat.eqb (List.length (Object_keys (cachedModels w))) 0).

(** [listModels] *)
Definition listModels (refresh : bool) : M Catalog :=
  fun w =>
    let now := Date_now P (env w) in
    if cache_fresh refresh w then (w, Ret (cachedModels w))
    else
      (data <- fetchJson "/v1/models" no_init ;;
       fun w1 =>
         let next := fold_left (add_model (settings w1)) (data_array data) [] in
         (set_catalog w1 next now, Ret next)) w.

(** *** The caller's model object *)

(** [this?.model?.data] *)
Definition model_data (w : World) : option ModelData :=
  match model (this w) with
  | Some m => m_data m
  | None => None
  end.

Definition data_prop (w : World) (field : ModelData -> JsVal) : JsVal :=
  match model_data w with
  | Some d => field d
  | None => VUndefined
  end.

Definition model_prop (w : World) (field : Model -> JsVal) : JsVal :=
  match model (this w) with
  | Some m => field m
  | None => VUndefined
  end.

(** An assignment to fields of [this.model.data]. *)
Definition update_data (f : ModelData -> ModelData) : M unit :=
  fun w =>
    match model (this w) with
    | Some m =>
        match m_data m with
        | Some d =>
            (set_this w
               {| model := Some {| m_data := Some (f d); m_model_key := m_model_key m;
                                   m_id := m_id m; m_debounce_save := m_debounce_save m |};
                  state := state (this w) |},
             Ret tt)
        | None => (w, Ret tt)
        end
    | None => (w, Ret tt)
    end.

(** [this.model.debounce_save?.()] *)
Definition debounce_save : M unit :=
  fun w =>
    match model (this w) with
    | Some m => if m_debounce_save m then (emit w SaveRequested, Ret tt) else (w, Ret tt)
    | None => (w, Ret tt)
    end.

Definition set_model_keys (k : string) (d : ModelData) : ModelData :=
  {| d_model_key := VStr k; d_model := VStr k; d_model_id := d_model_id d; d_id := d_id d;
     d_batch_size := d_batch_size d; d_max_batch_size := d_max_batch_size d;
     d_dims := d_dims d; d_provider_models := d_provider_models d |}.

Definition set_batch_size (v : JsVal) (d : ModelData) : ModelData :=
  {| d_model_key := d_model_key d; d_model := d_model d; d_model_id := d_model_id d;
     d_id := d_id d; d_batch_size := v; d_max_batch_size := d_max_batch_size d;
     d_dims := d_dims d; d_provider_models := d_provider_models d |}.

Definition set_max_batch_size (v : JsVal) (d : ModelData) : ModelData :=
  {| d_model_key := d_model_key d; d_model := d_model d; d_model_id := d_model_id d;
     d_id := d_id d; d_batch_size := d_batch_size d; d_max_batch_size := v;
     d_dims := d_dims d; d_provider_models := d_provider_models d |}.

Definition set_dims (v : JsVal) (d : ModelData) : ModelData :=
  {| d_model_key := d_model_key d; d_model := d_model d; d_model_id := d_model_id d;
     d_id := d_id d; d_batch_size := d_batch_size d; d_max_batch_size := d_max_batch_size d;
     d_dims := v; d_provider_models := d_provider_models d |}.

Definition set_provider_models (c : Catalog) (d : ModelData) : ModelData :=
  {| d_model_key := d_model_key d; d_model := d_model d; d_model_id := d_model_id d;
     d_id := d_id d; d_batch_size := d_batch_size d; d_max_batch_size := d_max_batch_size d;
     d_dims := d_dims d; d_provider_models := Some c |}.

(** *** Adapter: catalog access *)

(** [get models()] *)
Definition models (w : World) : Catalog := cachedModels w.

(** [coerceRefreshArg] *)
Definition coerceRefreshArg (arg : JsVal) : bool :=
  match arg with
  | VBool b => b
  | VObj fields => if has_key "refresh" fields then truthy (lookup "refresh" fields) else false
  | _ => false
  end.

(** [!provider_models || Object.keys(provider_models).length === 0] *)
Definition provider_models_empty (d : ModelData) : bool :=
  match d_provider_models d with
  | None => true
  | Some c => Nat.eqb (List.length (Object_keys c)) 0
  end.

(** [get_models] *)
Definition get_models (refreshOrOpts : JsVal) : M Catalog :=
  let refresh := coerceRefreshArg refreshOrOpts in
  models <- listModels refresh ;;
  _ <- update_data (fun d => if provider_models_empty d then set_provider_models models d else d) ;;
  ret models.

(** [load] *)
Definition load (refreshOrOpts : JsVal) : M unit :=
  _ <- get_models refreshOrOpts ;;
  fun w => (set_this w {| model := model (this w); state := loaded |}, Ret tt).

(** [unload] *)
Definition unload : M unit :=
  fun w => (set_this w {| model := model (this w); state := unloaded |}, Ret tt).

(** The string that [ensureModelKey] finds configured, empty when there is
    none. *)
Definition configured_key (w : World) : string :=
  let candidate :=
    data_prop w d_model_key ??
    data_prop w d_model ??
    data_prop w d_model_id ??
    data_prop w d_id ??
    model_prop w m_model_key ??
    model_prop w m_id ??
    VNull in
  match candidate with
  | VStr s => trim s
  | _ => ""
  end.

(** [Object.keys(cachedModels)[0]?.trim() ?? ""] *)
Definition first_catalog_key (w : World) : string :=
  match Object_keys (cachedModels w) with
  | k :: _ => trim k
  | [] => ""
  end.

(** [ensureModelKey] *)
Definition ensureModelKey : M string :=
  fun w =>
    let key := configured_key w in
    if negb (String.eqb key "") then (w, Ret key)
    else
      (_ <- get_models (VBool true) ;;
       fun w1 =>
         let fallback := first_catalog_key w1 in
         if String.eqb fallback "" then (w1, Throw NoModelsAvailable)
         else
           match model_data w1 with
           | Some _ =>
               (_ <- update_data (set_model_keys fallback) ;;
                _ <- debounce_save ;;
                ret fallback) w1
           | None => (w1, Ret fallback)
           end) w.

(** *** Adapter: batch size and padding *)

Definition zero_vector (dims : Z) : Vec := repeat (VNum (Fin 0)) (Z.to_nat dims).

(** The width [padToLength] gives a missing vector. *)
Definition pad_dims (w : World) (vectors : list Vec) : Z :=
  match data_prop w d_dims with
  | VNum (Fin z) => z
  | _ =>
      match vectors with
      | v0 :: _ => Z.of_nat (List.length v0)
      | [] => 1536
      end
  end.

(** [padToLength].  [Array.from({ length: dims }, () => 0)] throws a
    [RangeError] when [dims] is [2^32] or more, and gives the empty array
    when [dims] is negative. *)
Definition padToLength (vectors : list Vec) (targetLength : nat) : M (list Vec) :=
  fun w =>
    if (targetLength <=? List.length vectors)%nat then (w, Ret (firstn targetLength vectors))
    else
      let dims := pad_dims w vectors in
      if 2 ^ 32 <=? dims then (w, Throw RangeError)
      else (w, Ret (vectors ++ repeat (zero_vector dims) (targetLength - List.length vectors))%list).

(** [Number(v)]; text goes through the platform's conversion, arrays and
    objects through their string form. *)
Definition Number_of (v : JsVal) : Num :=
  match v with
  | VUndefined => NaN
  | VNull => Fin 0
  | VBool true => Fin 1
  | VBool false => Fin 0
  | VNum n => n
  | VStr s => StringToNumber P s
  | VArr _ | VObj _ => StringToNumber P (String_of v)
  end.

(** [!Number.isFinite(v) || v <= 0] *)
Definition not_a_size (v : JsVal) : bool :=
  negb (Number_isFinite v)
  || match v with
     | VNum (Fin z) => z <=? 0
     | _ => false
     end.

(** The value [ensureBatchSize] returns. *)
Definition effective_batch_size (w : World) : Num :=
  let fallback := match batchSize (settings w) with Some n => n | None => Fin 16 end in
  let candidate := Number_of (data_prop w d_batch_size) in
  if Number_isFinite (VNum candidate) && num_pos candidate then candidate else fallback.

(** [ensureBatchSize]; nothing in the guarded block throws here, so the
    [catch] is never entered. *)
Definition ensureBatchSize : M Num :=
  fun w =>
    let valid := effective_batch_size w in
    match model_data w with
    | Some _ =>
        (_ <- update_data (fun d =>
                if not_a_size (d_batch_size d) then set_batch_size (VNum valid) d else d) ;;
         _ <- update_data (fun d =>
                if not_a_size (d_max_batch_size d) then set_max_batch_size (VNum valid) d else d) ;;
         _ <- debounce_save ;;
         ret valid) w
    | None => (w, Ret valid)
    end.

(** [get batch_size()] *)
Definition batch_size : M Num := ensureBatchSize.

(** *** Adapter: argument coercion *)

Fixpoint first_some {A B : Type} (f : A -> option B) (l : list A) : option B :=
  match l with
  | [] => None
  | a :: rest =>
      match f a with
      | Some b => Some b
      | None => first_some f rest
      end
  end.

(** [Array.isArray(v) && v.length] *)
Definition nonempty_array (v : JsVal) : option (list JsVal) :=
  match v with
  | VArr (x :: l) => Some (x :: l)
  | _ => None
  end.

Definition any_array (v : JsVal) : option (list JsVal) :=
  match v with
  | VArr l => Some l
  | _ => None
  end.

(** The second loop of [coerceBatchInputsFromArgs], for one argument. *)
Definition texts_of_object (a : JsVal) : option (list JsVal) :=
  match a with
  | VObj _ | VArr _ =>
      nonempty_array
        (prop a "texts" ??
         prop a "inputs" ??
         prop a "items" ??
         prop (prop a "data") "texts" ??
         prop (prop a "data") "inputs" ??
         prop (prop a "data") "items" ??
         VNull)
  | _ => None
  end.

(** [coerceBatchInputsFromArgs] *)
Definition coerceBatchInputsFromArgs (args : list JsVal) : list JsVal :=
  match first_some nonempty_array args with
  | Some a => a
  | None =>
      match first_some texts_of_object args with
      | Some candidate => candidate
      | None =>
          match first_some any_array args with
          | Some a => a
          | None => []
          end
      end
  end.

(** *** Embedding requests *)

(** [createEmbeddings] *)
Definition createEmbeddings (modelKey : string) (input : JsVal) : M JsVal :=
  let body := VObj [("model", VStr modelKey); ("input", input);
                    ("encoding_format", VStr "float")] in
  fetchJson "/v1/embeddings"
    {| method := Some "POST";
       headers := [("content-type", "application/json")];
       body := Some body |}.

(** The loop of [extractEmbeddings]. *)
Fixpoint collect_embeddings (items : list JsVal) (out : list Vec) : Outcome (list Vec) :=
  match items with
  | [] => Ret out
  | it :: rest =>
      match prop it "embedding" with
      | VArr emb => collect_embeddings rest (out ++ [emb])%list
      | _ => Throw InvalidEmbeddingResponse
      end
  end.

(** [extractEmbeddings] *)
Definition extractEmbeddings (data : JsVal) : Outcome (list Vec) :=
  collect_embeddings (data_array data) [].

(** [embedOne] *)
Definition embedOne (modelKey text : string) : M Vec :=
  data <- createEmbeddings modelKey (VStr text) ;;
  embeddings <- lift (extractEmbeddings data) ;;
  match embeddings with
  | first :: _ => ret first
  | [] => throw EmptyEmbeddingResponse
  end.

(** [for (const one of group) recovered.push(await embedOne(modelKey, one))] *)
Fixpoint embed_each (modelKey : string) (group : list string) (recovered : list Vec)
  : M (list Vec) :=
  match group with
  | [] => ret recovered
  | one :: rest =>
      v <- embedOne modelKey one ;;
      embed_each modelKey rest (recovered ++ [v])%list
  end.

Definition log (ev : Event) : M unit := fun w => (emit w ev, Ret tt).

(** The batch request of one group: [createEmbeddings] on the whole group,
    then [extractEmbeddings]. *)
Definition batch_request (modelKey : string) (group : list string) : M (list Vec) :=
  data <- createEmbeddings modelKey (VArr (map VStr group)) ;;
  lift (extractEmbeddings data).

(** The [try]/[catch] statement in the loop of [embed_batch]: the value is
    [vectors] after the pushes. *)
Definition embed_group (modelKey : string) (group : list string) (vectors : list Vec)
  : M (list Vec) :=
  try_catch
    (embeddings <- batch_request modelKey group ;;
     if negb (Nat.eqb (List.length embeddings) (List.length group))
     then
       _ <- log (Logged (List.length group) (List.length embeddings)) ;;
       recovered <- embed_each modelKey group [] ;;
       ret (vectors ++ recovered)%list
     else ret (vectors ++ firstn (List.length group) embeddings)%list)
    (fun _ =>
       recovered <- embed_each modelKey group [] ;;
       ret (vectors ++ recovered)%list).

(** Dimension inference at the end of each round. *)
Definition infer_dims (vectors : list Vec) : M unit :=
  fun w =>
    match vectors with
    | v0 :: _ =>
        match model_data w with
        | Some d =>
            if negb (Number_isFinite (d_dims d))
            then (_ <- update_data (set_dims (VNum (Fin (Z.of_nat (List.length v0))))) ;;
                  debounce_save) w
            else (w, Ret tt)
        | None => (w, Ret tt)
        end
    | [] => (w, Ret tt)
    end.

(** The loop of [embed_batch] over the groups. *)
Fixpoint embed_groups (modelKey : string) (groups : list (list string)) (vectors : list Vec)
  : M (list Vec) :=
  match groups with
  | [] => ret vectors
  | group :: rest =>
      vectors' <- embed_group modelKey group vectors ;;
      _ <- infer_dims vectors' ;;
      embed_groups modelKey rest vectors'
  end.

(** [padded.map((vec, idx) => ({ vec, tokens: estimateTokens(normalized[idx] ?? "") }))],
    from index [idx]. *)
Fixpoint with_tokens (normalized : list string) (idx : nat) (padded : list Vec)
  : list EmbeddingResult :=
  match padded with
  | [] => []
  | v :: rest =>
      {| vec := v; tokens := estimateTokens (nth idx normalized "") |}
      :: with_tokens normalized (S idx) rest
  end.

(** [embed_batch] *)
Definition embed_batch (args : list JsVal) : M (list EmbeddingResult) :=
  let coerced := coerceBatchInputsFromArgs args in
  if Nat.eqb (List.length coerced) 0 then ret []
  else
    batchSize <- ensureBatchSize ;;
    modelKey <- ensureModelKey ;;
    let normalized := normalizeBatchInputs coerced in
    if Nat.eqb (List.length normalized) 0 then ret []
    else
      match chunk normalized batchSize with
      | None => diverge
      | Some groups =>
          vectors <- embed_groups modelKey groups [] ;;
          padded <- padToLength vectors (List.length normalized) ;;
          ret (with_tokens normalized 0 padded)
      end.

(** [items[0] ?? { vec: [] }] *)
Definition first_or_empty (items : list EmbeddingResult) : EmbedReturn :=
  match items with
  | r :: _ => Item r
  | [] => VecOnly []
  end.

(** [embed] *)
Definition embed (texts : JsVal) : M EmbedReturn :=
  let inputs := match texts with VArr _ => texts | _ => VArr [texts] end in
  items <- embed_batch [inputs] ;;
  ret (first_or_empty items).

(** [embed_documents] *)
Definition embed_documents (texts : JsVal) : M (list EmbeddingResult) :=
  embed_batch [texts].

(** [embed_query] *)
Definition embed_query (text : JsVal) : M EmbedReturn :=
  items <- embed_batch [VArr [text]] ;;
  ret (first_or_empty items).

End Lmstudio.

Arguments World P : clear implicits.
Arguments M P A : clear implicits.

Notation "x <- m ;; k" := (bind m (fun x => k))
  (at level 61, m at next level, right associativity).

(** ** A scripted platform for concrete runs *)

(** The clock reading and the replies the server will give, one per request
    whatever the request is; once the script is used up every request is
    rejected. *)
Record Script : Type := {
  clock : Z;
  replies : list FetchOutcome
}.

Definition scripted_fetch (e : Script) (_ : Request) : Script * FetchOutcome :=
  match replies e with
  | [] => (e, Rejected NetworkError)
  | r :: rest => ({| clock := clock e; replies := rest |}, r)
  end.

Definition embedding_item (components : list Z) : JsVal :=
  VObj [("embedding", VArr (map (fun z => VNum (Fin z)) components))].

Definition model_item (id : JsVal) : JsVal := VObj [("id", id)].

(** The response bodies used in the concrete runs, with the value each one
    parses to; any other text is a syntax error. *)
Definition sample_bodies : list (string * JsVal) :=
  [ ("no models", VObj [("data", VArr [])]);
    ("two models", VObj [("data", VArr [model_item (VStr "nomic-embed");
                                         model_item (VStr " bge-small ")])]);
    ("one vector", VObj [("data", VArr [embedding_item [7; 7]])]);
    ("another vector", VObj [("data", VArr [embedding_item [8; 8]])]);
    ("third vector", VObj [("data", VArr [embedding_item [9; 9]])]);
    ("two vectors", VObj [("data", VArr [embedding_item [1; 1]; embedding_item [2; 2]])]);
    ("three vectors", VObj [("data", VArr [embedding_item [1; 1]; embedding_item [2; 2];
                                            embedding_item [3; 3]])]);
    ("bad vector", VObj [("data", VArr [VObj [("embedding", VStr "oops")]])]) ].

Fixpoint parse_sample (table : list (string * JsVal)) (text : string) : option JsVal :=
  match table with
  | [] => None
  | (t, v) :: rest => if String.eqb text t then Some v else parse_sample rest text
  end.

(** Decimal numerals only; everything else reads as [NaN]. *)
Definition number_sample (s : string) : Num :=
  match NilZero.int_of_string s with
  | Some d => Fin (Z.of_int d)
  | None => NaN
  end.

Definition scripted : Platform := {|
  Env := Script;
  Date_now := clock;
  fetch := scripted_fetch;
  JSON_parse := parse_sample sample_bodies;
  StringToNumber := number_sample
|}.

Definition ok_reply (text : string) : FetchOutcome :=
  Responded {| res_ok := true; res_status := 200; res_statusText := "OK";
               res_text := Some text |}.

(** A response with status 200 whose body cannot be read: [res.text()]
    rejects. *)
Definition unreadable_reply : FetchOutcome :=
  Responded {| res_ok := true; res_status := 200; res_statusText := "OK"; res_text := None |}.

Definition error_reply (status : Z) (text : string) : FetchOutcome :=
  Responded {| res_ok := false; res_status := status; res_statusText := "Error";
               res_text := Some text |}.

Definition blank_data : ModelData := {|
  d_model_key := VUndefined; d_model := VUndefined; d_model_id := VUndefined;
  d_id := VUndefined; d_batch_size := VUndefined; d_max_batch_size := VUndefined;
  d_dims := VUndefined; d_provider_models := None
|}.

Definition keyed_data (k : string) (size : JsVal) : ModelData := {|
  d_model_key := VStr k; d_model := VUndefined; d_model_id := VUndefined;
  d_id := VUndefined; d_batch_size := size; d_max_batch_size := size;
  d_dims := VUndefined; d_provider_models := None
|}.

Definition model_with (d : option ModelData) : Model := {|
  m_data := d; m_model_key := VUndefined; m_id := VUndefined; m_debounce_save := true
|}.

(** A freshly loaded module, an adapter built on [m], the clock at [now] and
    the given script. *)
Definition start (m : option Model) (now : Z) (script : list FetchOutcome) : World scripted :=
  @Build_World scripted initial_settings [] 0 {| model := m; state := unloaded |}
    {| clock := now; replies := script |} [].

(** The requests sent so far. *)
Definition requests {P : Platform} (w : World P) : list Request :=
  flat_map (fun ev => match ev with Fetched r => [r] | _ => [] end) (trace w).

Definition saves {P : Platform} (w : World P) : nat :=
  List.length (filter (fun ev => match ev with SaveRequested => true | _ => false end) (trace w)).

(** ** Definitions used to state the properties *)

(** The fields [coerceToText] reads from an item that is not a string, in
    the order it reads them. *)
Definition probes (item : JsVal) : list JsVal :=
  [ prop item "embed_input"; prop item "text"; prop item "content"; prop item "input";
    prop (prop item "data") "embed_input"; prop (prop item "data") "text";
    prop (prop item "data") "content" ].

Definition present (v : JsVal) : bool := negb (nullish v).

(** The text of an item read as: a string stands for itself; otherwise the
    first probed field that holds anything but [null] or [undefined] decides,
    and counts only when it is a string. *)
Definition first_present_text (item : JsVal) : string :=
  match item with
  | VStr s => s
  | _ =>
      match find present (probes item) with
      | Some (VStr s) => s
      | _ => ""
      end
  end.

(** The request [createEmbeddings] sends under settings [s]. *)
Definition embeddings_request (s : LmStudioSettings) (modelKey : string) (input : JsVal)
  : Request :=
  {| url := (strip_trailing_slash (trim (baseUrl s)) ++ "/v1/embeddings")%string;
     init := {| method := Some "POST";
                headers := [("content-type", "application/json")];
                body := Some (VObj [("model", VStr modelKey); ("input", input);
                                    ("encoding_format", VStr "float")]) |};
     abort_after := requestTimeoutMs s |}.

(** The request [listModels] sends under settings [s]. *)
Definition models_request (s : LmStudioSettings) : Request :=
  {| url := (strip_trailing_slash (trim (baseUrl s)) ++ "/v1/models")%string;
     init := {| method := None; headers := []; body := None |};
     abort_after := requestTimeoutMs s |}.

(** The six places where a model key can be configured are all empty. *)
Definition no_key_configured {P : Platform} (w : World P) : bool :=
  nullish (data_prop w d_model_key) && nullish (data_prop w d_model)
  && nullish (data_prop w d_model_id) && nullish (data_prop w d_id)
  && nullish (model_prop w m_model_key) && nullish (model_prop w m_id).

(** The catalog [listModels] builds from a response. *)
Definition catalog_of (s : LmStudioSettings) (data : JsVal) : Catalog :=
  fold_left (add_model s) (data_array data) [].

(** [embed]'s argument as it is handed to [embed_batch]. *)
Definition embed_inputs (texts : JsVal) : JsVal :=
  match texts with
  | VArr _ => texts
  | _ => VArr [texts]
  end.

Definition map_outcome {A B : Type} (f : A -> B) (o : Outcome A) : Outcome B :=
  match o with
  | Ret a => Ret (f a)
  | Throw e => Throw e
  | Diverge => Diverge
  end.

Definition vector_of (components : list Z) : Vec := map (fun z => VNum (Fin z)) components.

(** The text starts with a character that [trim] keeps, or is empty. *)
Definition no_leading_ws (s : string) : Prop :=
  match s with
  | EmptyString => True
  | String c _ => is_ws c = false
  end.

(** The world after an assignment to [this.model.data]. *)
Definition with_data {P : Platform} (f : ModelData -> ModelData) (w : World P) : World P :=
  fst (update_data f w).

(** The world after the save hook was called. *)
Definition saved {P : Platform} (w : World P) : World P := fst (debounce_save w).

(** The two size fields of [model.data], when the model has a data object. *)
Definition sizes {P : Platform} (w : World P) : option (JsVal * JsVal) :=
  option_map (fun d => (d_batch_size d, d_max_batch_size d)) (model_data w).

(** From [w] to [w'] the size fields kept their values and the trace only
    grew. *)
Definition steady {P : Platform} (w w' : World P) : Prop :=
  sizes w' = sizes w /\ exists tail, trace w' = (trace w ++ tail)%list.

Definition keeps_steady {P : Platform} {A : Type} (m : M P A) : Prop :=
  forall w w' r, m w = (w', r) -> steady w w'.

(** A server that answers a single text with one vector spelling that text,
    and a list of texts with no vector at all. *)
Definition echo_fetch (e : Z) (req : Request) : Z * FetchOutcome :=
  (e,
   match option_map (fun b => prop b "input") (body (init req)) with
   | Some (VStr text) => ok_reply ("v:" ++ text)%string
   | _ => ok_reply "no models"
   end).

Definition echo_parse (text : string) : option JsVal :=
  match text with
  | String "v" (String ":" rest) =>
      Some (VObj [("data", VArr [VObj [("embedding", VArr [VStr rest])]])])
  | _ => parse_sample sample_bodies text
  end.

Definition echo : Platform := {|
  Env := Z;
  Date_now := fun e => e;
  fetch := echo_fetch;
  JSON_parse := echo_parse;
  StringToNumber := number_sample
|}.

Definition echo_start (m : option Model) : World echo :=
  @Build_World echo initial_settings [] 0 {| model := m; state := unloaded |} 0 [].

(** The result built from a vector per text. *)
Definition keyed_result (V : string -> Vec) (text : string) : EmbeddingResult :=
  {| vec := V text; tokens := estimateTokens text |}.

(** The last step of [embed_batch]: the vectors are padded to one per text
    and each is paired with the token estimate of its text. *)
Definition finish_batch {P : Platform} (normalized : list string) (vectors : list Vec)
  : M P (list EmbeddingResult) :=
  padded <- padToLength vectors (List.length normalized) ;;
  ret (with_tokens normalized 0 padded).

(** What [embed_batch] goes on with once the [try] statement of a round has
    left [vectors]: the dimension inference of that round, the rounds of the
    groups [post], and the last step. *)
Definition rest_of_batch {P : Platform} (k : string) (normalized : list string)
    (post : list (list string)) (vectors : list Vec) : M P (list EmbeddingResult) :=
  _ <- infer_dims vectors ;;
  vectors' <- embed_groups k post vectors ;;
  finish_batch normalized vectors'.

(** The text ends with a slash. *)
Fixpoint ends_with_slash (s : string) : bool :=
  match s with
  | EmptyString => false
  | String c EmptyString => Ascii.eqb c "/"
  | String _ rest => ends_with_slash rest
  end.

(** The identifier [listModels] reads from one entry of the model list. *)
Definition model_id (m : JsVal) : string := trim (String_of (prop m "id" ?? VStr "")).

(** What [get_models] leaves in the provider-model cache of a data object. *)
Definition seeded (cat : Catalog) (d : ModelData) : ModelData :=
  if provider_models_empty d then set_provider_models cat d else d.

(** The places where a model key is looked for, in the order of the lookup. *)
Definition key_places {P : Platform} (w : World P) : list JsVal :=
  [ data_prop w d_model_key; data_prop w d_model; data_prop w d_model_id;
    data_prop w d_id; model_prop w m_model_key; model_prop w m_id ].

(** [coerceBatchInputs], the two-argument coercion the adapter also carries. *)
Definition coerceBatchInputs (arg0 arg1 : JsVal) : list JsVal :=
  match nonempty_array arg0 with
  | Some a => a
  | None =>
      match nonempty_array arg1 with
      | Some a => a
      | None =>
          match any_array arg0 with
          | Some a => a
          | None =>
              match any_array arg1 with
              | Some a => a
              | None =>
                  let fromObj :=
                    prop arg0 "texts" ??
                    prop arg0 "text" ??
                    prop arg0 "inputs" ??
                    prop arg0 "input" ??
                    prop arg0 "items" ??
                    prop arg1 "texts" ??
                    prop arg1 "inputs" ??
                    prop arg1 "items" ??
                    VNull in
                  match fromObj with
                  | VArr l => l
                  | _ => []
                  end
              end
          end
      end
  end.

(** The call always ends, with a value or with an exception. *)
Definition halts {P : Platform} {A : Type} (m : M P A) : Prop :=
  forall w w' r, m w = (w', r) -> r <> Diverge.

(** A chunk size with which the loop of [chunk] never ends. *)
Definition endless_size (n : Num) : bool :=
  match n with
  | Fin z => z <=? 0
  | NegInf => true
  | _ => false
  end.

(** The call leaves the observation [f] of the state as it was. *)
Definition preserves {P : Platform} {A X : Type} (f : World P -> X) (m : M P A) : Prop :=
  forall w w' r, m w = (w', r) -> f w' = f w.

(** The [dims] field of the model's data object, when there is one. *)
Definition dims_of {P : Platform} (w : World P) : option JsVal :=
  option_map d_dims (model_data w).

(** The body of a response that holds [n] entries. *)
Fixpoint tally (n : nat) : string :=
  match n with
  | O => ""
  | S n' => String "x" (tally n')
  end.

(** One entry with a one-component embedding per character of the body. *)
Fixpoint tallied (text : string) : list JsVal :=
  match text with
  | EmptyString => []
  | String _ rest => embedding_item [0] :: tallied rest
  end.

(** A server that answers every embeddings request in full: one vector per
    text of a list input, one vector for a single text. *)
Definition full_fetch (e : Z) (req : Request) : Z * FetchOutcome :=
  (e,
   match option_map (fun b => prop b "input") (body (init req)) with
   | Some (VArr texts) => ok_reply (tally (List.length texts))
   | Some (VStr _) => ok_reply (tally 1)
   | _ => ok_reply ""
   end).

Definition full : Platform := {|
  Env := Z;
  Date_now := fun e => e;
  fetch := full_fetch;
  JSON_parse := fun text => Some (VObj [("data", VArr (tallied text))]);
  StringToNumber := number_sample
|}.

Definition full_start (m : option Model) : World full :=
  @Build_World full initial_settings [] 0 {| model := m; state := unloaded |} 0 [].

(** ** The settings tab of the plugin ([main.ts]) *)
(** [DEFAULT_SETTINGS] *)
Definition DEFAULT_SETTINGS : LmStudioSettings := {|
  baseUrl := "http://127.0.0.1:1234";
  requestTimeoutMs := Some (Fin 120000);
  maxTokens := Some (Fin 512);
  batchSize := Some (Fin 16)
|}.

(** [Number.isFinite(n) ? Math.max(floor, n) : fallback] for
    [n = Number(value)]. *)
Definition clamped {P : Platform} (floor : Z) (fallback : option Num) (value : string)
  : option Num :=
  match StringToNumber P value with
  | Fin z => Some (Fin (Z.max floor z))
  | _ => fallback
  end.

(** The four text fields of the settings tab. *)
Inductive Field : Type :=
| BaseUrlField
| TimeoutField
| MaxTokensField
| BatchSizeField.

(** The assignment the [onChange] handler of a field makes to the plugin's
    settings, before it saves and applies them. *)
Definition onChange {P : Platform} (f : Field) (value : string) (s : LmStudioSettings)
  : LmStudioSettings :=
  match f with
  | BaseUrlField =>
      {| baseUrl := if String.eqb (trim value) "" then baseUrl DEFAULT_SETTINGS else trim value;
         requestTimeoutMs := requestTimeoutMs s; maxTokens := maxTokens s;
         batchSize := batchSize s |}
  | TimeoutField =>
      {| baseUrl := baseUrl s;
         requestTimeoutMs := clamped (P := P) 5000 (requestTimeoutMs DEFAULT_SETTINGS) value;
         maxTokens := maxTokens s; batchSize := batchSize s |}
  | MaxTokensField =>
      {| baseUrl := baseUrl s; requestTimeoutMs := requestTimeoutMs s;
         maxTokens := clamped (P := P) 16 (maxTokens DEFAULT_SETTINGS) value;
         batchSize := batchSize s |}
  | BatchSizeField =>
      {| baseUrl := baseUrl s; requestTimeoutMs := requestTimeoutMs s;
         maxTokens := maxTokens s;
         batchSize := clamped (P := P) 1 (batchSize DEFAULT_SETTINGS) value |}
  end.

(** [applySettings]: all four keys are handed to the module. *)
Definition applySettings {P : Platform} (s : LmStudioSettings) : M P unit :=
  setLmStudioSettings
    {| next_baseUrl := Some (baseUrl s);
       next_requestTimeoutMs := Some (requestTimeoutMs s);
       next_maxTokens := Some (maxTokens s);
       next_batchSize := Some (batchSize s) |}.

(** The plugin's settings after a series of edits in the settings tab. *)
Definition edited {P : Platform} (edits : list (Field * string)) (s : LmStudioSettings)
  : LmStudioSettings :=
  fold_left (fun s e => onChange (P := P) (fst e) (snd e) s) edits s.

(** What the settings tab guarantees of the settings it has written. *)
Definition tab_settings (s : LmStudioSettings) : Prop :=
  baseUrl s <> "" /\ trim (baseUrl s) = baseUrl s
  /\ (exists z, requestTimeoutMs s = Some (Fin z) /\ 5000 <= z)
  /\ (exists z, maxTokens s = Some (Fin z) /\ 16 <= z)
  /\ (exists z, batchSize s = Some (Fin z) /\ 1 <= z).

(** Under settings [s] the call keeps the settings and sends only requests
    that satisfy [allowed]. *)
Definition sends {P : Platform} {A : Type} (s : LmStudioSettings) (allowed : Request -> Prop)
    (m : M P A) : Prop :=
  forall w w' r,
    settings w = s -> m w = (w', r) ->
    settings w' = s
    /\ exists sent, requests w' = (requests w ++ sent)%list /\ Forall allowed sent.

(** An embeddings request under [s] for model [k] whose input is one of the
    [texts], or a list of them, none of them empty. *)
Definition sends_texts (s : LmStudioSettings) (k : string) (texts : list string)
    (req : Request) : Prop :=
  exists input,
    req = embeddings_request s k input
    /\ ((exists t, input = VStr t /\ In t texts /\ t <> "")
        \/ (exists g, input = VArr (map VStr g) /\ forall t, In t g -> In t texts /\ t <> "")).

(** * Properties *)

Local Open Scope list_scope.

(** ** Input normalizer *)

Lemma coerceToText_first_present (item : JsVal) :
  coerceToText item = first_present_text item.
Proof.
  unfold coerceToText, first_present_text, probes.
  destruct item; try reflexivity.
  generalize (prop (VObj fields) "embed_input") (prop (VObj fields) "text")
    (prop (VObj fields) "content") (prop (VObj fields) "input")
    (prop (prop (VObj fields) "data") "embed_input")
    (prop (prop (VObj fields) "data") "text")
    (prop (prop (VObj fields) "data") "content").
  intros a b c d e f g.
  destruct a; try reflexivity; destruct b; try reflexivity;
    destruct c; try reflexivity; destruct d; try reflexivity;
    destruct e; try reflexivity; destruct f; try reflexivity;
    destruct g; reflexivity.
Qed.

(** C2 (as amended): a string item is used as it is; for any other item the
    fields embed_input, text, content, input and, under data, embed_input,
    text and content are read in that order, the first one that is neither
    null nor undefined is taken, and it supplies the text only when it is a
    string; the text is trimmed, and an empty result becomes one space. *)
Theorem normalize_first_present_field (inputs : list JsVal) :
  normalizeBatchInputs inputs =
  map (fun item =>
         let trimmed := trim (first_present_text item) in
         if String.eqb trimmed "" then " " else trimmed) inputs.
Proof.
  unfold normalizeBatchInputs. apply map_ext. intros item.
  unfold normalizeItem. now rewrite coerceToText_first_present.
Qed.

(** C2 (as stated) fails: text that sits only under data.input is not found,
    and a number in embed_input hides the string in text. *)
Lemma normalize_counterexample :
  normalizeBatchInputs [VObj [("data", VObj [("input", VStr "x")])]] = [" "]
  /\ normalizeBatchInputs [VObj [("embed_input", VNum (Fin 5)); ("text", VStr "hello")]] = [" "]
  /\ " " <> "x" /\ " " <> "hello".
Proof. repeat split; try reflexivity; discriminate. Qed.

(** ** Calls and their effects *)

Lemma bind_Ret {P : Platform} {A B : Type} (m : M P A) (k : A -> M P B) w w1 a :
  m w = (w1, Ret a) -> bind m k w = k a w1.
Proof. intros H. unfold bind. now rewrite H. Qed.

Lemma bind_Throw {P : Platform} {A B : Type} (m : M P A) (k : A -> M P B) w w1 e :
  m w = (w1, Throw e) -> bind m k w = (w1, Throw e).
Proof. intros H. unfold bind. now rewrite H. Qed.

Lemma bind_Ret_inv {P : Platform} {A B : Type} (m : M P A) (k : A -> M P B) w w' b :
  bind m k w = (w', Ret b) ->
  exists w1 a, m w = (w1, Ret a) /\ k a w1 = (w', Ret b).
Proof.
  unfold bind. destruct (m w) as [w1 [a | e |]]; intros H; try discriminate.
  now exists w1, a.
Qed.

(** What a request leaves untouched, and what it appends to the trace. *)
Lemma fetchJson_effect {P : Platform} (urlPath : string) (i : RequestInit) (w w' : World P) r :
  fetchJson urlPath i w = (w', r) ->
  settings w' = settings w /\ cachedModels w' = cachedModels w
  /\ lastFetchedAt w' = lastFetchedAt w /\ this w' = this w
  /\ trace w' = trace w ++ [Fetched {| url := (normalizeBaseUrl (baseUrl (settings w)) ++ urlPath)%string;
                                       init := i;
                                       abort_after := requestTimeoutMs (settings w) |}]
  /\ r <> Diverge.
Proof.
  unfold fetchJson.
  destruct (fetch P (env w) _) as [e' outcome].
  destruct outcome as [why | res].
  - intros [= <- <-]. cbn. repeat split; discriminate.
  - destruct (negb (res_ok res)).
    + intros [= <- <-]. cbn. repeat split; discriminate.
    + destruct (String.eqb _ "").
      * intros [= <- <-]. cbn. repeat split; discriminate.
      * destruct (JSON_parse P _); intros [= <- <-]; cbn; repeat split; discriminate.
Qed.

(** ** Model catalog *)

Lemma listModels_cached {P : Platform} (refresh : bool) (w : World P) :
  cache_fresh refresh w = true -> listModels refresh w = (w, Ret (cachedModels w)).
Proof. intros H. unfold listModels. now rewrite H. Qed.

Lemma listModels_refreshed {P : Platform} (refresh : bool) (w w1 : World P) data :
  cache_fresh refresh w = false ->
  fetchJson "/v1/models" no_init w = (w1, Ret data) ->
  listModels refresh w =
  (set_catalog w1 (catalog_of (settings w1) data) (Date_now P (env w)),
   Ret (catalog_of (settings w1) data)).
Proof.
  intros Hc Hf. unfold listModels. rewrite Hc.
  now rewrite (bind_Ret _ _ _ _ _ Hf).
Qed.

Lemma listModels_failed {P : Platform} (refresh : bool) (w w1 : World P) e :
  cache_fresh refresh w = false ->
  fetchJson "/v1/models" no_init w = (w1, Throw e) ->
  listModels refresh w = (w1, Throw e).
Proof.
  intros Hc Hf. unfold listModels. rewrite Hc.
  now rewrite (bind_Throw _ _ _ _ _ Hf).
Qed.

Lemma fetchJson_models_request {P : Platform} (w : World P) :
  {| url := (normalizeBaseUrl (baseUrl (settings w)) ++ "/v1/models")%string;
     init := no_init;
     abort_after := requestTimeoutMs (settings w) |}
  = models_request (settings w).
Proof. reflexivity. Qed.

(** C7 (as amended): a refresh that fails with an error (the request is
    rejected or aborted, answered with an error status, or answered with a
    body that is not empty and not JSON) makes [listModels] throw that error
    and leaves the cached snapshot and the refresh time as they were; the
    snapshot is replaced and the time stamped only by a call that returns.
    An answer with a 2xx status whose body is empty or cannot be read is not
    an error: the call returns the empty catalog, stores it and stamps the
    time. *)
Theorem listModels_failure_keeps_snapshot {P : Platform}
    (refresh : bool) (w : World P) (e' : Env P) (outcome : FetchOutcome) :
  cache_fresh refresh w = false ->
  fetch P (env w) (models_request (settings w)) = (e', outcome) ->
  let w1 := emit (set_env w e') (Fetched (models_request (settings w))) in
  let now := Date_now P (env w) in
  cachedModels w1 = cachedModels w
  /\ lastFetchedAt w1 = lastFetchedAt w
  /\ (forall why,
         outcome = Rejected why ->
         listModels refresh w = (w1, Throw (FetchError why)))
  /\ (forall res,
         outcome = Responded res -> res_ok res = false ->
         listModels refresh w
         = (w1, Throw (HttpStatusError (res_status res) (res_statusText res)
                         match res_text res with Some t => t | None => "" end)))
  /\ (forall res t,
         outcome = Responded res -> res_ok res = true ->
         res_text res = Some t -> t <> "" -> JSON_parse P t = None ->
         listModels refresh w = (w1, Throw SyntaxError))
  /\ (forall res t data,
         outcome = Responded res -> res_ok res = true ->
         res_text res = Some t -> t <> "" -> JSON_parse P t = Some data ->
         listModels refresh w
         = (set_catalog w1 (catalog_of (settings w) data) now,
            Ret (catalog_of (settings w) data)))
  /\ (forall res,
         outcome = Responded res -> res_ok res = true ->
         res_text res = None \/ res_text res = Some "" ->
         listModels refresh w = (set_catalog w1 [] now, Ret []))
  /\ (forall (fresh : bool) (v v' : World P) (r : Outcome Catalog),
         listModels fresh v = (v', r) ->
         cachedModels v' <> cachedModels v \/ lastFetchedAt v' <> lastFetchedAt v ->
         exists v1 data,
           fetchJson "/v1/models" no_init v = (v1, Ret data)
           /\ r = Ret (cachedModels v')
           /\ cachedModels v' = catalog_of (settings v1) data
           /\ lastFetchedAt v' = Date_now P (env v)).
Proof.
  intros Hc Hf w1 now.
  assert (Hfetch : forall r, 
             fetchJson "/v1/models" no_init w = (w1, r) ->
             listModels refresh w
             = match r with
               | Ret data => (set_catalog w1 (catalog_of (settings w) data) now,
                              Ret (catalog_of (settings w) data))
               | Throw e => (w1, Throw e)
               | Diverge => (w1, Diverge)
               end).
  { intros r Hr. destruct r as [data | e |].
    - now rewrite (listModels_refreshed _ _ _ _ Hc Hr).
    - now rewrite (listModels_failed _ _ _ _ Hc Hr).
    - destruct (fetchJson_effect _ _ _ _ _ Hr) as (_ & _ & _ & _ & _ & Hd). now elim Hd. }
  assert (Hrun : fetchJson "/v1/models" no_init w
                 = match outcome with
                   | Rejected why => (w1, Throw (FetchError why))
                   | Responded res =>
                       let text := match res_text res with Some t => t | None => "" end in
                       if negb (res_ok res)
                       then (w1, Throw (HttpStatusError (res_status res) (res_statusText res) text))
                       else if String.eqb text "" then (w1, Ret VNull)
                            else match JSON_parse P text with
                                 | Some v => (w1, Ret v)
                                 | None => (w1, Throw SyntaxError)
                                 end
                   end).
  { unfold fetchJson. rewrite fetchJson_models_request, Hf. reflexivity. }
  split; [reflexivity|]. split; [reflexivity|].
  split; [|split; [|split; [|split; [|split]]]].
  - intros why ->. exact (Hfetch _ Hrun).
  - intros res -> Hok. rewrite Hok in Hrun. exact (Hfetch _ Hrun).
  - intros res t -> Hok Ht Hne Hp. rewrite Hok, Ht in Hrun. cbn [negb] in Hrun.
    destruct (String.eqb_spec t "") as [|_]; [contradiction|]. rewrite Hp in Hrun.
    exact (Hfetch _ Hrun).
  - intros res t data -> Hok Ht Hne Hp. rewrite Hok, Ht in Hrun. cbn [negb] in Hrun.
    destruct (String.eqb_spec t "") as [|_]; [contradiction|]. rewrite Hp in Hrun.
    exact (Hfetch _ Hrun).
  - intros res -> Hok Ht. rewrite Hok in Hrun. cbn [negb] in Hrun.
    assert (Hnull : fetchJson "/v1/models" no_init w = (w1, Ret VNull)).
    { destruct Ht as [Ht | Ht]; rewrite Ht in Hrun; exact Hrun. }
    exact (Hfetch _ Hnull).
  - intros fresh v v' r Hv Hchg.
    destruct (cache_fresh fresh v) eqn:Hfresh.
    + rewrite (listModels_cached _ _ Hfresh) in Hv. injection Hv as <- <-.
      destruct Hchg as [H | H]; now elim H.
    + destruct (fetchJson "/v1/models" no_init v) as [v1 [data | e |]] eqn:Hfv.
      * rewrite (listModels_refreshed _ _ _ _ Hfresh Hfv) in Hv.
        injection Hv as <- <-. exists v1, data. cbn. now repeat split.
      * rewrite (listModels_failed _ _ _ _ Hfresh Hfv) in Hv.
        injection Hv as <- <-.
        destruct (fetchJson_effect _ _ _ _ _ Hfv) as (_ & Hcm' & Hl' & _).
        destruct Hchg as [H | H]; [now elim H | now elim H].
      * destruct (fetchJson_effect _ _ _ _ _ Hfv) as (_ & _ & _ & _ & _ & Hd). now elim Hd.
Qed.

Lemma listModels_failure_keeps_snapshot_witness :
  let filled := fst (listModels true (start None 100 [ok_reply "two models"])) in
  let w := set_env filled {| clock := 200; replies := [error_reply 500 "down"] |} in
  map fst (cachedModels w) = ["nomic-embed"; "bge-small"]
  /\ lastFetchedAt w = 100
  /\ snd (listModels true w) = Throw (HttpStatusError 500 "Error" "down")
  /\ cachedModels (fst (listModels true w)) = cachedModels w
  /\ lastFetchedAt (fst (listModels true w)) = 100.
Proof.
  intros filled w.
  assert (Hkeys : map fst (cachedModels w) = ["nomic-embed"; "bge-small"])
    by (vm_compute; reflexivity).
  assert (Hstamp : lastFetchedAt w = 100) by (vm_compute; reflexivity).
  assert (Hfetch : fetch scripted (env w) (models_request (settings w))
                   = ({| clock := 200; replies := [] |}, error_reply 500 "down"))
    by (vm_compute; reflexivity).
  destruct (@listModels_failure_keeps_snapshot scripted true w _ _ eq_refl Hfetch)
    as (Hcm & Hl & _ & Hstatus & _).
  pose proof (Hstatus _ eq_refl eq_refl) as Hrun. cbn [res_text res_status res_statusText] in Hrun.
  clearbody w.
  split; [exact Hkeys|]. split; [exact Hstamp|].
  rewrite Hrun. cbn [fst snd]. split; [reflexivity|]. split; [exact Hcm|].
  now rewrite Hl.
Defined.

(** C7 (as stated) fails: a refresh whose answer cannot be read is a failed
    refresh, yet no error reaches the caller, the populated snapshot is
    replaced by the empty one and the refresh time moves. *)
Lemma listModels_failure_counterexample :
  let filled := fst (listModels true (start None 100 [ok_reply "two models"])) in
  let w := set_env filled {| clock := 200; replies := [unreadable_reply] |} in
  map fst (cachedModels w) = ["nomic-embed"; "bge-small"]
  /\ lastFetchedAt w = 100
  /\ snd (listModels true w) = Ret []
  /\ cachedModels (fst (listModels true w)) = []
  /\ lastFetchedAt (fst (listModels true w)) = 200.
Proof. cbv zeta. repeat split; vm_compute; reflexivity. Qed.

Lemma requests_emit_fetched {P : Platform} (w w' : World P) (req : Request) :
  trace w' = trace w ++ [Fetched req] -> requests w' = requests w ++ [req].
Proof.
  unfold requests. intros ->. rewrite flat_map_app. cbn. reflexivity.
Qed.

(** C6 (as amended): when a call [listModels(false)] has fetched the list and
    the snapshot it returned is not empty, a second call made less than
    15000 ms after the first one started returns the same snapshot without
    any request: one request in all. *)
Theorem listModels_second_call_reuses {P : Platform}
    (w w1 : World P) (cat : Catalog) (later : Env P) :
  cache_fresh false w = false ->
  listModels false w = (w1, Ret cat) ->
  Object_keys cat <> [] ->
  Date_now P later - Date_now P (env w) < 15000 ->
  listModels false (set_env w1 later) = (set_env w1 later, Ret cat)
  /\ requests w1 = requests w ++ [models_request (settings w)]
  /\ requests (fst (listModels false (set_env w1 later)))
     = requests w ++ [models_request (settings w)].
Proof.
  intros Hstale Hfirst Hkeys Hsoon.
  destruct (fetchJson "/v1/models" no_init w) as [wf [data | e |]] eqn:Hf.
  - rewrite (listModels_refreshed _ _ _ _ Hstale Hf) in Hfirst.
    injection Hfirst as <- <-.
    destruct (fetchJson_effect _ _ _ _ _ Hf) as (_ & _ & _ & _ & Htr & _).
    assert (Hreq : requests (set_catalog wf (catalog_of (settings wf) data)
                               (Date_now P (env w)))
                   = requests w ++ [models_request (settings w)]).
    { apply requests_emit_fetched. cbn. exact Htr. }
    assert (Hhit : cache_fresh false
                     (set_env (set_catalog wf (catalog_of (settings wf) data)
                                 (Date_now P (env w))) later) = true).
    { unfold cache_fresh.
      cbn [set_env set_catalog cachedModels lastFetchedAt env negb andb].
      rewrite (proj2 (Z.ltb_lt _ _) Hsoon).
      destruct (Object_keys (catalog_of (settings wf) data)); [now elim Hkeys | reflexivity]. }
    rewrite (listModels_cached _ _ Hhit). cbn [fst].
    split; [reflexivity|]. split; [exact Hreq|]. exact Hreq.
  - rewrite (listModels_failed _ _ _ _ Hstale Hf) in Hfirst. discriminate.
  - destruct (fetchJson_effect _ _ _ _ _ Hf) as (_ & _ & _ & _ & _ & Hd). now elim Hd.
Qed.

Lemma listModels_second_call_reuses_witness :
  let w := start None 100 [ok_reply "two models"] in
  let w1 := fst (listModels false w) in
  let later := {| clock := 14000; replies := [] |} in
  listModels false (set_env w1 later)
  = (set_env w1 later, Ret (cachedModels w1))
  /\ List.length (requests (fst (listModels false (set_env w1 later)))) = 1%nat.
Proof.
  intros w w1 later.
  destruct (@listModels_second_call_reuses scripted w w1 (cachedModels w1) later
              eq_refl eq_refl ltac:(discriminate) eq_refl) as (H1 & _ & H3).
  split; [exact H1 | now rewrite H3].
Defined.

(** C6 (as stated) fails: when the server lists no model, the second call
    made at the same instant asks the server again. *)
Lemma listModels_twice_counterexample :
  let w := start None 100 [ok_reply "no models"; ok_reply "no models"] in
  let w1 := fst (listModels false w) in
  let w2 := fst (listModels false w1) in
  snd (listModels false w) = Ret []
  /\ snd (listModels false w1) = Ret []
  /\ Date_now scripted (env w1) - Date_now scripted (env w) < 15000
  /\ List.length (requests w2) = 2%nat.
Proof. cbv zeta. repeat split. Qed.

(** ** Token estimate *)

Lemma ceil_quarter (z : Z) : Qceiling (inject_Z z / inject_Z 4) = (z + 3) / 4.
Proof.
  unfold Qceiling, Qfloor, Qdiv, Qmult, Qinv, Qopp, inject_Z. cbn.
  rewrite Z.mul_1_r.
  pose proof (Z.div_mod (- z) 4 ltac:(lia)) as H1.
  pose proof (Z.mod_pos_bound (- z) 4 ltac:(lia)) as H2.
  pose proof (Z.div_mod (z + 3) 4 ltac:(lia)) as H3.
  pose proof (Z.mod_pos_bound (z + 3) 4 ltac:(lia)) as H4.
  lia.
Qed.

Lemma estimateTokens_formula (text : string) :
  estimateTokens text = Z.max 1 ((str_len text + 3) / 4).
Proof. unfold estimateTokens. now rewrite ceil_quarter. Qed.

Lemma estimateTokens_positive (text : string) : 1 <= estimateTokens text.
Proof. unfold estimateTokens. lia. Qed.

(** ** Chunking *)

Lemma chunk_from_concat {T : Type} (items : list T) (size fuel i : nat) :
  (0 < size)%nat -> (List.length items <= i + fuel)%nat ->
  List.concat (chunk_from fuel items size i) = skipn i items.
Proof.
  intros Hsize. revert i.
  induction fuel as [|fuel IH]; intros i Hlen; cbn [chunk_from].
  - cbn. symmetry. apply skipn_all2. lia.
  - destruct (Nat.ltb_spec i (List.length items)) as [Hlt | Hge].
    + cbn [List.concat]. rewrite IH by lia. unfold slice.
      replace (i + size - i)%nat with size by lia.
      rewrite Nat.add_comm, <- skipn_skipn. apply firstn_skipn.
    + cbn. symmetry. apply skipn_all2. lia.
Qed.

(** With a positive integer size, or [Infinity], the groups are the items in
    order, cut into consecutive pieces. *)
Lemma chunk_partitions {T : Type} (items : list T) (size : Num) (groups : list (list T)) :
  chunk items size = Some groups ->
  size <> NaN ->
  List.concat groups = items.
Proof.
  unfold chunk. destruct items as [|x items]; [now intros [= <-]|].
  destruct size as [ | | | z]; intros H Hn; try discriminate.
  - now elim Hn.
  - injection H as <-. cbn. now rewrite app_nil_r.
  - destruct (Z.ltb_spec 0 z) as [Hz|]; [|discriminate]. injection H as <-.
    apply (chunk_from_concat (x :: items) (Z.to_nat z) (List.length (x :: items)) 0); lia.
Qed.

(** ** Padding and token wrapping *)

Lemma padToLength_effect {P : Platform} (vectors : list Vec) (n : nat) (w w' : World P)
    (r : Outcome (list Vec)) :
  padToLength vectors n w = (w', r) -> w' = w /\ r <> Diverge.
Proof.
  unfold padToLength. destruct (n <=? List.length vectors)%nat; [now intros [= <- <-]|].
  destruct (2 ^ 32 <=? pad_dims w vectors); now intros [= <- <-].
Qed.

Lemma padToLength_length {P : Platform} (vectors : list Vec) (n : nat) (w w' : World P)
    (padded : list Vec) :
  padToLength vectors n w = (w', Ret padded) -> List.length padded = n.
Proof.
  unfold padToLength. destruct (Nat.leb_spec n (List.length vectors)).
  - intros [= _ <-]. rewrite length_firstn. lia.
  - destruct (2 ^ 32 <=? pad_dims w vectors); [discriminate|].
    intros [= _ <-]. rewrite length_app, repeat_length. lia.
Qed.

Lemma padToLength_exact {P : Platform} (w : World P) (vectors : list Vec) :
  padToLength vectors (List.length vectors) w = (w, Ret vectors).
Proof.
  unfold padToLength. rewrite Nat.leb_refl. now rewrite firstn_all.
Qed.

Lemma with_tokens_vec (normalized : list string) (idx : nat) (padded : list Vec) :
  map vec (with_tokens normalized idx padded) = padded.
Proof.
  revert idx. induction padded as [|v rest IH]; intros idx; cbn; [reflexivity|].
  now rewrite IH.
Qed.

Lemma with_tokens_tokens (normalized : list string) (idx : nat) (padded : list Vec) :
  (idx + List.length padded <= List.length normalized)%nat ->
  map tokens (with_tokens normalized idx padded)
  = map estimateTokens (firstn (List.length padded) (skipn idx normalized)).
Proof.
  revert idx. induction padded as [|v rest IH]; intros idx Hlen; cbn [with_tokens map List.length].
  - reflexivity.
  - cbn [List.length] in Hlen.
    rewrite IH by lia.
    destruct (skipn idx normalized) as [|t tail] eqn:Hs.
    + apply (f_equal (@List.length string)) in Hs. rewrite length_skipn in Hs. cbn in Hs. lia.
    + cbn [firstn map]. f_equal.
      * f_equal. rewrite <- (firstn_skipn idx normalized) at 1.
        rewrite app_nth2; rewrite length_firstn; [|lia].
        replace (idx - Nat.min idx (List.length normalized))%nat with 0%nat by lia.
        now rewrite Hs.
      * f_equal. f_equal.
        change (S idx) with (1 + idx)%nat. rewrite <- skipn_skipn. now rewrite Hs.
Qed.

Lemma with_tokens_aligned (normalized : list string) (padded : list Vec) :
  List.length padded = List.length normalized ->
  map tokens (with_tokens normalized 0 padded) = map estimateTokens normalized.
Proof.
  intros H. rewrite with_tokens_tokens by lia. cbn [skipn].
  rewrite H. now rewrite firstn_all.
Qed.

(** ** Per-item embedding *)

Lemma embed_each_Ret {P : Platform} (k : string) (group : list string) :
  forall (recovered : list Vec) (w w' : World P) (out : list Vec),
    embed_each k group recovered w = (w', Ret out) ->
    exists vs, out = recovered ++ vs /\ List.length vs = List.length group.
Proof.
  induction group as [|one rest IH]; intros recovered w w' out H; cbn [embed_each] in H.
  - injection H as <- <-. exists []. now rewrite app_nil_r.
  - apply bind_Ret_inv in H. destruct H as (w1 & v & _ & H).
    apply IH in H. destruct H as (vs & -> & Hlen).
    exists (v :: vs). rewrite <- app_assoc. cbn. now rewrite Hlen.
Qed.

(** The recovery loop followed by the push onto [vectors]. *)
Lemma recover_Ret {P : Platform} (k : string) (group : list string) (vectors : list Vec)
    (w w' : World P) (out : list Vec) :
  bind (embed_each k group []) (fun recovered => ret (vectors ++ recovered)) w = (w', Ret out) ->
  exists vs, out = vectors ++ vs /\ List.length vs = List.length group
             /\ embed_each k group [] w = (w', Ret vs).
Proof.
  intros H. apply bind_Ret_inv in H. destruct H as (w1 & recovered & He & Hr).
  injection Hr as <- <-.
  destruct (embed_each_Ret _ _ _ _ _ _ He) as (vs & Hvs & Hlen). cbn in Hvs. subst vs.
  now exists recovered.
Qed.

(** Each group that completes adds one vector per text to [vectors]. *)
Lemma embed_group_Ret {P : Platform} (k : string) (group : list string) (vectors : list Vec)
    (w w' : World P) (out : list Vec) :
  embed_group k group vectors w = (w', Ret out) ->
  exists vs, out = vectors ++ vs /\ List.length vs = List.length group.
Proof.
  unfold embed_group, try_catch.
  destruct (bind (batch_request k group) _ w) as [wb [a | e |]] eqn:Hbody.
  - intros [= <- <-]. apply bind_Ret_inv in Hbody.
    destruct Hbody as (w1 & embeddings & _ & Hrest).
    destruct (Nat.eqb_spec (List.length embeddings) (List.length group)) as [Heq | Hne];
      cbn [negb] in Hrest.
    + injection Hrest as <- <-. exists (firstn (List.length group) embeddings).
      split; [reflexivity|]. rewrite length_firstn. lia.
    + apply bind_Ret_inv in Hrest. destruct Hrest as (w2 & [] & _ & Hrest).
      apply recover_Ret in Hrest. destruct Hrest as (vs & -> & Hlen & _). now exists vs.
  - intros H. apply recover_Ret in H. destruct H as (vs & -> & Hlen & _). now exists vs.
  - discriminate.
Qed.

Lemma embed_groups_Ret {P : Platform} (k : string) (groups : list (list string)) :
  forall (vectors : list Vec) (w w' : World P) (out : list Vec),
    embed_groups k groups vectors w = (w', Ret out) ->
    exists vss, out = vectors ++ List.concat vss
                /\ Forall2 (fun g vs => List.length vs = List.length g) groups vss.
Proof.
  induction groups as [|g rest IH]; intros vectors w w' out H; cbn [embed_groups] in H.
  - injection H as <- <-. exists []. cbn. now rewrite app_nil_r.
  - apply bind_Ret_inv in H. destruct H as (w1 & vectors' & Hg & H).
    apply bind_Ret_inv in H. destruct H as (w2 & [] & _ & H).
    apply embed_group_Ret in Hg. destruct Hg as (vs & -> & Hlen).
    apply IH in H. destruct H as (vss & -> & Hall).
    exists (vs :: vss). cbn. rewrite app_assoc. split; [reflexivity|]. now constructor.
Qed.

Lemma embed_groups_app {P : Platform} (k : string) (pre post : list (list string)) :
  forall (vectors : list Vec) (w : World P),
    embed_groups k (pre ++ post) vectors w
    = bind (embed_groups k pre vectors) (fun acc => embed_groups k post acc) w.
Proof.
  induction pre as [|g pre IH]; intros vectors w; cbn [embed_groups app].
  - reflexivity.
  - unfold bind.
    destruct (embed_group k g vectors w) as [w1 [acc | e |]]; try reflexivity.
    destruct (infer_dims acc w1) as [w2 [[] | e |]]; try reflexivity.
    rewrite IH. reflexivity.
Qed.

(** ** Batch size *)

(** The sizes [ensureBatchSize] leaves in [model.data]. *)
Lemma ensureBatchSize_Ret {P : Platform} (w : World P) :
  exists w', ensureBatchSize w = (w', Ret (effective_batch_size w)).
Proof.
  unfold ensureBatchSize, model_data, bind, update_data, debounce_save, ret.
  destruct (model (this w)) as [m|] eqn:Hm; [|eauto].
  destruct (m_data m) as [d|] eqn:Hd; [|eauto].
  cbn. destruct (m_debounce_save m); eauto.
Qed.

(** ** The shape of what [embed_batch] returns *)

Lemma embed_batch_Ret_inv {P : Platform} (args : list JsVal) (w w' : World P)
    (rs : list EmbeddingResult) :
  embed_batch args w = (w', Ret rs) ->
  let normalized := normalizeBatchInputs (coerceBatchInputsFromArgs args) in
  (coerceBatchInputsFromArgs args = [] /\ rs = [] /\ w' = w)
  \/ exists wa wb k groups vectors,
       ensureBatchSize w = (wa, Ret (effective_batch_size w))
       /\ ensureModelKey wa = (wb, Ret k)
       /\ chunk normalized (effective_batch_size w) = Some groups
       /\ embed_groups k groups [] wb = (w', Ret vectors)
       /\ exists padded,
            padToLength vectors (List.length normalized) w' = (w', Ret padded)
            /\ rs = with_tokens normalized 0 padded.
Proof.
  intros H. cbv zeta. unfold embed_batch in H.
  destruct (coerceBatchInputsFromArgs args) as [|x coerced] eqn:Hc.
  - left. cbn in H. now injection H as <- <-.
  - right. cbn [List.length Nat.eqb] in H.
    destruct (ensureBatchSize_Ret w) as (wa & Hb).
    rewrite (bind_Ret _ _ _ _ _ Hb) in H.
    apply bind_Ret_inv in H. destruct H as (wb & k & Hk & H).
    remember (normalizeBatchInputs (x :: coerced)) as normalized eqn:Hn.
    destruct normalized as [|t normalized]; [discriminate Hn|].
    cbn [List.length Nat.eqb] in H.
    destruct (chunk (t :: normalized) (effective_batch_size w)) as [groups|] eqn:Hch;
      [|discriminate].
    apply bind_Ret_inv in H. destruct H as (w2 & vectors & Hg & H).
    apply bind_Ret_inv in H. destruct H as (w3 & padded & Hp & H).
    injection H as <- <-.
    destruct (padToLength_effect _ _ _ _ _ Hp) as (-> & _).
    exists wa, wb, k, groups, vectors. repeat split; try assumption.
    now exists padded.
Qed.

Lemma coerce_single_array (items : list JsVal) :
  coerceBatchInputsFromArgs [VArr items] = items.
Proof. destruct items; reflexivity. Qed.

Lemma concat_lengths {A B : Type} (groups : list (list A)) (vss : list (list B)) :
  Forall2 (fun g vs => List.length vs = List.length g) groups vss ->
  List.length (List.concat vss) = List.length (List.concat groups).
Proof.
  induction 1 as [|g vs groups vss Hlen _ IH]; cbn; [reflexivity|].
  rewrite !length_app. lia.
Qed.

Lemma embed_batch_aligned {P : Platform} (args : list JsVal) (w w' : World P)
    (rs : list EmbeddingResult) :
  embed_batch args w = (w', Ret rs) ->
  List.length rs = List.length (coerceBatchInputsFromArgs args)
  /\ map tokens rs
     = map estimateTokens (normalizeBatchInputs (coerceBatchInputsFromArgs args)).
Proof.
  intros H. apply embed_batch_Ret_inv in H. cbv zeta in H.
  destruct H as [(Hc & -> & _)
                | (wa & wb & k & groups & vectors & _ & _ & _ & _ & padded & Hp & ->)].
  - rewrite Hc. split; reflexivity.
  - pose proof (padToLength_length _ _ _ _ _ Hp) as Hlen. split.
    + rewrite <- (length_map vec), with_tokens_vec, Hlen.
      unfold normalizeBatchInputs. apply length_map.
    + apply with_tokens_aligned. exact Hlen.
Qed.

(** ** Alignment of results and inputs *)

(** What [embed_batch(items)] returns has one result per input item, in
    input order: result [i] carries the token estimate of the normalized item
    [i], and the vectors are, group after group, exactly as many as the group
    has texts, whatever the server sent. *)
Lemma embed_batch_returns_aligned {P : Platform}
    (items : list JsVal) (w w' : World P) (rs : list EmbeddingResult) :
  embed_batch [VArr items] w = (w', Ret rs) ->
  List.length rs = List.length items
  /\ map tokens rs = map (fun item => estimateTokens (normalizeItem item)) items
  /\ exists groups vss,
       chunk (normalizeBatchInputs items) (effective_batch_size w) = Some groups
       /\ Forall2 (fun g vs => List.length vs = List.length g) groups vss
       /\ padToLength (List.concat vss) (List.length items) w' = (w', Ret (map vec rs))
       /\ (effective_batch_size w <> NaN ->
           List.concat groups = normalizeBatchInputs items
           /\ map vec rs = List.concat vss).
Proof.
  intros H.
  destruct (embed_batch_aligned _ _ _ _ H) as (Hlen & Htok).
  rewrite coerce_single_array in Hlen, Htok.
  split; [exact Hlen|]. split.
  { rewrite Htok. unfold normalizeBatchInputs. now rewrite map_map. }
  apply embed_batch_Ret_inv in H. cbv zeta in H. rewrite coerce_single_array in H.
  destruct H as [(-> & -> & _)
                | (wa & wb & k & groups & vectors & _ & _ & Hch & Hg & padded & Hp & ->)].
  - exists [], []. cbn. repeat split; constructor.
  - apply embed_groups_Ret in Hg. destruct Hg as (vss & -> & Hall). cbn [app] in *.
    exists groups, vss. rewrite with_tokens_vec.
    assert (Hn : List.length (normalizeBatchInputs items) = List.length items)
      by apply length_map.
    rewrite Hn in Hp. repeat split; try assumption.
    + now apply (chunk_partitions _ _ _ Hch).
    + rewrite <- Hn, <- (chunk_partitions _ _ _ Hch H), <- (concat_lengths _ _ Hall) in Hp.
      rewrite padToLength_exact in Hp. now injection Hp as <-.
Qed.

(** ** Requests sent by the embedding calls *)

Lemma extractEmbeddings_returns_or_throws (data : JsVal) :
  extractEmbeddings data <> Diverge.
Proof.
  unfold extractEmbeddings. generalize (@nil Vec).
  induction (data_array data) as [|it rest IH]; intros out; cbn; [discriminate|].
  destruct (prop it "embedding"); try discriminate. apply IH.
Qed.

Lemma createEmbeddings_effect {P : Platform} (k : string) (input : JsVal) (w w' : World P) r :
  createEmbeddings k input w = (w', r) ->
  requests w' = requests w ++ [embeddings_request (settings w) k input]
  /\ settings w' = settings w /\ r <> Diverge.
Proof.
  unfold createEmbeddings. intros H.
  destruct (fetchJson_effect _ _ _ _ _ H) as (Hs & _ & _ & _ & Ht & Hd).
  split; [|now split]. now apply requests_emit_fetched.
Qed.

Lemma batch_request_effect {P : Platform} (k : string) (group : list string) (w w' : World P) r :
  batch_request k group w = (w', r) ->
  requests w' = requests w ++ [embeddings_request (settings w) k (VArr (map VStr group))]
  /\ settings w' = settings w /\ r <> Diverge.
Proof.
  unfold batch_request, bind, lift. intros H.
  destruct (createEmbeddings k _ w) as [w1 [data | e |]] eqn:Hc;
    destruct (createEmbeddings_effect _ _ _ _ _ Hc) as (Hr & Hs & Hd).
  - injection H as <- <-. repeat split; try assumption.
    apply extractEmbeddings_returns_or_throws.
  - injection H as <- <-. repeat split; try assumption. discriminate.
  - now elim Hd.
Qed.

Lemma embedOne_effect {P : Platform} (k one : string) (w w' : World P) r :
  embedOne k one w = (w', r) ->
  requests w' = requests w ++ [embeddings_request (settings w) k (VStr one)]
  /\ settings w' = settings w /\ r <> Diverge.
Proof.
  unfold embedOne, bind, lift. intros H.
  destruct (createEmbeddings k _ w) as [w1 [data | e |]] eqn:Hc;
    destruct (createEmbeddings_effect _ _ _ _ _ Hc) as (Hr & Hs & Hd).
  - destruct (extractEmbeddings data) as [[|v vs] | e |] eqn:He.
    + injection H as <- <-. repeat split; try assumption. discriminate.
    + injection H as <- <-. repeat split; try assumption. discriminate.
    + injection H as <- <-. repeat split; try assumption. discriminate.
    + now elim (extractEmbeddings_returns_or_throws data).
  - injection H as <- <-. repeat split; try assumption. discriminate.
  - now elim Hd.
Qed.

Lemma embed_each_requests {P : Platform} (k : string) (group : list string) :
  forall (recovered : list Vec) (w w' : World P) (out : list Vec),
    embed_each k group recovered w = (w', Ret out) ->
    requests w' = requests w ++ map (fun one => embeddings_request (settings w) k (VStr one)) group
    /\ settings w' = settings w.
Proof.
  induction group as [|one rest IH]; intros recovered w w' out H; cbn [embed_each] in H.
  - injection H as <- <-. cbn. now rewrite app_nil_r.
  - apply bind_Ret_inv in H. destruct H as (w1 & v & H1 & H).
    apply embedOne_effect in H1. destruct H1 as (Hr1 & Hs1 & _).
    apply IH in H. destruct H as (Hr & Hs).
    rewrite Hr, Hr1, Hs1, Hs. cbn. now rewrite <- app_assoc.
Qed.

(** ** The groups of [embed_batch] *)

Lemma embed_batch_runs_groups {P : Platform} (args : list JsVal) (w wa wb : World P)
    (size : Num) (k : string) (groups : list (list string)) :
  coerceBatchInputsFromArgs args <> [] ->
  ensureBatchSize w = (wa, Ret size) ->
  ensureModelKey wa = (wb, Ret k) ->
  chunk (normalizeBatchInputs (coerceBatchInputsFromArgs args)) size = Some groups ->
  embed_batch args w
  = bind (embed_groups k groups [])
      (finish_batch (normalizeBatchInputs (coerceBatchInputsFromArgs args))) wb.
Proof.
  intros Hargs Hsize Hkey Hchunk. unfold embed_batch.
  destruct (coerceBatchInputsFromArgs args) as [|x coerced]; [now elim Hargs|].
  cbn [List.length Nat.eqb].
  rewrite (bind_Ret _ _ _ _ _ Hsize), (bind_Ret _ _ _ _ _ Hkey).
  cbn [normalizeBatchInputs map List.length Nat.eqb] in *.
  now rewrite Hchunk.
Qed.

(** ** Single-item projections *)

Lemma embed_unfold {P : Platform} (texts : JsVal) (w : World P) :
  embed texts w
  = (fst (embed_batch [embed_inputs texts] w),
     map_outcome first_or_empty (snd (embed_batch [embed_inputs texts] w))).
Proof.
  unfold embed, bind. fold (embed_inputs texts).
  now destruct (embed_batch [embed_inputs texts] w) as [w' [rs | e |]].
Qed.

(** C9: [embed] hands an array argument to [embed_batch] as it is, and any
    other argument as a one-element array; when [embed_batch] returns, all
    [n] items of a non-empty array have been embedded in that call and
    [embed] returns the first result only, dropping the other [n - 1]; when
    [embed_batch] returns no result, [embed] returns [{ vec: [] }]. *)
Theorem embed_returns_first_result {P : Platform}
    (texts : JsVal) (w w' : World P) (rs : list EmbeddingResult) :
  embed_batch [embed_inputs texts] w = (w', Ret rs) ->
  embed texts w = (w', Ret (first_or_empty rs))
  /\ (forall items,
         texts = VArr items ->
         embed_inputs texts = VArr items
         /\ List.length rs = List.length items
         /\ (items <> [] ->
             exists r rest,
               rs = r :: rest
               /\ List.length rest = (List.length items - 1)%nat
               /\ embed texts w = (w', Ret (Item r))))
  /\ ((forall items, texts <> VArr items) ->
      embed_inputs texts = VArr [texts] /\ List.length rs = 1%nat)
  /\ (rs = [] -> embed texts w = (w', Ret (VecOnly []))).
Proof.
  intros H.
  assert (Hrun : embed texts w = (w', Ret (first_or_empty rs))).
  { rewrite embed_unfold, H. reflexivity. }
  split; [exact Hrun|]. split; [|split].
  - intros items ->. cbn [embed_inputs] in *.
    destruct (embed_batch_aligned _ _ _ _ H) as (Hlen & _).
    rewrite coerce_single_array in Hlen.
    split; [reflexivity|]. split; [exact Hlen|]. intros Hne.
    destruct rs as [|r rest].
    + destruct items; [now elim Hne | discriminate Hlen].
    + exists r, rest. cbn [List.length] in Hlen. repeat split; [lia | exact Hrun].
  - intros Hnot.
    assert (Hin : embed_inputs texts = VArr [texts]).
    { destruct texts; try reflexivity. now elim (Hnot l). }
    split; [exact Hin|]. rewrite Hin in H.
    destruct (embed_batch_aligned _ _ _ _ H) as (Hlen & _).
    now rewrite coerce_single_array in Hlen.
  - intros ->. exact Hrun.
Qed.

Lemma embed_returns_first_result_witness :
  let w := start (Some (model_with (Some (keyed_data "m" (VNum (Fin 2)))))) 100
             [ok_reply "two vectors"] in
  let first := {| vec := vector_of [1; 1]; tokens := 2 |} in
  let second := {| vec := vector_of [2; 2]; tokens := 2 |} in
  snd (embed_batch [VArr [VStr "hello"; VStr "world"]] w) = Ret [first; second]
  /\ snd (embed (VArr [VStr "hello"; VStr "world"]) w) = Ret (Item first)
  /\ snd (embed (VArr []) w) = Ret (VecOnly []).
Proof.
  intros w first second.
  pose (texts := VArr [VStr "hello"; VStr "world"]).
  assert (Hrun : embed_batch [embed_inputs texts] w
                 = (fst (embed_batch [embed_inputs texts] w), Ret [first; second]))
    by (vm_compute; reflexivity).
  destruct (embed_returns_first_result texts w _ _ Hrun) as (H1 & _).
  assert (Hnone : embed_batch [embed_inputs (VArr [])] w = (w, Ret []))
    by (vm_compute; reflexivity).
  destruct (embed_returns_first_result (VArr []) w _ _ Hnone) as (_ & _ & _ & H4).
  split; [vm_compute; reflexivity|]. split.
  - fold texts. now rewrite H1.
  - now rewrite (H4 eq_refl).
Defined.

(** ** Catalog keys *)

Lemma trimEnd_idempotent (s : string) : trimEnd (trimEnd s) = trimEnd s.
Proof.
  induction s as [|c rest IH]; cbn [trimEnd]; [reflexivity|].
  destruct (trimEnd rest) as [|a kept] eqn:E.
  - destruct (is_ws c) eqn:W; cbn [trimEnd]; [reflexivity | now rewrite W].
  - cbn [trimEnd]. cbn [trimEnd] in IH. now rewrite IH.
Qed.

Lemma trimStart_no_leading_ws (s : string) : no_leading_ws (trimStart s).
Proof.
  induction s as [|c rest IH]; cbn; [exact I|].
  destruct (is_ws c) eqn:W; [exact IH | exact W].
Qed.

Lemma trimStart_fixed (s : string) : no_leading_ws s -> trimStart s = s.
Proof. destruct s as [|c rest]; cbn; [reflexivity|]. now intros ->. Qed.

Lemma trimEnd_no_leading_ws (s : string) : no_leading_ws s -> no_leading_ws (trimEnd s).
Proof.
  destruct s as [|c rest]; cbn; [exact id|]. intros W.
  destruct (trimEnd rest); [now rewrite W | exact W].
Qed.

Lemma trim_idempotent (s : string) : trim (trim s) = trim s.
Proof.
  unfold trim.
  rewrite (trimStart_fixed (trimEnd (trimStart s))).
  - apply trimEnd_idempotent.
  - apply trimEnd_no_leading_ws, trimStart_no_leading_ws.
Qed.

Lemma In_insert_index (n m : N) (l : list N) :
  In m (insert_index n l) -> m = n \/ In m l.
Proof.
  induction l as [|x l IH]; cbn.
  - intros [H | []]. now left.
  - destruct (n <=? x)%N; cbn.
    + intros [H | H]; [now left | now right].
    + intros [H | H]; [right; now left|]. destruct (IH H); [now left | right; now right].
Qed.

Lemma In_sort_indices (m : N) (l : list N) : In m (sort_indices l) -> In m l.
Proof.
  induction l as [|x l IH]; cbn; [exact id|].
  intros H. apply In_insert_index in H. destruct H as [-> | H]; [now left | right; auto].
Qed.

Lemma array_index_canonical (k : string) (n : N) :
  array_index k = Some n -> NilZero.string_of_uint (N.to_uint n) = k.
Proof.
  unfold array_index. destruct (NilEmpty.uint_of_string k) as [u|]; [|discriminate].
  destruct (_ && _)%bool eqn:E; [|discriminate]. intros [= <-].
  apply andb_prop in E. now apply String.eqb_eq.
Qed.

(** Every key that [Object.keys] lists is a key of the record. *)
Lemma Object_keys_In (r : Catalog) (k : string) :
  In k (Object_keys r) -> In k (map fst r).
Proof.
  unfold Object_keys. intros H. apply in_app_or in H. destruct H as [H | H].
  - apply in_map_iff in H. destruct H as (n & <- & H).
    apply In_sort_indices in H. unfold index_keys in H.
    apply in_flat_map in H. destruct H as (kv & Hkv & H).
    destruct (array_index (fst kv)) as [n'|] eqn:E; [|contradiction].
    destruct H as [<- | []]. rewrite (array_index_canonical _ _ E). now apply in_map.
  - unfold name_keys in H. apply in_flat_map in H. destruct H as (kv & Hkv & H).
    destruct (array_index (fst kv)); [contradiction|].
    destruct H as [<- | []]. now apply in_map.
Qed.

Lemma own_set_keys (r : Catalog) (k : string) (v : ProviderModelConfig) (k' : string) :
  In k' (map fst (own_set r k v)) -> k' = k \/ In k' (map fst r).
Proof.
  induction r as [|[k0 v0] r IH]; cbn.
  - intros [H | []]. now left.
  - destruct (String.eqb k k0); cbn.
    + intros [H | H]; [now left | right; now right].
    + intros [H | H]; [right; now left|]. destruct (IH H); [now left | right; now right].
Qed.

Lemma record_set_keys (r : Catalog) (k : string) (v : ProviderModelConfig) (k' : string) :
  In k' (map fst (record_set r k v)) -> k' = k \/ In k' (map fst r).
Proof.
  unfold record_set. destruct (String.eqb k "__proto__"); [now right | apply own_set_keys].
Qed.

(** The identifiers [listModels] stores are trimmed and not empty. *)
Lemma catalog_of_keys (s : LmStudioSettings) (data : JsVal) (k : string) :
  In k (map fst (catalog_of s data)) -> trim k = k /\ k <> "".
Proof.
  unfold catalog_of.
  assert (Hgen : forall listed acc,
             (forall k, In k (map fst acc) -> trim k = k /\ k <> "") ->
             forall k, In k (map fst (fold_left (add_model s) listed acc)) ->
                       trim k = k /\ k <> "").
  { induction listed as [|m listed IH]; intros acc Hacc k0; cbn [fold_left]; [apply Hacc|].
    apply IH. intros k1. unfold add_model.
    destruct (String.eqb_spec (trim (String_of (prop m "id" ?? VStr ""))) "") as [|Hne];
      [apply Hacc|].
    intros H. apply record_set_keys in H. destruct H as [-> | H]; [|now apply Hacc].
    split; [apply trim_idempotent | exact Hne]. }
  apply Hgen. intros k0 [].
Qed.

Lemma first_key_of_catalog (s : LmStudioSettings) (data : JsVal) (k : string) (rest : list string) :
  Object_keys (catalog_of s data) = k :: rest -> trim k = k /\ String.eqb k "" = false.
Proof.
  intros H.
  destruct (catalog_of_keys s data k) as (Ht & Hne).
  { apply Object_keys_In. rewrite H. now left. }
  split; [exact Ht|]. now apply String.eqb_neq.
Qed.

(** ** Writes to the model object *)

Lemma update_data_run {P : Platform} (f : ModelData -> ModelData) (w : World P) :
  update_data f w = (with_data f w, Ret tt).
Proof.
  unfold with_data, update_data.
  destruct (model (this w)) as [m|]; [|reflexivity].
  now destruct (m_data m).
Qed.

Lemma debounce_save_run {P : Platform} (w : World P) :
  debounce_save w = (saved w, Ret tt).
Proof.
  unfold saved, debounce_save.
  destruct (model (this w)) as [m|]; [|reflexivity].
  now destruct (m_debounce_save m).
Qed.

Lemma with_data_model_data {P : Platform} (f : ModelData -> ModelData) (w : World P) :
  model_data (with_data f w) = option_map f (model_data w).
Proof.
  unfold with_data, update_data, model_data.
  destruct (model (this w)) as [m|] eqn:Hm; cbn; [|now rewrite Hm].
  destruct (m_data m) eqn:Hd; cbn; [reflexivity | now rewrite Hm, Hd].
Qed.

Lemma with_data_frame {P : Platform} (f : ModelData -> ModelData) (w : World P) :
  settings (with_data f w) = settings w
  /\ cachedModels (with_data f w) = cachedModels w
  /\ lastFetchedAt (with_data f w) = lastFetchedAt w
  /\ trace (with_data f w) = trace w.
Proof.
  unfold with_data, update_data.
  destruct (model (this w)) as [m|]; [|now repeat split].
  destruct (m_data m); now repeat split.
Qed.

Lemma saved_frame {P : Platform} (w : World P) :
  settings (saved w) = settings w
  /\ cachedModels (saved w) = cachedModels w
  /\ lastFetchedAt (saved w) = lastFetchedAt w
  /\ this (saved w) = this w
  /\ requests (saved w) = requests w.
Proof.
  unfold saved, debounce_save.
  destruct (model (this w)) as [m|]; [|now repeat split].
  destruct (m_debounce_save m); [|now repeat split].
  cbn. repeat split. unfold requests. cbn. rewrite flat_map_app. cbn. apply app_nil_r.
Qed.

Lemma get_models_run {P : Platform} (arg : JsVal) (w w1 : World P) (models : Catalog) :
  listModels (coerceRefreshArg arg) w = (w1, Ret models) ->
  get_models arg w
  = (with_data (fun d => if provider_models_empty d then set_provider_models models d else d) w1,
     Ret models).
Proof.
  intros H. unfold get_models.
  rewrite (bind_Ret _ _ _ _ _ H), (bind_Ret _ _ _ _ _ (update_data_run _ _)).
  reflexivity.
Qed.

(** ** Default model *)

Lemma configured_key_none {P : Platform} (w : World P) :
  no_key_configured w = true -> configured_key w = "".
Proof.
  unfold no_key_configured, configured_key, coalesce. intros H.
  repeat (apply andb_prop in H; destruct H as [H ?]).
  repeat match goal with
         | E : nullish _ = true |- _ => rewrite E; clear E
         end.
  reflexivity.
Qed.

(** C5: when none of the places that can hold a model key is set,
    [ensureModelKey] asks the server for the model list whatever the state of
    the cache, installs the answer as the cached catalog, and then either
    fails with [NoModelsAvailable] when the catalog has no entry, or returns
    the first key of the catalog and stores it in [model_key] and [model] of
    the model's data object. *)
Theorem ensureModelKey_adopts_first_model {P : Platform}
    (w wf : World P) (data : JsVal) :
  no_key_configured w = true ->
  fetchJson "/v1/models" no_init w = (wf, Ret data) ->
  let cat := catalog_of (settings w) data in
  exists w',
    requests w' = requests w ++ [models_request (settings w)]
    /\ cachedModels w' = cat
    /\ match Object_keys cat with
       | [] => ensureModelKey w = (w', Throw NoModelsAvailable)
       | k :: _ =>
           ensureModelKey w = (w', Ret k)
           /\ forall d,
                model_data w = Some d ->
                exists d',
                  model_data w' = Some d'
                  /\ d_model_key d' = VStr k /\ d_model d' = VStr k
                  /\ d' = set_model_keys k
                            (if provider_models_empty d then set_provider_models cat d else d)
       end.
Proof.
  intros Hnone Hf cat.
  destruct (fetchJson_effect _ _ _ _ _ Hf) as (Hs & Hc & Hl & Ht & Htr & _).
  assert (Hreq : requests wf = requests w ++ [models_request (settings w)])
    by (now apply requests_emit_fetched).
  assert (Hlist : listModels true w
                  = (set_catalog wf cat (Date_now P (env w)), Ret cat)).
  { unfold cat. rewrite <- Hs. now apply listModels_refreshed. }
  unfold ensureModelKey. rewrite (configured_key_none _ Hnone). cbn [String.eqb negb].
  rewrite (bind_Ret _ _ _ _ _ (get_models_run (VBool true) _ _ _ Hlist)).
  set (seed := fun d => if provider_models_empty d then set_provider_models cat d else d).
  set (w1 := with_data seed (set_catalog wf cat (Date_now P (env w)))).
  assert (Hcat : cachedModels w1 = cat).
  { unfold w1. now destruct (with_data_frame seed (set_catalog wf cat (Date_now P (env w))))
      as (_ & -> & _). }
  assert (Hreq1 : requests w1 = requests w ++ [models_request (settings w)]).
  { unfold requests, w1.
    destruct (with_data_frame seed (set_catalog wf cat (Date_now P (env w))))
      as (_ & _ & _ & ->). exact Hreq. }
  assert (Hdata : model_data w1 = option_map seed (model_data w)).
  { unfold w1. rewrite with_data_model_data. unfold model_data. cbn [this set_catalog].
    now rewrite Ht. }
  unfold first_catalog_key. rewrite Hcat.
  destruct (Object_keys cat) as [|k rest] eqn:Hkeys.
  - exists w1. cbn [String.eqb]. now repeat split.
  - destruct (first_key_of_catalog _ _ _ _ Hkeys) as (Htrim & Hne).
    rewrite Htrim, Hne.
    destruct (model_data w1) as [d1|] eqn:Hd1.
    + rewrite (bind_Ret _ _ _ _ _ (update_data_run _ _)),
              (bind_Ret _ _ _ _ _ (debounce_save_run _)).
      exists (saved (with_data (set_model_keys k) w1)).
      destruct (saved_frame (with_data (set_model_keys k) w1)) as (_ & Hc' & _ & Ht' & Hr').
      destruct (with_data_frame (set_model_keys k) w1) as (_ & Hc'' & _ & Htr'').
      split; [rewrite Hr'; unfold requests; rewrite Htr''; exact Hreq1|].
      split; [now rewrite Hc', Hc''|].
      split; [reflexivity|].
      intros d Hd. rewrite Hd in Hdata. cbn in Hdata. injection Hdata as ->.
      exists (set_model_keys k (seed d)). repeat split.
      unfold model_data. rewrite Ht'. fold (model_data (with_data (set_model_keys k) w1)).
      now rewrite with_data_model_data, Hd1.
    + exists w1. split; [exact Hreq1|]. split; [exact Hcat|]. split; [reflexivity|].
      intros d Hd. rewrite Hd in Hdata. discriminate.
Qed.

Lemma ensureModelKey_adopts_first_model_witness :
  let listed := start (Some (model_with (Some blank_data))) 100 [ok_reply "two models"] in
  let none := start (Some (model_with (Some blank_data))) 100 [ok_reply "no models"] in
  snd (ensureModelKey listed) = Ret "nomic-embed"
  /\ option_map d_model_key (model_data (fst (ensureModelKey listed))) = Some (VStr "nomic-embed")
  /\ option_map d_model (model_data (fst (ensureModelKey listed))) = Some (VStr "nomic-embed")
  /\ snd (ensureModelKey none) = Throw NoModelsAvailable.
Proof.
  intros listed none.
  pose (two := VObj [("data", VArr [model_item (VStr "nomic-embed");
                                    model_item (VStr " bge-small ")])]).
  pose proof (ensureModelKey_adopts_first_model listed
                (fst (fetchJson "/v1/models" no_init listed)) two
                eq_refl ltac:(vm_compute; reflexivity)) as H.
  cbv zeta in H.
  assert (Hk : Object_keys (catalog_of (settings listed) two) = ["nomic-embed"; "bge-small"])
    by (vm_compute; reflexivity).
  rewrite Hk in H. destruct H as (w' & _ & _ & Hrun & Hdata).
  destruct (Hdata blank_data eq_refl) as (d' & Hd' & Hkey & Hmodel & _).
  pose proof (ensureModelKey_adopts_first_model none
                (fst (fetchJson "/v1/models" no_init none)) (VObj [("data", VArr [])])
                eq_refl ltac:(vm_compute; reflexivity)) as H0.
  cbv zeta in H0.
  assert (Hk0 : Object_keys (catalog_of (settings none) (VObj [("data", VArr [])])) = [])
    by (vm_compute; reflexivity).
  rewrite Hk0 in H0. destruct H0 as (w0 & _ & _ & Hrun0).
  rewrite Hrun, Hrun0. cbn [fst snd]. rewrite Hd'. cbn [option_map].
  rewrite Hkey, Hmodel. now repeat split.
Defined.

(** ** Calls that leave the batch sizes alone *)

Lemma steady_refl {P : Platform} (w : World P) : steady w w.
Proof. split; [reflexivity|]. exists []. now rewrite app_nil_r. Qed.

Lemma steady_trans {P : Platform} (a b c : World P) : steady a b -> steady b c -> steady a c.
Proof.
  intros (Hs1 & t1 & Ht1) (Hs2 & t2 & Ht2). split; [congruence|].
  exists (t1 ++ t2). now rewrite Ht2, Ht1, app_assoc.
Qed.

Lemma keeps_ret {P : Platform} {A : Type} (a : A) : keeps_steady (@ret P A a).
Proof. intros w w' r [= <- <-]. apply steady_refl. Qed.

Lemma keeps_lift {P : Platform} {A : Type} (o : Outcome A) : keeps_steady (@lift P A o).
Proof. intros w w' r [= <- <-]. apply steady_refl. Qed.

Lemma keeps_bind {P : Platform} {A B : Type} (m : M P A) (k : A -> M P B) :
  keeps_steady m -> (forall a, keeps_steady (k a)) -> keeps_steady (bind m k).
Proof.
  intros Hm Hk w w' r. unfold bind.
  destruct (m w) as [w1 [a | e |]] eqn:E; intros H.
  - exact (steady_trans _ _ _ (Hm _ _ _ E) (Hk a _ _ _ H)).
  - injection H as <- <-. exact (Hm _ _ _ E).
  - injection H as <- <-. exact (Hm _ _ _ E).
Qed.

Lemma keeps_try_catch {P : Platform} {A : Type} (body : M P A) (handler : Err -> M P A) :
  keeps_steady body -> (forall e, keeps_steady (handler e)) ->
  keeps_steady (try_catch body handler).
Proof.
  intros Hb Hh w w' r. unfold try_catch.
  destruct (body w) as [w1 [a | e |]] eqn:E; intros H.
  - injection H as <- <-. exact (Hb _ _ _ E).
  - exact (steady_trans _ _ _ (Hb _ _ _ E) (Hh e _ _ _ H)).
  - injection H as <- <-. exact (Hb _ _ _ E).
Qed.

Lemma keeps_fetchJson {P : Platform} (urlPath : string) (i : RequestInit) :
  keeps_steady (@fetchJson P urlPath i).
Proof.
  intros w w' r H. destruct (fetchJson_effect _ _ _ _ _ H) as (_ & _ & _ & Ht & Htr & _).
  split; [unfold sizes, model_data; now rewrite Ht | eauto].
Qed.

Lemma keeps_update_data {P : Platform} (f : ModelData -> ModelData) :
  (forall d, d_batch_size (f d) = d_batch_size d /\ d_max_batch_size (f d) = d_max_batch_size d) ->
  keeps_steady (@update_data P f).
Proof.
  intros Hf w w' r H. rewrite update_data_run in H. injection H as <- <-.
  destruct (with_data_frame f w) as (_ & _ & _ & Htr).
  split; [|exists []; now rewrite app_nil_r].
  unfold sizes. rewrite with_data_model_data.
  destruct (model_data w) as [d|]; cbn; [|reflexivity].
  destruct (Hf d) as (-> & ->). reflexivity.
Qed.

Lemma keeps_debounce_save {P : Platform} : keeps_steady (@debounce_save P).
Proof.
  intros w w' r. unfold debounce_save.
  destruct (model (this w)) as [m|] eqn:Hm.
  - destruct (m_debounce_save m); intros [= <- <-]; [|apply steady_refl].
    split; [reflexivity | now exists [SaveRequested]].
  - intros [= <- <-]. apply steady_refl.
Qed.

Lemma keeps_log {P : Platform} (ev : Event) : keeps_steady (@log P ev).
Proof. intros w w' r [= <- <-]. split; [reflexivity | now exists [ev]]. Qed.

Lemma keeps_listModels {P : Platform} (refresh : bool) : keeps_steady (@listModels P refresh).
Proof.
  intros w w' r. unfold listModels.
  destruct (cache_fresh refresh w); [intros [= <- <-]; apply steady_refl|].
  intros H. refine (keeps_bind _ _ _ _ _ _ _ H); [apply keeps_fetchJson|].
  intros data v v' o [= <- <-]. split; [reflexivity|]. exists []. cbn. now rewrite app_nil_r.
Qed.

Lemma keeps_get_models {P : Platform} (arg : JsVal) : keeps_steady (@get_models P arg).
Proof.
  unfold get_models. apply keeps_bind; [apply keeps_listModels|]. intros models.
  apply keeps_bind; [|intros; apply keeps_ret].
  apply keeps_update_data. intros d. now destruct (provider_models_empty d).
Qed.

Lemma keeps_ensureModelKey {P : Platform} : keeps_steady (@ensureModelKey P).
Proof.
  intros w w' r. unfold ensureModelKey.
  destruct (negb _); [intros [= <- <-]; apply steady_refl|].
  intros H. refine (keeps_bind _ _ _ _ _ _ _ H); [apply keeps_get_models|].
  intros _ v v' o.
  destruct (String.eqb _ ""); [intros [= <- <-]; apply steady_refl|].
  destruct (model_data v); [|intros [= <- <-]; apply steady_refl].
  intros H'. refine (keeps_bind _ _ _ _ _ _ _ H'); [now apply keeps_update_data|].
  intros _. apply keeps_bind; [apply keeps_debounce_save | intros; apply keeps_ret].
Qed.

Lemma keeps_embedOne {P : Platform} (k one : string) : keeps_steady (@embedOne P k one).
Proof.
  unfold embedOne. apply keeps_bind; [apply keeps_fetchJson|]. intros data.
  apply keeps_bind; [apply keeps_lift|]. intros [|v vs]; [|apply keeps_ret].
  intros w w' r [= <- <-]. apply steady_refl.
Qed.

Lemma keeps_embed_each {P : Platform} (k : string) (group : list string) :
  forall recovered, keeps_steady (@embed_each P k group recovered).
Proof.
  induction group as [|one rest IH]; intros recovered; cbn [embed_each].
  - apply keeps_ret.
  - apply keeps_bind; [apply keeps_embedOne | intros v; apply IH].
Qed.

Lemma keeps_embed_group {P : Platform} (k : string) (group : list string) (vectors : list Vec) :
  keeps_steady (@embed_group P k group vectors).
Proof.
  unfold embed_group.
  assert (Hrec : keeps_steady (bind (@embed_each P k group [])
                                 (fun recovered => ret (vectors ++ recovered)))).
  { apply keeps_bind; [apply keeps_embed_each | intros; apply keeps_ret]. }
  apply keeps_try_catch; [|intros _; exact Hrec].
  apply keeps_bind.
  - unfold batch_request. apply keeps_bind; [apply keeps_fetchJson | intros; apply keeps_lift].
  - intros embeddings. destruct (negb _); [|apply keeps_ret].
    apply keeps_bind; [apply keeps_log | intros _; exact Hrec].
Qed.

Lemma keeps_infer_dims {P : Platform} (vectors : list Vec) : keeps_steady (@infer_dims P vectors).
Proof.
  intros w w' r. unfold infer_dims.
  destruct vectors as [|v0 vs]; [intros [= <- <-]; apply steady_refl|].
  destruct (model_data w) as [d|]; [|intros [= <- <-]; apply steady_refl].
  destruct (negb _); [|intros [= <- <-]; apply steady_refl].
  intros H. refine (keeps_bind _ _ _ _ _ _ _ H);
    [now apply keeps_update_data | intros _; apply keeps_debounce_save].
Qed.

Lemma keeps_embed_groups {P : Platform} (k : string) (groups : list (list string)) :
  forall vectors, keeps_steady (@embed_groups P k groups vectors).
Proof.
  induction groups as [|g rest IH]; intros vectors; cbn [embed_groups].
  - apply keeps_ret.
  - apply keeps_bind; [apply keeps_embed_group|]. intros vectors'.
    apply keeps_bind; [apply keeps_infer_dims | intros _; apply IH].
Qed.

(** Once the batch size is resolved, the rest of [embed_batch] leaves the
    size fields as they are. *)
Lemma embed_batch_after_sizes {P : Platform} (args : list JsVal) (w w1 w' : World P)
    (size : Num) (r : Outcome (list EmbeddingResult)) :
  coerceBatchInputsFromArgs args <> [] ->
  ensureBatchSize w = (w1, Ret size) ->
  embed_batch args w = (w', r) ->
  steady w1 w'.
Proof.
  intros Hargs Hsize. unfold embed_batch.
  destruct (coerceBatchInputsFromArgs args) as [|x coerced]; [now elim Hargs|].
  cbn [List.length Nat.eqb]. rewrite (bind_Ret _ _ _ _ _ Hsize).
  intros H. refine (keeps_bind _ _ _ _ _ _ _ H); [apply keeps_ensureModelKey|].
  intros k. cbn [normalizeBatchInputs map List.length Nat.eqb].
  destruct (chunk _ size) as [groups|]; [|intros v v' o [= <- <-]; apply steady_refl].
  apply keeps_bind; [apply keeps_embed_groups|].
  intros vectors. apply keeps_bind; [|intros; apply keeps_ret].
  intros v v' o Hp. destruct (padToLength_effect _ _ _ _ _ Hp) as (-> & _).
  apply steady_refl.
Qed.

(** ** The batch-size getter writes to the model *)

Lemma not_a_size_false (v : JsVal) :
  not_a_size v = false <-> exists z, v = VNum (Fin z) /\ 0 < z.
Proof.
  unfold not_a_size. split.
  - destruct v as [ | | b | [ | | | z] | s | l | f]; cbn; try discriminate.
    destruct (Z.leb_spec z 0); [discriminate|]. intros _. now exists z.
  - intros (z & -> & Hz). cbn. now apply Z.leb_gt.
Qed.

(** C10 (as amended): when the model has a data object, reading
    [batch_size] returns the effective batch size and writes it into each of
    [batch_size] and [max_batch_size] that is missing, not a finite number, or
    not positive, leaving a finite positive value and every other field as
    they were, and it calls the save hook when the model has one; a call of
    [embed_batch] that has at least one input item starts with that same
    read, and nothing it does afterwards changes the two fields. *)
Theorem batch_size_read_writes_model {P : Platform}
    (w : World P) (m : Model) (d : ModelData) :
  model (this w) = Some m ->
  m_data m = Some d ->
  let valid := effective_batch_size w in
  exists w1 d1,
    batch_size w = (w1, Ret valid)
    /\ model_data w1 = Some d1
    /\ d_batch_size d1
       = (if not_a_size (d_batch_size d) then VNum valid else d_batch_size d)
    /\ d_max_batch_size d1
       = (if not_a_size (d_max_batch_size d) then VNum valid else d_max_batch_size d)
    /\ (d_model_key d1, d_model d1, d_model_id d1, d_id d1, d_dims d1, d_provider_models d1)
       = (d_model_key d, d_model d, d_model_id d, d_id d, d_dims d, d_provider_models d)
    /\ trace w1 = trace w ++ (if m_debounce_save m then [SaveRequested] else [])
    /\ (forall args w' r,
           coerceBatchInputsFromArgs args <> [] ->
           embed_batch args w = (w', r) ->
           sizes w' = Some (d_batch_size d1, d_max_batch_size d1)
           /\ exists tail, trace w' = trace w1 ++ tail).
Proof.
  intros Hm Hd valid.
  assert (Hrun : exists w1 d1,
             ensureBatchSize w = (w1, Ret valid)
             /\ model_data w1 = Some d1
             /\ d_batch_size d1
                = (if not_a_size (d_batch_size d) then VNum valid else d_batch_size d)
             /\ d_max_batch_size d1
                = (if not_a_size (d_max_batch_size d) then VNum valid else d_max_batch_size d)
             /\ (d_model_key d1, d_model d1, d_model_id d1, d_id d1, d_dims d1,
                 d_provider_models d1)
                = (d_model_key d, d_model d, d_model_id d, d_id d, d_dims d,
                   d_provider_models d)
             /\ trace w1 = trace w ++ (if m_debounce_save m then [SaveRequested] else [])).
  { destruct w as [s c l [mo st] e tr]. cbn in Hm. subst mo.
    destruct m as [md mk mi hook]. cbn in Hd. subst md.
    unfold ensureBatchSize, model_data, bind, update_data, debounce_save, ret.
    cbn -[effective_batch_size not_a_size].
    fold valid. clearbody valid.
    destruct hook; cbn -[not_a_size];
      (eexists; eexists; split; [reflexivity|]);
      cbn -[not_a_size]; (split; [reflexivity|]);
      destruct (not_a_size (d_batch_size d)); cbn -[not_a_size];
      destruct (not_a_size (d_max_batch_size d)); cbn -[not_a_size];
      rewrite ?app_nil_r; now repeat split. }
  destruct Hrun as (w1 & d1 & Hrun & Hd1 & Hb & Hmx & Hrest & Htr).
  exists w1, d1. unfold batch_size.
  split; [exact Hrun|]. split; [exact Hd1|]. split; [exact Hb|]. split; [exact Hmx|].
  split; [exact Hrest|]. split; [exact Htr|].
  intros args w' r Hargs Hbatch.
  destruct (embed_batch_after_sizes _ _ _ _ _ _ Hargs Hrun Hbatch) as (Hs & Htail).
  split; [|exact Htail]. rewrite Hs. unfold sizes. now rewrite Hd1.
Qed.

Lemma batch_size_read_writes_model_witness :
  let d := keyed_data "m" (VStr "32") in
  let m := model_with (Some d) in
  let w := start (Some m) 100 [ok_reply "one vector"] in
  snd (batch_size w) = Ret (Fin 32)
  /\ sizes (fst (batch_size w)) = Some (VNum (Fin 32), VNum (Fin 32))
  /\ trace (fst (batch_size w)) = [SaveRequested]
  /\ sizes (fst (embed_batch [VArr [VStr "hello"]] w)) = Some (VNum (Fin 32), VNum (Fin 32)).
Proof.
  intros d m w.
  destruct (batch_size_read_writes_model w m d eq_refl eq_refl)
    as (w1 & d1 & Hrun & Hd1 & Hb & Hmx & _ & Htr & Hbatch).
  destruct (Hbatch [VArr [VStr "hello"]] (fst (embed_batch [VArr [VStr "hello"]] w))
              (snd (embed_batch [VArr [VStr "hello"]] w)) ltac:(discriminate)
              (surjective_pairing _)) as (Hs & _).
  rewrite Hrun, Hs. cbn [fst snd]. unfold sizes. rewrite Hd1. cbn [option_map].
  rewrite Hb, Hmx, Htr. repeat split; vm_compute; reflexivity.
Defined.

(** C10 (as stated) fails for a call without input items: [embed_batch]
    returns before it resolves the batch size, so a missing [batch_size] stays
    missing and the save hook is not called. *)
Lemma batch_size_untouched_counterexample :
  let w := start (Some (model_with (Some blank_data))) 100 [] in
  embed_batch [VArr []] w = (w, Ret [])
  /\ sizes w = Some (VUndefined, VUndefined)
  /\ sizes (fst (embed_batch [VArr []] w)) = Some (VUndefined, VUndefined)
  /\ saves (fst (embed_batch [VArr []] w)) = 0%nat
  /\ sizes (fst (batch_size w)) = Some (VNum (Fin 16), VNum (Fin 16))
  /\ saves (fst (batch_size w)) = 1%nat.
Proof. cbv zeta. repeat split. Qed.

(** ** Runs against a server that answers every single text *)

Section Keyed.
Context {P : Platform} (V : string -> Vec).
Hypothesis single : forall k one (v : World P), exists v', embedOne k one v = (v', Ret (V one)).
Hypothesis positional :
  forall k group (v v' : World P) embeddings,
    batch_request k group v = (v', Ret embeddings) ->
    List.length embeddings = List.length group ->
    embeddings = map V group.

Lemma embed_each_keyed (k : string) (group : list string) :
  forall recovered (w : World P),
    exists w', embed_each k group recovered w = (w', Ret (recovered ++ map V group)).
Proof.
  induction group as [|one rest IH]; intros recovered w; cbn [embed_each map].
  - exists w. now rewrite app_nil_r.
  - destruct (single k one w) as (w1 & H1). rewrite (bind_Ret _ _ _ _ _ H1).
    destruct (IH (recovered ++ [V one]) w1) as (w' & H). exists w'.
    rewrite H. now rewrite <- app_assoc.
Qed.

Lemma embed_group_keyed (k : string) (group : list string) (vectors : list Vec) (w : World P) :
  exists w', embed_group k group vectors w = (w', Ret (vectors ++ map V group)).
Proof.
  assert (Hrec : forall v : World P, exists v',
             bind (embed_each k group []) (fun recovered => ret (vectors ++ recovered)) v
             = (v', Ret (vectors ++ map V group))).
  { intros v. destruct (embed_each_keyed k group [] v) as (v' & H). exists v'.
    now rewrite (bind_Ret _ _ _ _ _ H). }
  unfold embed_group, try_catch.
  destruct (batch_request k group w) as [w1 [embeddings | e |]] eqn:Hb.
  - rewrite (bind_Ret _ _ _ _ _ Hb).
    destruct (Nat.eqb_spec (List.length embeddings) (List.length group)) as [Heq | Hne];
      cbn [negb].
    + exists w1. unfold ret. rewrite (positional _ _ _ _ _ Hb Heq).
      rewrite <- (length_map V group) at 1. now rewrite firstn_all.
    + unfold log. unfold bind at 1.
      destruct (Hrec (emit w1 (Logged (List.length group) (List.length embeddings))))
        as (v' & H).
      exists v'. now rewrite H.
  - rewrite (bind_Throw _ _ _ _ _ Hb). apply Hrec.
  - destruct (batch_request_effect _ _ _ _ _ Hb) as (_ & _ & Hd). now elim Hd.
Qed.

Lemma infer_dims_returns (vectors : list Vec) (w : World P) :
  exists w', infer_dims vectors w = (w', Ret tt).
Proof.
  unfold infer_dims. destruct vectors as [|v0 vs]; [eauto|].
  destruct (model_data w); [|eauto]. destruct (negb _); [|eauto].
  rewrite (bind_Ret _ _ _ _ _ (update_data_run _ _)), debounce_save_run. eauto.
Qed.

Lemma embed_groups_keyed (k : string) (groups : list (list string)) :
  forall vectors (w : World P),
    exists w', embed_groups k groups vectors w
               = (w', Ret (vectors ++ map V (List.concat groups))).
Proof.
  induction groups as [|g rest IH]; intros vectors w; cbn [embed_groups List.concat].
  - exists w. cbn. now rewrite app_nil_r.
  - destruct (embed_group_keyed k g vectors w) as (w1 & H1).
    rewrite (bind_Ret _ _ _ _ _ H1).
    destruct (infer_dims_returns (vectors ++ map V g) w1) as (w2 & H2).
    rewrite (bind_Ret _ _ _ _ _ H2).
    destruct (IH (vectors ++ map V g) w2) as (w' & H). exists w'.
    rewrite H, map_app. now rewrite app_assoc.
Qed.

End Keyed.

Lemma with_tokens_keyed (V : string -> Vec) (texts : list string) :
  forall before,
    with_tokens (before ++ texts) (List.length before) (map V texts)
    = map (keyed_result V) texts.
Proof.
  induction texts as [|t rest IH]; intros before; cbn [map with_tokens]; [reflexivity|].
  rewrite nth_middle. unfold keyed_result at 1. f_equal.
  replace (S (List.length before)) with (List.length (before ++ [t]))
    by (rewrite length_app; cbn; lia).
  replace (before ++ t :: rest) with ((before ++ [t]) ++ rest)
    by (now rewrite <- app_assoc).
  apply IH.
Qed.

Lemma ensureModelKey_configured {P : Platform} (w : World P) :
  configured_key w <> "" -> ensureModelKey w = (w, Ret (configured_key w)).
Proof.
  intros H. unfold ensureModelKey.
  now destruct (String.eqb_spec (configured_key w) "").
Qed.

Lemma ensureBatchSize_keeps_key {P : Platform} (w w1 : World P) (size : Num) :
  ensureBatchSize w = (w1, Ret size) -> configured_key w1 = configured_key w.
Proof.
  unfold ensureBatchSize, model_data, bind, update_data, debounce_save, ret.
  destruct w as [s c l [[[[d|] mk mi hook]|] st] e tr];
    cbn -[effective_batch_size not_a_size].
  - destruct hook; intros [= <- _];
      unfold configured_key, data_prop, model_prop, model_data;
      cbn -[effective_batch_size not_a_size];
      destruct (not_a_size (d_batch_size d)); cbn -[effective_batch_size not_a_size];
      destruct (not_a_size (d_max_batch_size d)); reflexivity.
  - now intros [= <- _].
  - now intros [= <- _].
Qed.

Lemma chunk_positive {T : Type} (items : list T) (z : Z) :
  0 < z -> exists groups, chunk items (Fin z) = Some groups.
Proof.
  intros Hz. unfold chunk. destruct items; [eauto|].
  destruct (Z.ltb_spec 0 z); [eauto | lia].
Qed.

(** With a configured model key and a positive integer batch size,
    [embed_batch] returns whenever every single-text request is answered:
    the vector of each normalized text, in input order. *)
Lemma embed_batch_keyed {P : Platform} (V : string -> Vec) (items : list JsVal)
    (w : World P) (z : Z) :
  (forall k one (v : World P), exists v', embedOne k one v = (v', Ret (V one))) ->
  (forall k group (v v' : World P) embeddings,
      batch_request k group v = (v', Ret embeddings) ->
      List.length embeddings = List.length group ->
      embeddings = map V group) ->
  configured_key w <> "" ->
  effective_batch_size w = Fin z ->
  0 < z ->
  exists w',
    embed_batch [VArr items] w
    = (w', Ret (map (keyed_result V) (normalizeBatchInputs items))).
Proof.
  intros single positional Hkey Hsize Hz. unfold embed_batch.
  rewrite coerce_single_array.
  destruct items as [|x items]; [now exists w|].
  cbn [List.length Nat.eqb].
  destruct (ensureBatchSize_Ret w) as (wa & Hb). rewrite Hsize in Hb.
  rewrite (bind_Ret _ _ _ _ _ Hb).
  assert (Hk : ensureModelKey wa = (wa, Ret (configured_key wa))).
  { apply ensureModelKey_configured. now rewrite (ensureBatchSize_keeps_key _ _ _ Hb). }
  rewrite (bind_Ret _ _ _ _ _ Hk).
  set (normalized := normalizeBatchInputs (x :: items)).
  assert (Hn : List.length normalized = S (List.length items))
    by (unfold normalized, normalizeBatchInputs; now rewrite length_map).
  rewrite Hn. cbn [Nat.eqb].
  destruct (chunk_positive normalized z Hz) as (groups & Hch). rewrite Hch.
  destruct (embed_groups_keyed V single positional (configured_key wa) groups [] wa)
    as (w' & Hg).
  rewrite (bind_Ret _ _ _ _ _ Hg). exists w'. cbn [app].
  rewrite (chunk_partitions _ _ _ Hch) by discriminate.
  rewrite <- Hn, <- (length_map V normalized).
  rewrite (bind_Ret _ _ _ _ _ (padToLength_exact w' (map V normalized))).
  unfold ret. f_equal. f_equal.
  exact (with_tokens_keyed V normalized []).
Qed.

(** ** The length and order invariant *)

(** C1: whenever [embed_batch(items)] returns, it returns exactly one result
    per input item, in input order, whatever number of vectors the server
    sent for any group: result [i] carries the token estimate of the
    normalized item [i], and each group contributed as many vectors as it has
    texts.  And it does return, with the vector of each item at the item's
    position, when a model key is configured, the batch size is a positive
    integer and every single-text request is answered with the vector of its
    text, whatever the batch requests do (fail, miscount, or answer in
    order). *)
Theorem embed_batch_one_result_per_input {P : Platform}
    (items : list JsVal) (w : World P) :
  (forall w' rs,
      embed_batch [VArr items] w = (w', Ret rs) ->
      List.length rs = List.length items
      /\ map tokens rs = map (fun item => estimateTokens (normalizeItem item)) items
      /\ exists groups vss,
           chunk (normalizeBatchInputs items) (effective_batch_size w) = Some groups
           /\ Forall2 (fun g vs => List.length vs = List.length g) groups vss
           /\ padToLength (List.concat vss) (List.length items) w' = (w', Ret (map vec rs))
           /\ (effective_batch_size w <> NaN ->
               List.concat groups = normalizeBatchInputs items
               /\ map vec rs = List.concat vss))
  /\ (forall (V : string -> Vec) (z : Z),
         (forall k one (v : World P), exists v', embedOne k one v = (v', Ret (V one))) ->
         (forall k group (v v' : World P) embeddings,
             batch_request k group v = (v', Ret embeddings) ->
             List.length embeddings = List.length group ->
             embeddings = map V group) ->
         configured_key w <> "" ->
         effective_batch_size w = Fin z ->
         0 < z ->
         exists w',
           embed_batch [VArr items] w
           = (w', Ret (map (keyed_result V) (normalizeBatchInputs items)))).
Proof.
  split.
  - intros w' rs. apply embed_batch_returns_aligned.
  - intros V z. apply embed_batch_keyed.
Qed.

Lemma echo_single (k one : string) (v : World echo) :
  exists v', embedOne k one v = (v', Ret [VStr one]).
Proof. eexists. reflexivity. Qed.

Lemma echo_positional (k : string) (group : list string) (v v' : World echo)
    (embeddings : list Vec) :
  batch_request k group v = (v', Ret embeddings) ->
  List.length embeddings = List.length group ->
  embeddings = map (fun one => [VStr one]) group.
Proof.
  intros [= _ <-] Hlen. destruct group; [reflexivity | discriminate Hlen].
Qed.

Lemma embed_batch_one_result_per_input_witness :
  let items := [VStr "hello"; VObj [("text", VStr "world")]; VObj [("embed_input", VStr "  ")]] in
  let m := Some (model_with (Some (keyed_data "m" (VNum (Fin 2))))) in
  let w := start m 100
             [ok_reply "three vectors"; ok_reply "one vector"; ok_reply "another vector";
              error_reply 500 "busy"; ok_reply "third vector"] in
  let rs := [ {| vec := vector_of [7; 7]; tokens := 2 |};
              {| vec := vector_of [8; 8]; tokens := 2 |};
              {| vec := vector_of [9; 9]; tokens := 1 |} ] in
  snd (embed_batch [VArr items] w) = Ret rs
  /\ List.length rs = List.length items
  /\ map tokens rs = map (fun item => estimateTokens (normalizeItem item)) items
  /\ snd (embed_batch [VArr items] (echo_start m))
     = Ret [ {| vec := [VStr "hello"]; tokens := 2 |};
             {| vec := [VStr "world"]; tokens := 2 |};
             {| vec := [VStr " "]; tokens := 1 |} ].
Proof.
  intros items m w rs.
  assert (Hrun : embed_batch [VArr items] w = (fst (embed_batch [VArr items] w), Ret rs))
    by (vm_compute; reflexivity).
  destruct (embed_batch_one_result_per_input items w) as (Hany & _).
  destruct (Hany _ _ Hrun) as (H1 & H2 & _).
  destruct (embed_batch_one_result_per_input items (echo_start m)) as (_ & Hkeyed).
  destruct (Hkeyed (fun one => [VStr one]) 2 echo_single echo_positional
              ltac:(discriminate) eq_refl eq_refl) as (w' & Hecho).
  split; [vm_compute; reflexivity|]. split; [exact H1|]. split; [exact H2|].
  rewrite Hecho. reflexivity.
Defined.

(** ** Further properties of the batch loop *)

(** In the count-mismatch path the per-item loop runs inside the [try]: when
    one of its requests throws, the error is caught and the per-item loop is
    run once more for the whole group, from the state the failure left; only
    an error of this second pass leaves [embed_batch]. *)
Theorem count_mismatch_retries_once {P : Platform}
    (k : string) (group : list string) (vectors : list Vec)
    (w w1 w2 : World P) (embeddings : list Vec) (e : Err) :
  batch_request k group w = (w1, Ret embeddings) ->
  List.length embeddings <> List.length group ->
  embed_each k group [] (emit w1 (Logged (List.length group) (List.length embeddings)))
  = (w2, Throw e) ->
  embed_group k group vectors w
  = bind (embed_each k group []) (fun recovered => ret (vectors ++ recovered)) w2.
Proof.
  intros Hb Hne He. unfold embed_group, try_catch.
  rewrite (bind_Ret _ _ _ _ _ Hb).
  destruct (Nat.eqb_spec (List.length embeddings) (List.length group)) as [|_];
    [contradiction|].
  cbn [negb]. unfold log. unfold bind at 1. now rewrite (bind_Throw _ _ _ _ _ He).
Qed.

Lemma count_mismatch_retries_once_witness :
  let w := start (Some (model_with (Some (keyed_data "m" (VNum (Fin 2)))))) 100
             [ok_reply "three vectors"; error_reply 500 "busy";
              ok_reply "one vector"; ok_reply "another vector"] in
  let out := embed_group "m" ["hello"; "world"] [] w in
  snd out = Ret [vector_of [7; 7]; vector_of [8; 8]]
  /\ List.length (requests (fst out)) = 4%nat.
Proof.
  intros w out.
  pose (w1 := fst (batch_request "m" ["hello"; "world"] w)).
  pose (embeddings := [vector_of [1; 1]; vector_of [2; 2]; vector_of [3; 3]]).
  pose (w2 := fst (embed_each "m" ["hello"; "world"] [] (emit w1 (Logged 2 3)))).
  assert (Hrun : embed_group "m" ["hello"; "world"] [] w
                 = bind (embed_each "m" ["hello"; "world"] [])
                     (fun recovered => ret ([] ++ recovered)) w2).
  { apply (count_mismatch_retries_once "m" ["hello"; "world"] [] w w1 w2 embeddings
             (HttpStatusError 500 "Error" "busy")).
    - vm_compute; reflexivity.
    - cbn; lia.
    - vm_compute; reflexivity. }
  subst out. rewrite Hrun. split; vm_compute; reflexivity.
Defined.

Lemma chunk_from_bounded {T : Type} (items : list T) (size fuel : nat) :
  (0 < size)%nat ->
  forall i, Forall (fun g => (0 < List.length g <= size)%nat) (chunk_from fuel items size i).
Proof.
  intros Hsize. induction fuel as [|fuel IH]; intros i; cbn [chunk_from]; [constructor|].
  destruct (Nat.ltb_spec i (List.length items)) as [Hlt|]; [|constructor].
  constructor; [|apply IH].
  unfold slice. rewrite length_firstn, length_skipn. lia.
Qed.

(** With a positive integer batch size, [chunk] cuts the texts into
    consecutive groups, none empty and none longer than the batch size, whose
    concatenation is the input. *)
Theorem chunk_contiguous_groups {T : Type} (items : list T) (z : Z) :
  0 < z ->
  exists groups,
    chunk items (Fin z) = Some groups
    /\ List.concat groups = items
    /\ Forall (fun g => (0 < List.length g)%nat /\ Z.of_nat (List.length g) <= z) groups.
Proof.
  intros Hz. destruct (chunk_positive items z Hz) as (groups & Hch).
  exists groups. split; [exact Hch|]. split.
  - apply (chunk_partitions _ _ _ Hch). discriminate.
  - unfold chunk in Hch. destruct items as [|x items]; [injection Hch as <-; constructor|].
    destruct (Z.ltb_spec 0 z); [|lia]. injection Hch as <-.
    apply (Forall_impl _ (P := fun g => (0 < List.length g <= Z.to_nat z)%nat)).
    + intros g Hg. lia.
    + exact (chunk_from_bounded (x :: items) (Z.to_nat z) (List.length (x :: items))
               ltac:(lia) 0%nat).
Qed.

Lemma chunk_contiguous_groups_witness :
  chunk ["a"; "b"; "c"; "d"; "e"] (Fin 2) = Some [["a"; "b"]; ["c"; "d"]; ["e"]].
Proof.
  destruct (chunk_contiguous_groups ["a"; "b"; "c"; "d"; "e"] 2 eq_refl) as (groups & H & _).
  rewrite H. vm_compute in H. symmetry. exact H.
Defined.

(** ** Normalized texts *)

Lemma normalizeItem_shape (item : JsVal) :
  normalizeItem item <> ""
  /\ (normalizeItem item = " " \/ trim (normalizeItem item) = normalizeItem item).
Proof.
  unfold normalizeItem.
  destruct (String.eqb_spec (trim (coerceToText item)) "") as [|Hne].
  - split; [discriminate | now left].
  - split; [exact Hne | right; apply trim_idempotent].
Qed.

(** Normalization keeps the number and order of the items and never yields
    an empty text: every normalized text is either the single space that
    stands for "no text" or a text without white space at either end. *)
Theorem normalize_never_empty (inputs : list JsVal) :
  List.length (normalizeBatchInputs inputs) = List.length inputs
  /\ (forall i item,
         nth_error inputs i = Some item ->
         nth_error (normalizeBatchInputs inputs) i = Some (normalizeItem item))
  /\ Forall (fun text => text <> "" /\ 0 < str_len text
                         /\ (text = " " \/ trim text = text))
       (normalizeBatchInputs inputs).
Proof.
  unfold normalizeBatchInputs. split; [apply length_map|]. split.
  - intros i item H. now rewrite nth_error_map, H.
  - apply Forall_forall. intros text Hin. apply in_map_iff in Hin.
    destruct Hin as (item & <- & _).
    destruct (normalizeItem_shape item) as (Hne & Hshape).
    split; [exact Hne|]. split; [|exact Hshape].
    unfold str_len. destruct (normalizeItem item); [now elim Hne | cbn; lia].
Qed.

(** Normalizing texts that are already normalized changes nothing: a string
    that is not empty and has no white space at its ends is sent as it is. *)
Theorem normalize_idempotent (inputs : list JsVal) :
  normalizeBatchInputs (map VStr (normalizeBatchInputs inputs)) = normalizeBatchInputs inputs
  /\ (forall s, trim s = s -> s <> "" -> normalizeBatchInputs [VStr s] = [s]).
Proof.
  assert (Hfix : forall s, trim s = s -> s <> "" -> normalizeItem (VStr s) = s).
  { intros s Ht Hne. unfold normalizeItem. cbn [coerceToText]. rewrite Ht.
    now destruct (String.eqb_spec s ""). }
  split.
  - unfold normalizeBatchInputs. rewrite !map_map. apply map_ext. intros item.
    destruct (normalizeItem_shape item) as (Hne & [Hsp | Ht]).
    + rewrite Hsp. reflexivity.
    + now apply Hfix.
  - intros s Ht Hne. cbn. now rewrite Hfix.
Qed.

Lemma normalize_idempotent_witness :
  normalizeBatchInputs [VStr "hello world"] = ["hello world"].
Proof.
  destruct (normalize_idempotent []) as (_ & H).
  exact (H "hello world" eq_refl ltac:(discriminate)).
Defined.

(** ** Token estimate bounds *)

(** The token estimate grows with the length of the text, never falls below
    one, covers the text at four characters per token, and is the least such
    count for texts longer than four characters. *)
Theorem estimateTokens_bounds (a b : string) :
  1 <= estimateTokens a
  /\ str_len a <= 4 * estimateTokens a
  /\ (4 < str_len a -> 4 * (estimateTokens a - 1) < str_len a)
  /\ (str_len a <= 4 -> estimateTokens a = 1)
  /\ (str_len a <= str_len b -> estimateTokens a <= estimateTokens b).
Proof.
  rewrite !estimateTokens_formula.
  assert (Ha : 0 <= str_len a) by (unfold str_len; lia).
  assert (Hb : 0 <= str_len b) by (unfold str_len; lia).
  pose proof (Z.div_mod (str_len a + 3) 4 ltac:(lia)) as H1.
  pose proof (Z.mod_pos_bound (str_len a + 3) 4 ltac:(lia)) as H2.
  pose proof (Z.div_mod (str_len b + 3) 4 ltac:(lia)) as H3.
  pose proof (Z.mod_pos_bound (str_len b + 3) 4 ltac:(lia)) as H4.
  repeat split; lia.
Qed.

(** ** Reading embeddings out of a response *)

Lemma collect_embeddings_all (items : list JsVal) (vs : list Vec) :
  Forall2 (fun it v => prop it "embedding" = VArr v) items vs ->
  forall out, collect_embeddings items out = Ret (out ++ vs).
Proof.
  induction 1 as [|it v items vs Hv _ IH]; intros out; cbn [collect_embeddings].
  - now rewrite app_nil_r.
  - rewrite Hv, IH, <- app_assoc. reflexivity.
Qed.

Lemma collect_embeddings_bad (items : list JsVal) :
  Exists (fun it => forall v, prop it "embedding" <> VArr v) items ->
  forall out, collect_embeddings items out = Throw InvalidEmbeddingResponse.
Proof.
  induction 1 as [it items Hbad | it items _ IH]; intros out; cbn [collect_embeddings].
  - destruct (prop it "embedding") as [ | | | | | v | ]; try reflexivity. now elim (Hbad v).
  - destruct (prop it "embedding"); try reflexivity. apply IH.
Qed.

(** [extractEmbeddings] is all or nothing: when every entry of [data.data]
    holds an array under [embedding], it returns those arrays in order; when
    one entry does not, it throws and returns none of the others; when
    [data.data] is not an array, it returns no vector and does not throw. *)
Theorem extractEmbeddings_all_or_nothing (data : JsVal) :
  (forall items vs,
      prop data "data" = VArr items ->
      Forall2 (fun it v => prop it "embedding" = VArr v) items vs ->
      extractEmbeddings data = Ret vs)
  /\ (forall items,
         prop data "data" = VArr items ->
         Exists (fun it => forall v, prop it "embedding" <> VArr v) items ->
         extractEmbeddings data = Throw InvalidEmbeddingResponse)
  /\ ((forall items, prop data "data" <> VArr items) -> extractEmbeddings data = Ret []).
Proof.
  unfold extractEmbeddings, data_array. repeat split.
  - intros items vs -> H. exact (collect_embeddings_all _ _ H []).
  - intros items -> H. exact (collect_embeddings_bad _ H []).
  - intros H. destruct (prop data "data") as [ | | | | | l | ]; try reflexivity. now elim (H l).
Qed.

Lemma extractEmbeddings_all_or_nothing_witness :
  extractEmbeddings (VObj [("data", VArr [embedding_item [1; 2]; embedding_item [3; 4]])])
  = Ret [vector_of [1; 2]; vector_of [3; 4]]
  /\ extractEmbeddings
       (VObj [("data", VArr [embedding_item [1; 2]; VObj [("embedding", VStr "oops")]])])
     = Throw InvalidEmbeddingResponse
  /\ extractEmbeddings VNull = Ret [].
Proof.
  split; [|split].
  - apply (proj1 (extractEmbeddings_all_or_nothing
                    (VObj [("data", VArr [embedding_item [1; 2]; embedding_item [3; 4]])]))
             [embedding_item [1; 2]; embedding_item [3; 4]]
             [vector_of [1; 2]; vector_of [3; 4]] eq_refl).
    repeat constructor.
  - apply (proj1 (proj2 (extractEmbeddings_all_or_nothing
                    (VObj [("data", VArr [embedding_item [1; 2];
                                          VObj [("embedding", VStr "oops")]])])))
             [embedding_item [1; 2]; VObj [("embedding", VStr "oops")]] eq_refl).
    apply Exists_cons_tl, Exists_cons_hd. discriminate.
  - apply (proj2 (proj2 (extractEmbeddings_all_or_nothing VNull))). discriminate.
Defined.

(** ** One text, one request *)

(** [embedOne] sends exactly one request, whose input is the text itself and
    not a list, and touches nothing else.  From the response it keeps the
    first embedding and drops any further one; a response without any entry
    makes it throw [EmptyEmbeddingResponse], and one malformed entry anywhere
    in the response makes it throw even when the first entry is fine. *)
Theorem embedOne_first_embedding {P : Platform} (k one : string) (w w' : World P)
    (r : Outcome Vec) :
  embedOne k one w = (w', r) ->
  requests w' = requests w ++ [embeddings_request (settings w) k (VStr one)]
  /\ settings w' = settings w /\ cachedModels w' = cachedModels w
  /\ lastFetchedAt w' = lastFetchedAt w /\ this w' = this w
  /\ r <> Diverge
  /\ (forall data,
         createEmbeddings k (VStr one) w = (w', Ret data) ->
         (forall first rest,
             extractEmbeddings data = Ret (first :: rest) -> r = Ret first)
         /\ (extractEmbeddings data = Ret [] -> r = Throw EmptyEmbeddingResponse)
         /\ (extractEmbeddings data = Throw InvalidEmbeddingResponse ->
             r = Throw InvalidEmbeddingResponse))
  /\ (forall e, createEmbeddings k (VStr one) w = (w', Throw e) -> r = Throw e).
Proof.
  intros H.
  destruct (embedOne_effect _ _ _ _ _ H) as (Hreq & Hs & Hd).
  split; [exact Hreq|]. split; [exact Hs|].
  assert (Hframe : cachedModels w' = cachedModels w /\ lastFetchedAt w' = lastFetchedAt w
                   /\ this w' = this w).
  { revert H. unfold embedOne, bind, lift, createEmbeddings.
    destruct (fetchJson _ _ w) as [w1 [data | e |]] eqn:Hf;
      destruct (fetchJson_effect _ _ _ _ _ Hf) as (_ & Hc & Hl & Ht & _ & _).
    - destruct (extractEmbeddings data) as [[|v vs] | e |]; intros [= <- _]; now repeat split.
    - intros [= <- _]. now repeat split.
    - intros [= <- _]. now repeat split. }
  destruct Hframe as (Hc & Hl & Ht).
  split; [exact Hc|]. split; [exact Hl|]. split; [exact Ht|]. split; [exact Hd|].
  split.
  - intros data Hdata. unfold embedOne in H.
    rewrite (bind_Ret _ _ _ _ _ Hdata) in H. unfold bind, lift in H.
    repeat split.
    + intros first rest He. rewrite He in H. now injection H as <-.
    + intros He. rewrite He in H. now injection H as <-.
    + intros He. rewrite He in H. now injection H as <-.
  - intros e He. unfold embedOne in H.
    rewrite (bind_Throw _ _ _ _ _ He) in H. now injection H as <-.
Qed.

Lemma embedOne_first_embedding_witness :
  let w := start None 100 [ok_reply "two vectors"; ok_reply "no models"] in
  let w1 := fst (embedOne "m" "hello" w) in
  snd (embedOne "m" "hello" w) = Ret (vector_of [1; 1])
  /\ List.length (requests w1) = 1%nat
  /\ snd (embedOne "m" "again" w1) = Throw EmptyEmbeddingResponse.
Proof.
  intros w w1.
  destruct (embedOne_first_embedding "m" "hello" w w1 _ (surjective_pairing _))
    as (Hreq & _).
  split; [vm_compute; reflexivity|]. split; [rewrite Hreq; reflexivity|].
  vm_compute; reflexivity.
Defined.

(** ** Base address *)

Lemma trimEnd_keeps_slash (s : string) : trimEnd (s ++ "/") = (s ++ "/")%string.
Proof.
  induction s as [|c rest IH]; cbn [append trimEnd]; [reflexivity|].
  rewrite IH. destruct rest; reflexivity.
Qed.

Lemma trim_no_leading_ws (s : string) : trim s = s -> no_leading_ws s.
Proof.
  intros <-. apply trimEnd_no_leading_ws, trimStart_no_leading_ws.
Qed.

Lemma strip_added_slash (s : string) : strip_trailing_slash (s ++ "/") = s.
Proof.
  induction s as [|c rest IH]; cbn [append strip_trailing_slash]; [reflexivity|].
  rewrite IH. destruct rest; reflexivity.
Qed.

Lemma strip_without_slash (s : string) :
  ends_with_slash s = false -> strip_trailing_slash s = s.
Proof.
  induction s as [|c rest IH]; cbn [ends_with_slash strip_trailing_slash]; [reflexivity|].
  destruct rest as [|c' rest'].
  - now intros ->.
  - intros H. now rewrite (IH H).
Qed.

(** The base address may be configured with or without a final slash, and
    with white space around it: the requests go to the same address.  Only
    one final slash is removed. *)
Theorem normalizeBaseUrl_trailing_slash (u : string) :
  trim u = u ->
  ends_with_slash u = false ->
  normalizeBaseUrl u = u
  /\ normalizeBaseUrl (u ++ "/") = u
  /\ normalizeBaseUrl (" " ++ u ++ "/ ") = u
  /\ normalizeBaseUrl (u ++ "//") = (u ++ "/")%string.
Proof.
  intros Ht Hs. unfold normalizeBaseUrl.
  assert (Hlead : forall t, trimStart (u ++ String "/" t) = (u ++ String "/" t)%string).
  { intros t. apply trimStart_fixed. pose proof (trim_no_leading_ws u Ht) as Hn.
    destruct u; [reflexivity | exact Hn]. }
  assert (Hslash : trim (u ++ "/") = (u ++ "/")%string).
  { unfold trim. rewrite Hlead. apply trimEnd_keeps_slash. }
  split; [rewrite Ht; now apply strip_without_slash|].
  split; [rewrite Hslash; apply strip_added_slash|].
  split.
  - assert (Hsp : trim (" " ++ u ++ "/ ") = (u ++ "/")%string).
    { unfold trim. cbn [append trimStart is_ws]. change (is_ws " ") with true. cbn iota.
      rewrite Hlead.
      assert (Hend : forall s, trimEnd (s ++ "/ ") = (s ++ "/")%string).
      { induction s as [|c rest IH]; cbn [append trimEnd]; [reflexivity|].
        rewrite IH. destruct rest; reflexivity. }
      apply Hend. }
    rewrite Hsp. apply strip_added_slash.
  - replace (u ++ "//")%string with ((u ++ "/") ++ "/")%string.
    + unfold trim. 
      assert (Hl2 : trimStart ((u ++ "/") ++ "/") = ((u ++ "/") ++ "/")%string).
      { apply trimStart_fixed. pose proof (trim_no_leading_ws u Ht) as Hn.
        destruct u; [reflexivity | exact Hn]. }
      rewrite Hl2, trimEnd_keeps_slash. apply strip_added_slash.
    + clear. induction u as [|c rest IH]; cbn; [reflexivity | now rewrite IH].
Qed.

Lemma normalizeBaseUrl_trailing_slash_witness :
  normalizeBaseUrl "http://127.0.0.1:1234/" = "http://127.0.0.1:1234"
  /\ normalizeBaseUrl " http://127.0.0.1:1234/ " = "http://127.0.0.1:1234"
  /\ normalizeBaseUrl "http://127.0.0.1:1234//" = "http://127.0.0.1:1234/".
Proof.
  destruct (normalizeBaseUrl_trailing_slash "http://127.0.0.1:1234" eq_refl eq_refl)
    as (_ & H1 & H2 & H3).
  exact (conj H1 (conj H2 H3)).
Defined.

(** ** The catalog built from a model list *)

Lemma own_set_In (r : Catalog) (k : string) (v : ProviderModelConfig) k' v' :
  In (k', v') (own_set r k v) -> (k' = k /\ v' = v) \/ In (k', v') r.
Proof.
  induction r as [|[k0 v0] r IH]; cbn.
  - intros [[= <- <-] | []]. now left.
  - destruct (String.eqb k k0); cbn.
    + intros [[= <- <-] | H]; [now left | right; now right].
    + intros [H | H]; [right; now left|]. destruct (IH H); [now left | right; now right].
Qed.

Lemma own_set_keeps (r : Catalog) (k : string) (v : ProviderModelConfig) k' v' :
  In (k', v') r -> k' <> k \/ v' = v -> In (k', v') (own_set r k v).
Proof.
  induction r as [|[k0 v0] r IH]; cbn; [contradiction|].
  intros Hin Hor. destruct (String.eqb_spec k k0) as [<- | Hne].
  - destruct Hin as [[= <- <-] | Hin].
    + destruct Hor as [Hk | ->]; [now elim Hk | now left].
    + right. exact Hin.
  - destruct Hin as [Hin | Hin]; [now left | right; now apply IH].
Qed.

Lemma own_set_has (r : Catalog) (k : string) (v : ProviderModelConfig) :
  In (k, v) (own_set r k v).
Proof.
  induction r as [|[k0 v0] r IH]; cbn; [now left|].
  destruct (String.eqb k k0); [now left | right; exact IH].
Qed.

Lemma own_set_NoDup (r : Catalog) (k : string) (v : ProviderModelConfig) :
  NoDup (map fst r) -> NoDup (map fst (own_set r k v)).
Proof.
  induction r as [|[k0 v0] r IH]; cbn; intros Hnd.
  - constructor; [exact (fun x => x) | constructor].
  - inversion Hnd as [|? ? Hnotin Hnd']; subst.
    destruct (String.eqb_spec k k0) as [-> | Hne]; cbn; [now constructor|].
    constructor; [|now apply IH].
    intros Hin. apply own_set_keys in Hin. destruct Hin as [-> | Hin]; [now elim Hne | auto].
Qed.

Lemma record_set_In (r : Catalog) (k : string) (v : ProviderModelConfig) k' v' :
  In (k', v') (record_set r k v) ->
  (k' = k /\ v' = v /\ k <> "__proto__") \/ In (k', v') r.
Proof.
  unfold record_set. destruct (String.eqb_spec k "__proto__") as [|Hne]; [now right|].
  intros H. apply own_set_In in H. destruct H as [(-> & ->) | H]; [now left | now right].
Qed.

Lemma record_set_keeps (r : Catalog) (k : string) (v : ProviderModelConfig) k' v' :
  In (k', v') r -> k' <> k \/ v' = v -> In (k', v') (record_set r k v).
Proof.
  unfold record_set. destruct (String.eqb k "__proto__"); [now intros|]. apply own_set_keeps.
Qed.

Lemma record_set_has (r : Catalog) (k : string) (v : ProviderModelConfig) :
  k <> "__proto__" -> In (k, v) (record_set r k v).
Proof.
  unfold record_set. destruct (String.eqb_spec k "__proto__"); [contradiction|].
  intros _. apply own_set_has.
Qed.

Lemma record_set_NoDup (r : Catalog) (k : string) (v : ProviderModelConfig) :
  NoDup (map fst r) -> NoDup (map fst (record_set r k v)).
Proof.
  unfold record_set. destruct (String.eqb k "__proto__"); [exact id | apply own_set_NoDup].
Qed.

Lemma sort_indices_length (l : list N) : List.length (sort_indices l) = List.length l.
Proof.
  assert (Hins : forall n s, List.length (insert_index n s) = S (List.length s)).
  { intros n s. induction s as [|m s IH]; cbn; [reflexivity|].
    destruct (n <=? m)%N; cbn; [reflexivity | now rewrite IH]. }
  unfold sort_indices. induction l as [|x l IH]; cbn [fold_right List.length]; [reflexivity|].
  now rewrite Hins, IH.
Qed.

Lemma Object_keys_length (r : Catalog) : List.length (Object_keys r) = List.length r.
Proof.
  unfold Object_keys. rewrite length_app, length_map, sort_indices_length.
  unfold index_keys, name_keys.
  induction r as [|kv r IH]; cbn; [reflexivity|].
  rewrite !length_app. destruct (array_index (fst kv)); cbn; lia.
Qed.

Lemma catalog_of_invariant (s : LmStudioSettings) (listed : list JsVal) :
  forall acc,
    NoDup (map fst acc) ->
    (forall k cfg, In (k, cfg) acc ->
                   cfg = model_entry s k /\ trim k = k /\ k <> "" /\ k <> "__proto__") ->
    NoDup (map fst (fold_left (add_model s) listed acc))
    /\ (forall k cfg, In (k, cfg) (fold_left (add_model s) listed acc) ->
                      cfg = model_entry s k /\ trim k = k /\ k <> "" /\ k <> "__proto__")
    /\ (forall k cfg, In (k, cfg) acc -> In (k, cfg) (fold_left (add_model s) listed acc))
    /\ (forall m, In m listed -> model_id m <> "" -> model_id m <> "__proto__" ->
                  In (model_id m, model_entry s (model_id m))
                    (fold_left (add_model s) listed acc))
    /\ (forall k, In k (map fst (fold_left (add_model s) listed acc)) ->
                  In k (map fst acc) \/ exists m, In m listed /\ k = model_id m).
Proof.
  induction listed as [|m listed IH]; intros acc Hnd Hacc; cbn [fold_left].
  - split; [exact Hnd|]. split; [exact Hacc|]. split; [auto|]. split; [intros m []|].
    intros k Hk. now left.
  - set (acc' := add_model s acc m).
    assert (Hnd' : NoDup (map fst acc')).
    { unfold acc', add_model. destruct (String.eqb _ ""); [exact Hnd|].
      now apply record_set_NoDup. }
    assert (Hacc' : forall k cfg, In (k, cfg) acc' ->
                                  cfg = model_entry s k /\ trim k = k /\ k <> ""
                                  /\ k <> "__proto__").
    { unfold acc', add_model. fold (model_id m).
      destruct (String.eqb_spec (model_id m) "") as [|Hne]; [exact Hacc|].
      intros k cfg H. apply record_set_In in H.
      destruct H as [(-> & -> & Hp) | H]; [|now apply Hacc].
      split; [reflexivity|]. split; [apply trim_idempotent|]. now split. }
    assert (Hkeep : forall k cfg, In (k, cfg) acc -> In (k, cfg) acc').
    { unfold acc', add_model. fold (model_id m).
      destruct (String.eqb_spec (model_id m) "") as [|Hne]; [auto|].
      intros k cfg H. apply record_set_keeps; [exact H|].
      destruct (String.eqb_spec k (model_id m)) as [-> | Hk]; [|now left].
      right. now destruct (Hacc _ _ H). }
    destruct (IH acc' Hnd' Hacc') as (H1 & H2 & H3 & H4 & H5).
    split; [exact H1|]. split; [exact H2|]. split; [intros; apply H3, Hkeep; assumption|].
    split.
    + intros m' [<- | Hin] Hid Hp; [|now apply H4].
      apply H3. unfold acc', add_model. fold (model_id m).
      destruct (String.eqb_spec (model_id m) ""); [contradiction|]. now apply record_set_has.
    + intros k Hk. destruct (H5 k Hk) as [Hin | (m' & Hin & ->)].
      * unfold acc', add_model in Hin. fold (model_id m) in Hin.
        destruct (String.eqb_spec (model_id m) "") as [|Hne]; [now left|].
        apply record_set_keys in Hin. destruct Hin as [-> | Hin]; [|now left].
        right. exists m. split; [now left | reflexivity].
      * right. exists m'. split; [now right | reflexivity].
Qed.

Lemma model_id_text (m : JsVal) (s : string) : prop m "id" = VStr s -> model_id m = trim s.
Proof. unfold model_id. now intros ->. Qed.

(** The catalog a refresh stores has one entry for each distinct usable
    identifier of the model list and no other.  For the identifiers that are
    strings: they are trimmed, an entry whose identifier is then empty is
    skipped, repeated identifiers give a single entry, and each entry carries
    its key as id, name, model key and model, with the token and batch
    defaults of the settings.  The identifier [__proto__] gets no entry: the
    assignment under that key creates no property. *)
Theorem listModels_catalog_well_formed {P : Platform}
    (refresh : bool) (w w' : World P) (cat : Catalog) :
  cache_fresh refresh w = false ->
  listModels refresh w = (w', Ret cat) ->
  cachedModels w' = cat
  /\ NoDup (map fst cat)
  /\ List.length (Object_keys cat) = List.length cat
  /\ (forall k cfg,
         In (k, cfg) cat ->
         cfg = model_entry (settings w) k /\ trim k = k /\ k <> "" /\ k <> "__proto__")
  /\ exists w1 data,
       fetchJson "/v1/models" no_init w = (w1, Ret data)
       /\ (forall m s,
              In m (data_array data) -> prop m "id" = VStr s ->
              trim s <> "" -> trim s <> "__proto__" ->
              In (trim s, model_entry (settings w) (trim s)) cat)
       /\ ((forall m, In m (data_array data) ->
                      nullish (prop m "id") = true \/ exists s, prop m "id" = VStr s) ->
           forall k, In k (map fst cat) ->
                     exists m s, In m (data_array data) /\ prop m "id" = VStr s /\ k = trim s).
Proof.
  intros Hstale Hrun.
  destruct (fetchJson "/v1/models" no_init w) as [w1 [data | e |]] eqn:Hf.
  - rewrite (listModels_refreshed _ _ _ _ Hstale Hf) in Hrun. injection Hrun as <- <-.
    destruct (fetchJson_effect _ _ _ _ _ Hf) as (Hs & _). rewrite Hs.
    destruct (catalog_of_invariant (settings w) (data_array data) []
                ltac:(constructor) ltac:(intros k cfg []))
      as (H1 & H2 & _ & H4 & H5).
    split; [reflexivity|]. split; [exact H1|]. split; [apply Object_keys_length|].
    split; [exact H2|]. exists w1, data. split; [reflexivity|]. split.
    + intros m s Hm Hid Hne Hp. rewrite <- (model_id_text m s Hid) in *. now apply H4.
    + intros Htext k Hk. destruct (H5 k Hk) as [[] | (m & Hm & ->)].
      destruct (Htext m Hm) as [Hnull | (s & Hid)].
      * exfalso.
        assert (Hin : exists cfg, In (model_id m, cfg) (catalog_of (settings w) data)).
        { apply in_map_iff in Hk. destruct Hk as ([k0 cfg] & Hk0 & Hin). cbn in Hk0. subst k0.
          now exists cfg. }
        destruct Hin as (cfg & Hin). destruct (H2 _ _ Hin) as (_ & _ & Hne & _).
        apply Hne. unfold model_id. unfold coalesce. now rewrite Hnull.
      * exists m, s. split; [exact Hm|]. split; [exact Hid | now apply model_id_text].
  - rewrite (listModels_failed _ _ _ _ Hstale Hf) in Hrun. discriminate.
  - destruct (fetchJson_effect _ _ _ _ _ Hf) as (_ & _ & _ & _ & _ & Hd). now elim Hd.
Qed.

Lemma listModels_catalog_well_formed_witness :
  let w := start None 100 [ok_reply "two models"] in
  map fst (cachedModels (fst (listModels true w))) = ["nomic-embed"; "bge-small"]
  /\ NoDup ["nomic-embed"; "bge-small"].
Proof.
  intros w.
  destruct (listModels_catalog_well_formed true w (fst (listModels true w))
              (cachedModels (fst (listModels true w))) eq_refl
              ltac:(vm_compute; reflexivity)) as (_ & Hnd & _).
  split; [vm_compute; reflexivity|].
  assert (Hk : map fst (cachedModels (fst (listModels true w))) = ["nomic-embed"; "bge-small"])
    by (vm_compute; reflexivity).
  now rewrite Hk in Hnd.
Defined.

(** ** A response without a model list *)

(** A successful response that holds no [data] array (an empty body, [null],
    an object without [data]) is not an error for [listModels]: the cached
    catalog is replaced by the empty one and stamped, whatever it held, and
    since an empty catalog is never reused the next call asks the server
    again. *)
Theorem listModels_without_list_clears_cache {P : Platform}
    (refresh : bool) (w w1 : World P) (data : JsVal) :
  cache_fresh refresh w = false ->
  fetchJson "/v1/models" no_init w = (w1, Ret data) ->
  (forall l, prop data "data" <> VArr l) ->
  listModels refresh w = (set_catalog w1 [] (Date_now P (env w)), Ret [])
  /\ (forall later again,
         cache_fresh again (set_env (set_catalog w1 [] (Date_now P (env w))) later) = false).
Proof.
  intros Hstale Hf Hshape.
  assert (Hcat : catalog_of (settings w1) data = []).
  { unfold catalog_of, data_array.
    destruct (prop data "data") as [ | | | | | l | ]; try reflexivity. now elim (Hshape l). }
  split.
  - rewrite (listModels_refreshed _ _ _ _ Hstale Hf). now rewrite Hcat.
  - intros later again. unfold cache_fresh. cbn [cachedModels set_env set_catalog].
    cbn. now rewrite andb_false_r.
Qed.

Lemma listModels_without_list_clears_cache_witness :
  let w := start None 100 [ok_reply "two models"; ok_reply ""] in
  let w1 := fst (listModels false w) in
  let w2 := fst (listModels true w1) in
  List.length (cachedModels w1) = 2%nat
  /\ snd (listModels true w1) = Ret []
  /\ cachedModels w2 = [].
Proof.
  intros w w1 w2.
  destruct (listModels_without_list_clears_cache true w1
              (fst (fetchJson "/v1/models" no_init w1)) VNull eq_refl
              ltac:(vm_compute; reflexivity) ltac:(discriminate)) as (Hrun & _).
  subst w2. rewrite Hrun. cbn [fst snd cachedModels set_catalog].
  split; [vm_compute; reflexivity|]. split; reflexivity.
Defined.

(** ** Catalog access through the adapter *)

Lemma listModels_this {P : Platform} (refresh : bool) (w w' : World P) r :
  listModels refresh w = (w', r) -> this w' = this w /\ r <> Diverge.
Proof.
  unfold listModels. destruct (cache_fresh refresh w).
  - intros [= <- <-]. split; [reflexivity | discriminate].
  - unfold bind. destruct (fetchJson "/v1/models" no_init w) as [w1 [data | e |]] eqn:Hf;
      destruct (fetchJson_effect _ _ _ _ _ Hf) as (_ & _ & _ & Ht & _ & Hd);
      intros [= <- <-]; (split; [exact Ht | try discriminate]). now elim Hd.
Qed.

Lemma listModels_returns_cache {P : Platform} (refresh : bool) (w w' : World P) cat :
  listModels refresh w = (w', Ret cat) -> cachedModels w' = cat.
Proof.
  unfold listModels. destruct (cache_fresh refresh w); [now intros [= <- <-]|].
  unfold bind. destruct (fetchJson "/v1/models" no_init w) as [w1 [data | e |]];
    intros [= <- <-]. reflexivity.
Qed.

Lemma model_data_this {P : Platform} (v w : World P) :
  this v = this w -> model_data v = model_data w.
Proof. unfold model_data. now intros ->. Qed.

Lemma get_models_effect {P : Platform}
    (arg : JsVal) (w w' : World P) (r : Outcome Catalog) :
  get_models arg w = (w', r) ->
  (forall cat,
      r = Ret cat ->
      cachedModels w' = cat /\ model_data w' = option_map (seeded cat) (model_data w))
  /\ (forall e, r = Throw e -> this w' = this w)
  /\ r <> Diverge.
Proof.
  unfold get_models. intros H.
  destruct (listModels (coerceRefreshArg arg) w) as [w1 [cat | e |]] eqn:Hl;
    destruct (listModels_this _ _ _ _ Hl) as (Ht & Hd).
  - rewrite (bind_Ret _ _ _ _ _ Hl), (bind_Ret _ _ _ _ _ (update_data_run _ _)) in H.
    injection H as <- <-. fold (seeded cat).
    split; [|split; [discriminate | discriminate]].
    intros cat' [= <-].
    destruct (with_data_frame (seeded cat) w1) as (_ & Hc & _ & _).
    split; [rewrite Hc; now apply (listModels_returns_cache _ _ _ _ Hl)|].
    rewrite with_data_model_data. now rewrite (model_data_this _ _ Ht).
  - rewrite (bind_Throw _ _ _ _ _ Hl) in H. injection H as <- <-.
    split; [discriminate|]. split; [now intros e' _ | discriminate].
  - now elim Hd.
Qed.

(** [get_models] returns the module's catalog as it stands after the call.
    It stores that catalog in [provider_models] of the model's data object
    only when that field is absent or has no key, and never replaces a
    non-empty one; when the refresh fails nothing is written to the model. *)
Theorem get_models_seeds_provider_models {P : Platform}
    (arg : JsVal) (w w' : World P) (r : Outcome Catalog) :
  get_models arg w = (w', r) ->
  (forall cat,
      r = Ret cat ->
      cachedModels w' = cat
      /\ model_data w' = option_map (seeded cat) (model_data w)
      /\ (forall d, model_data w = Some d -> provider_models_empty d = false ->
                    model_data w' = Some d)
      /\ (forall d, model_data w = Some d -> provider_models_empty d = true ->
                    option_map d_provider_models (model_data w') = Some (Some cat)))
  /\ (forall e, r = Throw e -> this w' = this w)
  /\ r <> Diverge.
Proof.
  intros H. destruct (get_models_effect _ _ _ _ H) as (Hok & Herr & Hd).
  split; [|split; [exact Herr | exact Hd]].
  intros cat Hr. destruct (Hok cat Hr) as (Hc & Hdata).
  split; [exact Hc|]. split; [exact Hdata|]. split.
  - intros d Hd0 He. rewrite Hdata, Hd0. cbn. unfold seeded. now rewrite He.
  - intros d Hd0 He. rewrite Hdata, Hd0. cbn. unfold seeded. now rewrite He.
Qed.

Lemma get_models_seeds_provider_models_witness :
  let w := start (Some (model_with (Some blank_data))) 100
             [ok_reply "two models"; ok_reply "no models"] in
  let w1 := fst (get_models (VBool false) w) in
  let w2 := fst (get_models (VBool true) w1) in
  option_map d_provider_models (model_data w1) = Some (Some (cachedModels w1))
  /\ cachedModels w2 = []
  /\ model_data w2 = model_data w1.
Proof.
  intros w w1 w2.
  destruct (get_models_seeds_provider_models (VBool false) w w1 _ (surjective_pairing _))
    as (H1 & _).
  destruct (H1 (cachedModels w1) ltac:(vm_compute; reflexivity)) as (_ & _ & _ & Hseed).
  destruct (get_models_seeds_provider_models (VBool true) w1 w2 _ (surjective_pairing _))
    as (H2 & _).
  destruct (H2 [] ltac:(vm_compute; reflexivity)) as (Hc & _ & Hkeep & _).
  split; [exact (Hseed blank_data eq_refl eq_refl)|]. split; [exact Hc|].
  destruct (model_data w1) as [d1|] eqn:Hd1; [|vm_compute in Hd1; discriminate Hd1].
  apply (Hkeep d1 eq_refl).
  vm_compute in Hd1. injection Hd1 as <-. reflexivity.
Defined.

(** ** Lifecycle *)

(** [load] marks the adapter loaded only after the catalog was obtained: when
    the refresh fails, [load] fails with the same error and the adapter and
    the cache stay as they were.  [unload] only resets the flag: it sends
    nothing and keeps the model object and the cached catalog. *)
Theorem load_marks_loaded_on_success {P : Platform}
    (arg : JsVal) (w w' : World P) (r : Outcome unit) :
  load arg w = (w', r) ->
  (r = Ret tt ->
   state (this w') = loaded
   /\ exists cat, cachedModels w' = cat
                  /\ model_data w' = option_map (seeded cat) (model_data w))
  /\ (forall e, r = Throw e ->
                this w' = this w
                /\ exists w1, listModels (coerceRefreshArg arg) w = (w1, Throw e))
  /\ r <> Diverge
  /\ (let w'' := fst (unload w') in
      unload w' = (w'', Ret tt)
      /\ state (this w'') = unloaded
      /\ model (this w'') = model (this w')
      /\ cachedModels w'' = cachedModels w'
      /\ lastFetchedAt w'' = lastFetchedAt w'
      /\ trace w'' = trace w').
Proof.
  unfold load. intros H.
  destruct (get_models arg w) as [w1 [cat | e |]] eqn:Hg;
    destruct (get_models_effect _ _ _ _ Hg) as (Hok & Herr & Hd).
  - rewrite (bind_Ret _ _ _ _ _ Hg) in H. injection H as <- <-.
    destruct (Hok cat eq_refl) as (Hc & Hdata).
    split; [|split; [discriminate | split; [discriminate | now repeat split]]].
    intros _. split; [reflexivity|]. exists cat. split; [exact Hc|].
    unfold model_data in *. cbn [this set_this model]. exact Hdata.
  - rewrite (bind_Throw _ _ _ _ _ Hg) in H. injection H as <- <-.
    split; [discriminate|]. split; [|split; [discriminate | now repeat split]].
    intros e' [= <-]. split; [now apply (Herr e)|].
    unfold get_models in Hg.
    destruct (listModels (coerceRefreshArg arg) w) as [w2 [cat | e2 |]] eqn:Hl.
    + rewrite (bind_Ret _ _ _ _ _ Hl), (bind_Ret _ _ _ _ _ (update_data_run _ _)) in Hg.
      discriminate.
    + rewrite (bind_Throw _ _ _ _ _ Hl) in Hg. injection Hg as <- <-. now exists w2.
    + destruct (listModels_this _ _ _ _ Hl) as (_ & Hdd). now elim Hdd.
  - now elim Hd.
Qed.

Lemma load_marks_loaded_on_success_witness :
  let ok := start (Some (model_with (Some blank_data))) 100 [ok_reply "two models"] in
  let down := start (Some (model_with (Some blank_data))) 100 [Rejected NetworkError] in
  state (this (fst (load (VBool true) ok))) = loaded
  /\ snd (load (VBool true) down) = Throw (FetchError NetworkError)
  /\ state (this (fst (load (VBool true) down))) = unloaded.
Proof.
  intros ok down.
  destruct (load_marks_loaded_on_success (VBool true) ok _ _ (surjective_pairing _))
    as (Hok & _).
  destruct (load_marks_loaded_on_success (VBool true) down _ _ (surjective_pairing _))
    as (_ & Herr & _).
  destruct (Hok ltac:(vm_compute; reflexivity)) as (Hl & _).
  destruct (Herr (FetchError NetworkError) ltac:(vm_compute; reflexivity)) as (Ht & _).
  split; [exact Hl|]. split; [vm_compute; reflexivity|]. now rewrite Ht.
Defined.

(** ** The configured model key *)

(** The key [ensureModelKey] finds configured is read from the first of the
    six key places that holds anything but [null] or [undefined]: it is that
    value trimmed when it is a string, and nothing otherwise, later places not
    being looked at. *)
Theorem configured_key_first_present {P : Platform} (w : World P) :
  configured_key w
  = match find present (key_places w) with
    | Some (VStr s) => trim s
    | _ => ""
    end.
Proof.
  unfold configured_key, key_places.
  generalize (data_prop w d_model_key) (data_prop w d_model) (data_prop w d_model_id)
    (data_prop w d_id) (model_prop w m_model_key) (model_prop w m_id).
  intros a b c d e f.
  destruct a; try reflexivity; destruct b; try reflexivity;
    destruct c; try reflexivity; destruct d; try reflexivity;
    destruct e; try reflexivity; destruct f; reflexivity.
Qed.

Lemma configured_key_this {P : Platform} (v w : World P) :
  this v = this w -> configured_key v = configured_key w.
Proof.
  intros H. unfold configured_key, data_prop, model_prop, model_data. now rewrite H.
Qed.

Lemma get_models_forced {P : Platform} (w w' : World P) (r : Outcome Catalog) :
  get_models (VBool true) w = (w', r) ->
  requests w' = requests w ++ [models_request (settings w)]
  /\ settings w' = settings w
  /\ r <> Diverge
  /\ (forall cat, r = Ret cat ->
                  cachedModels w' = cat
                  /\ exists w1 data, fetchJson "/v1/models" no_init w = (w1, Ret data)
                                     /\ cat = catalog_of (settings w) data).
Proof.
  assert (Hc : cache_fresh true w = false) by reflexivity.
  unfold get_models. cbn [coerceRefreshArg]. intros H.
  destruct (fetchJson "/v1/models" no_init w) as [w1 [data | e |]] eqn:Hf;
    destruct (fetchJson_effect _ _ _ _ _ Hf) as (Hs & _ & _ & _ & Htr & Hd).
  - rewrite (bind_Ret _ _ _ _ _ (listModels_refreshed _ _ _ _ Hc Hf)),
            (bind_Ret _ _ _ _ _ (update_data_run _ _)) in H.
    injection H as <- <-.
    match goal with |- context [with_data ?f ?v] =>
      destruct (with_data_frame f v) as (Hs' & Hc' & _ & Htr') end.
    split.
    { unfold requests at 1. rewrite Htr'. cbn [trace set_catalog].
      fold (requests w1). now apply requests_emit_fetched. }
    split; [now rewrite Hs'|]. split; [discriminate|].
    intros cat [= <-]. split; [now rewrite Hc'|].
    exists w1, data. now rewrite Hs.
  - rewrite (bind_Throw _ _ _ _ _ (listModels_failed _ _ _ _ Hc Hf)) in H.
    injection H as <- <-.
    split; [now apply requests_emit_fetched|]. split; [exact Hs|].
    split; discriminate.
  - now elim Hd.
Qed.

(** When no usable key is configured (the first present key place holds a
    number, say, or only white space), every call of [ensureModelKey] sends
    one request for the model list, whatever the cache holds, and no other
    request; the key it returns, if any, is a key of the catalog just
    fetched. *)
Theorem ensureModelKey_without_key_asks_server {P : Platform}
    (w w' : World P) (r : Outcome string) :
  configured_key w = "" ->
  ensureModelKey w = (w', r) ->
  requests w' = requests w ++ [models_request (settings w)]
  /\ r <> Diverge
  /\ (forall k, r = Ret k -> k <> "" /\ trim k = k /\ In k (map fst (cachedModels w'))).
Proof.
  intros Hnone. unfold ensureModelKey. rewrite Hnone. cbn [String.eqb negb].
  unfold bind at 1.
  destruct (get_models (VBool true) w) as [w1 [cat | e |]] eqn:Hg;
    destruct (get_models_forced _ _ _ Hg) as (Hreq & Hs & Hd & Hcat).
  - destruct (Hcat cat eq_refl) as (Hc1 & wf & data & _ & Hcatalog).
    unfold first_catalog_key. rewrite Hc1.
    destruct (Object_keys cat) as [|k0 rest] eqn:Hkeys; cbn [String.eqb].
    + intros [= <- <-]. split; [exact Hreq|]. split; discriminate.
    + assert (Hin : In k0 (map fst cat)).
      { apply Object_keys_In. rewrite Hkeys. now left. }
      destruct (catalog_of_keys (settings w) data k0) as (Htrim & Hne);
        [now rewrite <- Hcatalog|].
      rewrite Htrim. destruct (String.eqb_spec k0 "") as [|_]; [contradiction|].
      destruct (model_data w1) as [d1|].
      * rewrite (bind_Ret _ _ _ _ _ (update_data_run _ _)),
                (bind_Ret _ _ _ _ _ (debounce_save_run _)).
        intros [= <- <-].
        destruct (saved_frame (with_data (set_model_keys k0) w1))
          as (_ & Hc' & _ & _ & Hr').
        destruct (with_data_frame (set_model_keys k0) w1) as (_ & Hc'' & _ & Htr'').
        split; [rewrite Hr'; unfold requests; rewrite Htr''; exact Hreq|].
        split; [discriminate|]. intros k [= <-].
        split; [exact Hne|]. split; [exact Htrim|]. now rewrite Hc', Hc'', Hc1.
      * intros [= <- <-]. split; [exact Hreq|]. split; [discriminate|].
        intros k [= <-]. split; [exact Hne|]. split; [exact Htrim|]. now rewrite Hc1.
  - intros [= <- <-]. split; [exact Hreq|]. split; discriminate.
  - now elim Hd.
Qed.

Lemma ensureModelKey_without_key_asks_server_witness :
  let numeric := {| d_model_key := VNum (Fin 42); d_model := VStr "configured";
                    d_model_id := VUndefined; d_id := VUndefined;
                    d_batch_size := VUndefined; d_max_batch_size := VUndefined;
                    d_dims := VUndefined; d_provider_models := None |} in
  let w := start (Some (model_with (Some numeric))) 100 [ok_reply "two models"] in
  configured_key w = ""
  /\ snd (ensureModelKey w) = Ret "nomic-embed"
  /\ List.length (requests (fst (ensureModelKey w))) = 1%nat.
Proof.
  intros numeric w.
  destruct (ensureModelKey_without_key_asks_server w _ _ eq_refl (surjective_pairing _))
    as (Hreq & _).
  split; [reflexivity|]. split; [vm_compute; reflexivity|]. now rewrite Hreq.
Defined.

(** ** Stability of the adopted key *)

(** Once [ensureModelKey] has returned a key for a model that has a data
    object, every later call on that model returns the same key without any
    request or write, whatever happened to the catalog or the server in
    between. *)
Theorem ensureModelKey_stable {P : Platform} (w w' : World P) (k : string) :
  model_data w <> None ->
  ensureModelKey w = (w', Ret k) ->
  forall v : World P, this v = this w' -> ensureModelKey v = (v, Ret k).
Proof.
  intros Hdata Hrun v Hv.
  assert (Hkey : configured_key w' = k /\ k <> "").
  { revert Hrun. unfold ensureModelKey.
    destruct (String.eqb_spec (configured_key w) "") as [Hnone | Hsome]; cbn [negb].
    - unfold bind at 1.
      destruct (get_models (VBool true) w) as [w1 [cat | e |]] eqn:Hg; [|discriminate..].
      destruct (get_models_effect _ _ _ _ Hg) as (Hok & _).
      destruct (Hok cat eq_refl) as (_ & Hd1).
      unfold first_catalog_key.
      destruct (Object_keys (cachedModels w1)) as [|k0 rest]; cbn [String.eqb];
        [discriminate|].
      destruct (String.eqb_spec (trim k0) "") as [|Hne]; [discriminate|].
      destruct (model_data w1) as [d1|] eqn:Hm1.
      + rewrite (bind_Ret _ _ _ _ _ (update_data_run _ _)),
                (bind_Ret _ _ _ _ _ (debounce_save_run _)).
        intros [= <- <-]. split; [|exact Hne].
        destruct (saved_frame (with_data (set_model_keys (trim k0)) w1))
          as (_ & _ & _ & Ht & _).
        rewrite (configured_key_this _ _ Ht).
        unfold configured_key, data_prop.
        rewrite with_data_model_data, Hm1. cbn. apply trim_idempotent.
      + destruct (model_data w); [discriminate Hd1 | now elim Hdata].
    - intros [= <- <-]. split; [reflexivity | exact Hsome]. }
  destruct Hkey as (Hk & Hne).
  rewrite <- Hk, <- (configured_key_this _ _ Hv).
  apply ensureModelKey_configured. rewrite (configured_key_this _ _ Hv), Hk. exact Hne.
Qed.

Lemma ensureModelKey_stable_witness :
  let w := start (Some (model_with (Some blank_data))) 100 [ok_reply "two models"] in
  let w' := fst (ensureModelKey w) in
  let later := set_catalog (set_env w' {| clock := 99999; replies := [] |}) [] 0 in
  ensureModelKey later = (later, Ret "nomic-embed").
Proof.
  intros w w' later.
  apply (ensureModelKey_stable w w' "nomic-embed" ltac:(discriminate)
           ltac:(vm_compute; reflexivity) later eq_refl).
Defined.

(** ** Padding *)

(** [padToLength] either returns exactly the requested number of vectors or
    throws a [RangeError], and changes nothing.  With enough vectors it
    returns the first ones.  Otherwise the width of a missing vector is the
    model's [dims] when that is finite, else the width of the first given
    vector, else 1536: when this width is [2^32] or more the call throws, and
    when it is less the result is the given vectors in order followed by one
    vector of zeros of that width for each missing position (the empty vector
    when the width is negative). *)
Theorem padToLength_closed_form {P : Platform} (w : World P) (vectors : list Vec) (n : nat) :
  ((n <= List.length vectors)%nat -> padToLength vectors n w = (w, Ret (firstn n vectors)))
  /\ ((List.length vectors < n)%nat -> pad_dims w vectors < 2 ^ 32 ->
      padToLength vectors n w
      = (w, Ret (vectors
                 ++ repeat (zero_vector (pad_dims w vectors)) (n - List.length vectors))))
  /\ ((List.length vectors < n)%nat -> 2 ^ 32 <= pad_dims w vectors ->
      padToLength vectors n w = (w, Throw RangeError))
  /\ (forall w' padded,
         padToLength vectors n w = (w', Ret padded) ->
         w' = w
         /\ List.length padded = n
         /\ (forall i v, (i < n)%nat -> nth_error vectors i = Some v ->
                         nth_error padded i = Some v)
         /\ (forall i, (List.length vectors <= i < n)%nat ->
                       nth_error padded i = Some (zero_vector (pad_dims w vectors))))
  /\ List.length (zero_vector (pad_dims w vectors)) = Z.to_nat (pad_dims w vectors)
  /\ (forall z, data_prop w d_dims = VNum (Fin z) -> pad_dims w vectors = z)
  /\ (Number_isFinite (data_prop w d_dims) = false ->
      pad_dims w vectors = match vectors with
                           | v0 :: _ => Z.of_nat (List.length v0)
                           | [] => 1536
                           end).
Proof.
  assert (Hfirst : (n <= List.length vectors)%nat ->
                   padToLength vectors n w = (w, Ret (firstn n vectors))).
  { intros Hle. unfold padToLength.
    destruct (Nat.leb_spec n (List.length vectors)); [reflexivity | lia]. }
  assert (Hpad : (List.length vectors < n)%nat -> pad_dims w vectors < 2 ^ 32 ->
                 padToLength vectors n w
                 = (w, Ret (vectors ++ repeat (zero_vector (pad_dims w vectors))
                                         (n - List.length vectors)))).
  { intros Hlt Hd. unfold padToLength.
    destruct (Nat.leb_spec n (List.length vectors)); [lia|].
    destruct (Z.leb_spec (2 ^ 32) (pad_dims w vectors)); [lia | reflexivity]. }
  assert (Hthrow : (List.length vectors < n)%nat -> 2 ^ 32 <= pad_dims w vectors ->
                   padToLength vectors n w = (w, Throw RangeError)).
  { intros Hlt Hd. unfold padToLength.
    destruct (Nat.leb_spec n (List.length vectors)); [lia|].
    destruct (Z.leb_spec (2 ^ 32) (pad_dims w vectors)); [reflexivity | lia]. }
  split; [exact Hfirst|]. split; [exact Hpad|]. split; [exact Hthrow|].
  split; [|split; [|split]].
  - intros w' padded Hrun.
    destruct (padToLength_effect _ _ _ _ _ Hrun) as (-> & _).
    split; [reflexivity|]. split; [exact (padToLength_length _ _ _ _ _ Hrun)|].
    destruct (Nat.le_gt_cases n (List.length vectors)) as [Hle | Hgt].
    + rewrite (Hfirst Hle) in Hrun. injection Hrun as <-. split.
      * intros i v Hi Hv. rewrite nth_error_firstn.
        destruct (Nat.ltb_spec i n); [exact Hv | lia].
      * intros i Hi. lia.
    + destruct (Z.lt_ge_cases (pad_dims w vectors) (2 ^ 32)) as [Hd | Hd].
      * rewrite (Hpad Hgt Hd) in Hrun. injection Hrun as <-. split.
        -- intros i v Hi Hv.
           assert (Hlt : (i < List.length vectors)%nat) by (apply nth_error_Some; congruence).
           now rewrite nth_error_app1.
        -- intros i Hi. rewrite nth_error_app2 by lia. apply nth_error_repeat. lia.
      * rewrite (Hthrow Hgt Hd) in Hrun. discriminate.
  - unfold zero_vector. apply repeat_length.
  - intros z Hz. unfold pad_dims. now rewrite Hz.
  - unfold pad_dims. destruct (data_prop w d_dims) as [ | | | [ | | | z] | | | ];
      cbn; intros H; try reflexivity; discriminate.
Qed.

(** ** Argument coercion *)





(** When one of its two arguments is a non-empty array, the two-argument
    coercion picks the same list as [coerceBatchInputsFromArgs] does on the
    pair: the first argument if it is one, else the second.  They can differ
    otherwise: an empty array in first position hides an object in second
    position from the two-argument coercion only. *)
Theorem coerceBatchInputs_agrees (arg0 arg1 : JsVal) (x : JsVal) (l : list JsVal) :
  arg0 = VArr (x :: l) \/ arg1 = VArr (x :: l) ->
  coerceBatchInputs arg0 arg1 = coerceBatchInputsFromArgs [arg0; arg1]
  /\ coerceBatchInputs arg0 arg1 <> []
  /\ (arg0 = VArr (x :: l) -> coerceBatchInputs arg0 arg1 = x :: l)
  /\ coerceBatchInputs (VArr []) (VObj [("texts", VArr [x])]) = []
  /\ coerceBatchInputsFromArgs [VArr []; VObj [("texts", VArr [x])]] = [x].
Proof.
  intros H. unfold coerceBatchInputs, coerceBatchInputsFromArgs. cbn [first_some].
  split; [|split; [|split; [|split]]].
  - destruct (nonempty_array arg0) eqn:H0; [reflexivity|].
    destruct (nonempty_array arg1) eqn:H1; [reflexivity|].
    destruct H as [-> | ->]; discriminate.
  - destruct H as [-> | ->]; cbn [nonempty_array]; [discriminate|].
    destruct (nonempty_array arg0) as [a|] eqn:H0; [|discriminate].
    destruct arg0 as [ | | | | | [|y ys] | ]; try discriminate H0.
    cbn in H0. injection H0 as <-. discriminate.
  - now intros ->.
  - reflexivity.
  - reflexivity.
Qed.

Lemma coerceBatchInputs_agrees_witness :
  coerceBatchInputs (VObj [("texts", VArr [VStr "t"])]) (VArr [VStr "a"])
  = coerceBatchInputsFromArgs [VObj [("texts", VArr [VStr "t"])]; VArr [VStr "a"]]
  /\ coerceBatchInputs (VObj [("texts", VArr [VStr "t"])]) (VArr [VStr "a"]) = [VStr "a"].
Proof.
  destruct (coerceBatchInputs_agrees (VObj [("texts", VArr [VStr "t"])]) (VArr [VStr "a"])
              (VStr "a") [] (or_intror eq_refl)) as (H & _).
  split; [exact H | reflexivity].
Defined.

(** ** Reading the batch size again *)

Lemma set_batch_size_same (v : JsVal) (d : ModelData) :
  d_batch_size d = v -> set_batch_size v d = d.
Proof. destruct d; cbn; now intros ->. Qed.

Lemma set_max_batch_size_same (v : JsVal) (d : ModelData) :
  d_max_batch_size d = v -> set_max_batch_size v d = d.
Proof. destruct d; cbn; now intros ->. Qed.

Lemma with_data_fixed {P : Platform} (f : ModelData -> ModelData) (w : World P) (d : ModelData) :
  model_data w = Some d -> f d = d -> with_data f w = w.
Proof.
  unfold with_data, update_data, model_data.
  destruct w as [s c t [[m|] st] e tr]; cbn; [|discriminate].
  destruct m as [md mk mid ms]; cbn. intros -> ->. reflexivity.
Qed.

Lemma saved_model_data {P : Platform} (w : World P) : model_data (saved w) = model_data w.
Proof. unfold model_data. now destruct (saved_frame w) as (_ & _ & _ & -> & _). Qed.

Lemma effective_batch_size_fixed {P : Platform} (w v : World P) :
  settings v = settings w ->
  data_prop v d_batch_size = VNum (effective_batch_size w) ->
  effective_batch_size v = effective_batch_size w.
Proof.
  intros Hs Hb. unfold effective_batch_size at 1. rewrite Hs, Hb. cbn [Number_of].
  unfold effective_batch_size.
  destruct (Number_isFinite (VNum (Number_of (data_prop w d_batch_size)))
            && num_pos (Number_of (data_prop w d_batch_size))) eqn:Hc.
  - now rewrite Hc.
  - destruct (batchSize (settings w)) as [n|].
    + now destruct (Number_isFinite (VNum n) && num_pos n).
    + reflexivity.
Qed.

Lemma effective_batch_size_same {P : Platform} (w v : World P) :
  settings v = settings w ->
  data_prop v d_batch_size = data_prop w d_batch_size ->
  effective_batch_size v = effective_batch_size w.
Proof. intros Hs Hb. unfold effective_batch_size. now rewrite Hs, Hb. Qed.

Lemma saves_saved {P : Platform} (w : World P) (m : Model) :
  model (this w) = Some m -> m_debounce_save m = true -> saves (saved w) = S (saves w).
Proof.
  intros Hm Hs. unfold saved, debounce_save. rewrite Hm, Hs. cbn.
  unfold saves. cbn. rewrite filter_app, length_app. cbn. lia.
Qed.

(** Reading the batch size a second time gives the same number and changes
    nothing in the model, the settings or the cache, and sends nothing; but
    each read of a model that has a data object calls the save hook again,
    although nothing was written. *)
Theorem ensureBatchSize_repeatable {P : Platform} (w w1 : World P) (size : Num) :
  ensureBatchSize w = (w1, Ret size) ->
  exists w2,
    ensureBatchSize w1 = (w2, Ret size)
    /\ w2 = match model_data w1 with Some _ => saved w1 | None => w1 end
    /\ this w2 = this w1
    /\ settings w2 = settings w1
    /\ cachedModels w2 = cachedModels w1
    /\ requests w2 = requests w1
    /\ (forall m, model (this w1) = Some m -> m_data m <> None -> m_debounce_save m = true ->
                  saves w2 = S (saves w1)).
Proof.
  intros H.
  assert (Hgoal : ensureBatchSize w1
                  = (match model_data w1 with Some _ => saved w1 | None => w1 end, Ret size)).
  { revert H. unfold ensureBatchSize.
    destruct (model_data w) as [d|] eqn:Hd.
    - rewrite (bind_Ret _ _ _ _ _ (update_data_run _ _)).
      rewrite (bind_Ret _ _ _ _ _ (update_data_run _ _)).
      rewrite (bind_Ret _ _ _ _ _ (debounce_save_run _)).
      intros [= <- <-].
      set (valid := effective_batch_size w).
      set (fb := fun d => if not_a_size (d_batch_size d) then set_batch_size (VNum valid) d else d).
      set (fm := fun d => if not_a_size (d_max_batch_size d)
                          then set_max_batch_size (VNum valid) d else d).
      set (w1 := saved (with_data fm (with_data fb w))).
      assert (Hd1 : model_data w1 = Some (fm (fb d))).
      { unfold w1. rewrite saved_model_data, !with_data_model_data, Hd. reflexivity. }
      assert (Hs1 : settings w1 = settings w).
      { unfold w1. destruct (saved_frame (with_data fm (with_data fb w))) as (-> & _).
        destruct (with_data_frame fm (with_data fb w)) as (-> & _).
        now destruct (with_data_frame fb w) as (-> & _). }
      assert (Hbm : d_batch_size (fm (fb d)) = d_batch_size (fb d)).
      { unfold fm. now destruct (not_a_size (d_max_batch_size (fb d))). }
      assert (Hb : d_batch_size (fb d)
                   = if not_a_size (d_batch_size d) then VNum valid else d_batch_size d).
      { unfold fb. now destruct (not_a_size (d_batch_size d)). }
      assert (Hv : effective_batch_size w1 = valid).
      { destruct (not_a_size (d_batch_size d)) eqn:Hn.
        - apply effective_batch_size_fixed; [exact Hs1|].
          unfold data_prop. now rewrite Hd1, Hbm, Hb.
        - apply effective_batch_size_same; [exact Hs1|].
          unfold data_prop. now rewrite Hd1, Hd, Hbm, Hb. }
      rewrite Hd1, Hv. fold fb fm.
      assert (Hfb : fb (fm (fb d)) = fm (fb d)).
      { unfold fb at 1. destruct (not_a_size (d_batch_size (fm (fb d)))) eqn:Hn; [|reflexivity].
        apply set_batch_size_same. rewrite Hbm, Hb in *.
        destruct (not_a_size (d_batch_size d)) eqn:Hn0; [reflexivity | congruence]. }
      assert (Hm : d_max_batch_size (fm (fb d))
                   = if not_a_size (d_max_batch_size (fb d)) then VNum valid
                     else d_max_batch_size (fb d)).
      { unfold fm. now destruct (not_a_size (d_max_batch_size (fb d))). }
      assert (Hfm : fm (fm (fb d)) = fm (fb d)).
      { unfold fm at 1. destruct (not_a_size (d_max_batch_size (fm (fb d)))) eqn:Hn; [|reflexivity].
        apply set_max_batch_size_same. rewrite Hm in *.
        destruct (not_a_size (d_max_batch_size (fb d))) eqn:Hn0; [reflexivity | congruence]. }
      rewrite (bind_Ret _ _ _ _ _ (update_data_run _ _)).
      rewrite (with_data_fixed fb w1 _ Hd1 Hfb).
      rewrite (bind_Ret _ _ _ _ _ (update_data_run _ _)).
      rewrite (with_data_fixed fm w1 _ Hd1 Hfm).
      rewrite (bind_Ret _ _ _ _ _ (debounce_save_run _)). reflexivity.
    - intros [= <- <-]. now rewrite Hd. }
  eexists. split; [exact Hgoal|]. split; [reflexivity|].
  destruct (saved_frame w1) as (Hs & Hc & _ & Ht & Hr).
  destruct (model_data w1) as [d1|] eqn:Hd1.
  - repeat split; try assumption. intros m Hm _ Hsave. now apply (saves_saved w1 m).
  - repeat split. intros m Hm Hdata _. unfold model_data in Hd1. rewrite Hm in Hd1. now elim Hdata.
Qed.

Lemma ensureBatchSize_repeatable_witness :
  let w := start (Some (model_with (Some blank_data))) 0 [] in
  let w1 := fst (ensureBatchSize w) in
  let w2 := fst (ensureBatchSize w1) in
  ensureBatchSize w1 = (w2, Ret (Fin 16))
  /\ this w2 = this w1
  /\ saves w1 = 1%nat /\ saves w2 = 2%nat.
Proof.
  intros w w1 w2.
  assert (Hrun : ensureBatchSize w = (w1, Ret (Fin 16))) by (vm_compute; reflexivity).
  destruct (ensureBatchSize_repeatable w w1 (Fin 16) Hrun) as (v & Hv & _ & Ht & _).
  assert (E : v = w2) by (unfold w2; now rewrite Hv).
  rewrite <- E. split; [exact Hv|]. split; [exact Ht|].
  rewrite E. split; vm_compute; reflexivity.
Defined.

(** ** When [embed_batch] ends *)

Lemma halts_ret {P : Platform} {A : Type} (a : A) : halts (@ret P A a).
Proof. intros w w' r [= <- <-]. discriminate. Qed.

Lemma halts_throw {P : Platform} {A : Type} (e : Err) : halts (@throw P A e).
Proof. intros w w' r [= <- <-]. discriminate. Qed.

Lemma halts_lift {P : Platform} {A : Type} (o : Outcome A) :
  o <> Diverge -> halts (@lift P A o).
Proof. intros Ho w w' r [= <- <-]. exact Ho. Qed.

Lemma halts_bind {P : Platform} {A B : Type} (m : M P A) (k : A -> M P B) :
  halts m -> (forall a, halts (k a)) -> halts (bind m k).
Proof.
  intros Hm Hk w w' r. unfold bind.
  destruct (m w) as [w1 [a | e |]] eqn:E; intros H.
  - exact (Hk a _ _ _ H).
  - injection H as <- <-. discriminate.
  - now elim (Hm _ _ _ E).
Qed.

Lemma halts_try_catch {P : Platform} {A : Type} (body : M P A) (handler : Err -> M P A) :
  halts body -> (forall e, halts (handler e)) -> halts (try_catch body handler).
Proof.
  intros Hb Hh w w' r. unfold try_catch.
  destruct (body w) as [w1 [a | e |]] eqn:E; intros H.
  - injection H as <- <-. discriminate.
  - exact (Hh e _ _ _ H).
  - now elim (Hb _ _ _ E).
Qed.

Lemma halts_fetchJson {P : Platform} (urlPath : string) (i : RequestInit) :
  halts (@fetchJson P urlPath i).
Proof. intros w w' r H. now destruct (fetchJson_effect _ _ _ _ _ H) as (_ & _ & _ & _ & _ & Hd). Qed.

Lemma halts_update_data {P : Platform} (f : ModelData -> ModelData) : halts (@update_data P f).
Proof. intros w w' r H. rewrite update_data_run in H. injection H as <- <-. discriminate. Qed.

Lemma halts_debounce_save {P : Platform} : halts (@debounce_save P).
Proof. intros w w' r H. rewrite debounce_save_run in H. injection H as <- <-. discriminate. Qed.

Lemma halts_listModels {P : Platform} (refresh : bool) : halts (@listModels P refresh).
Proof.
  intros w w' r. unfold listModels.
  destruct (cache_fresh refresh w); [intros [= <- <-]; discriminate|].
  apply halts_bind; [apply halts_fetchJson|].
  intros data v v' o [= <- <-]. discriminate.
Qed.

Lemma halts_get_models {P : Platform} (arg : JsVal) : halts (@get_models P arg).
Proof.
  unfold get_models. apply halts_bind; [apply halts_listModels|]. intros listed.
  apply halts_bind; [apply halts_update_data | intros; apply halts_ret].
Qed.

Lemma halts_ensureModelKey {P : Platform} : halts (@ensureModelKey P).
Proof.
  intros w w' r. unfold ensureModelKey.
  destruct (negb _); [intros [= <- <-]; discriminate|].
  apply halts_bind; [apply halts_get_models|].
  intros _ v v' o.
  destruct (String.eqb _ ""); [intros [= <- <-]; discriminate|].
  destruct (model_data v); [|intros [= <- <-]; discriminate].
  apply halts_bind; [apply halts_update_data|].
  intros _. apply halts_bind; [apply halts_debounce_save | intros; apply halts_ret].
Qed.

Lemma halts_embedOne {P : Platform} (k one : string) : halts (@embedOne P k one).
Proof. intros w w' r H. now destruct (embedOne_effect _ _ _ _ _ H) as (_ & _ & Hd). Qed.

Lemma halts_embed_each {P : Platform} (k : string) (group : list string) :
  forall recovered, halts (@embed_each P k group recovered).
Proof.
  induction group as [|one rest IH]; intros recovered; cbn [embed_each].
  - apply halts_ret.
  - apply halts_bind; [apply halts_embedOne | intros v; apply IH].
Qed.

Lemma halts_embed_group {P : Platform} (k : string) (group : list string) (vectors : list Vec) :
  halts (@embed_group P k group vectors).
Proof.
  unfold embed_group.
  assert (Hrec : halts (bind (@embed_each P k group [])
                          (fun recovered => ret (vectors ++ recovered)))).
  { apply halts_bind; [apply halts_embed_each | intros; apply halts_ret]. }
  apply halts_try_catch; [|intros _; exact Hrec].
  apply halts_bind.
  - intros w w' r H. now destruct (batch_request_effect _ _ _ _ _ H) as (_ & _ & Hd).
  - intros embeddings. destruct (negb _); [|apply halts_ret].
    apply halts_bind; [|intros _; exact Hrec].
    intros w w' r [= <- <-]. discriminate.
Qed.

Lemma halts_infer_dims {P : Platform} (vectors : list Vec) : halts (@infer_dims P vectors).
Proof.
  intros w w' r. unfold infer_dims.
  destruct vectors as [|v0 vs]; [intros [= <- <-]; discriminate|].
  destruct (model_data w) as [d|]; [|intros [= <- <-]; discriminate].
  destruct (negb _); [|intros [= <- <-]; discriminate].
  apply halts_bind; [apply halts_update_data | intros _; apply halts_debounce_save].
Qed.

Lemma halts_embed_groups {P : Platform} (k : string) (groups : list (list string)) :
  forall vectors, halts (@embed_groups P k groups vectors).
Proof.
  induction groups as [|g rest IH]; intros vectors; cbn [embed_groups].
  - apply halts_ret.
  - apply halts_bind; [apply halts_embed_group|]. intros vectors'.
    apply halts_bind; [apply halts_infer_dims | intros _; apply IH].
Qed.

Lemma chunk_endless {T : Type} (items : list T) (size : Num) :
  chunk items size = None <-> items <> [] /\ endless_size size = true.
Proof.
  unfold chunk, endless_size. destruct items as [|x items].
  - split; [discriminate | now intros (H & _)].
  - destruct size as [ | | | z]; try (split; [discriminate | now intros (_ & H)]).
    + split; [now split | reflexivity].
    + destruct (Z.ltb_spec 0 z) as [Hp | Hn].
      * replace (z <=? 0) with false by (symmetry; apply Z.leb_gt; lia).
        split; [discriminate | intros (_ & H); discriminate].
      * replace (z <=? 0) with true by (symmetry; apply Z.leb_le; lia).
        split; [now split | reflexivity].
Qed.

Lemma endless_from_settings {P : Platform} (w : World P) :
  endless_size (effective_batch_size w) = true ->
  batchSize (settings w) = Some (effective_batch_size w).
Proof.
  unfold effective_batch_size.
  destruct (Number_of (data_prop w d_batch_size)) as [ | | | z] eqn:Hc; cbn [Number_isFinite andb num_pos].
  1-3: destruct (batchSize (settings w)) as [n|]; [reflexivity | discriminate].
  destruct (Z.ltb_spec 0 z).
  - cbn. destruct (Z.leb_spec z 0); [lia | discriminate].
  - destruct (batchSize (settings w)) as [n|]; [reflexivity | discriminate].
Qed.

Lemma embed_batch_Diverge_inv {P : Platform}
    (args : list JsVal) (w w' : World P) (r : Outcome (list EmbeddingResult)) :
  embed_batch args w = (w', r) ->
  (r = Diverge ->
   coerceBatchInputsFromArgs args <> []
   /\ endless_size (effective_batch_size w) = true
   /\ requests w' = requests (fst (ensureModelKey (fst (ensureBatchSize w)))))
  /\ (coerceBatchInputsFromArgs args <> [] ->
      endless_size (effective_batch_size w) = true ->
      forall k, ensureModelKey (fst (ensureBatchSize w)) = (w', Ret k) ->
      r = Diverge).
Proof.
  intros H.
  revert H. unfold embed_batch.
  destruct (coerceBatchInputsFromArgs args) as [|x coerced] eqn:Hc.
  - cbn. intros [= <- <-]. split; [discriminate | now intros Hne].
  - cbn [List.length Nat.eqb].
    destruct (ensureBatchSize_Ret w) as (w1 & Hsize).
    rewrite (bind_Ret _ _ _ _ _ Hsize). rewrite Hsize. cbn [fst].
    unfold bind at 1.
    destruct (ensureModelKey w1) as [w2 [k | e |]] eqn:Hk.
    + cbn [normalizeBatchInputs map List.length Nat.eqb fst].
      destruct (chunk _ (effective_batch_size w)) as [groups|] eqn:Hch.
      * intros Hrun. split.
        -- intros ->. exfalso. revert Hrun.
           assert (Hrest : halts (bind (@embed_groups P k groups [])
                                    (fun vectors =>
                                       bind (padToLength vectors
                                               (List.length (normalizeItem x
                                                             :: map normalizeItem coerced)))
                                         (fun padded =>
                                            ret (with_tokens
                                                   (normalizeItem x :: map normalizeItem coerced)
                                                   0 padded))))).
           { apply halts_bind; [apply halts_embed_groups|]. intros vectors.
             apply halts_bind; [|intros; apply halts_ret].
             intros v v' o Hp. now destruct (padToLength_effect _ _ _ _ _ Hp). }
           intros Hrun. now elim (Hrest _ _ _ Hrun).
        -- intros _ Hend. exfalso.
           assert (Hnone : chunk (normalizeItem x :: map normalizeItem coerced)
                             (effective_batch_size w) = None)
             by (apply chunk_endless; split; [discriminate | exact Hend]).
           congruence.
      * intros [= <- <-]. split.
        -- intros _. split; [discriminate|]. split; [|reflexivity].
           now apply (proj1 (chunk_endless _ _) Hch).
        -- reflexivity.
    + intros [= <- <-]. split; [discriminate|]. intros _ _ k [= ].
    + now elim (halts_ensureModelKey _ _ _ Hk).
Qed.

(** Whether [embed_batch] ends, for a batch size in force that is an integer
    or not finite.  With a positive integer, [NaN] or [Infinity] the call
    always ends, with a value or an exception.  With zero, a negative integer
    or [-Infinity], and something to embed, the size is the one of the
    settings (a size on the model is used only when it is positive), and
    once a model key is found the call never ends, whatever the server
    would answer: the loop of [chunk] does not advance and no embedding
    request is sent. *)
Theorem embed_batch_ends_by_integer_size {P : Platform}
    (args : list JsVal) (w w' : World P) (r : Outcome (list EmbeddingResult)) :
  embed_batch args w = (w', r) ->
  (forall z, effective_batch_size w = Fin z -> 0 < z -> r <> Diverge)
  /\ (effective_batch_size w = NaN \/ effective_batch_size w = PosInf -> r <> Diverge)
  /\ (coerceBatchInputsFromArgs args <> [] ->
      (exists z, effective_batch_size w = Fin z /\ z <= 0) \/ effective_batch_size w = NegInf ->
      batchSize (settings w) = Some (effective_batch_size w)
      /\ forall k,
           ensureModelKey (fst (ensureBatchSize w)) = (w', Ret k) ->
           r = Diverge
           /\ requests w' = requests (fst (ensureModelKey (fst (ensureBatchSize w))))).
Proof.
  intros H. destruct (embed_batch_Diverge_inv _ _ _ _ H) as (Hd & Hh).
  split; [|split].
  - intros z Hz Hpos Hr. destruct (Hd Hr) as (_ & He & _).
    rewrite Hz in He. cbn in He. destruct (Z.leb_spec z 0); [lia | discriminate].
  - intros Hz Hr. destruct (Hd Hr) as (_ & He & _).
    destruct Hz as [Hz | Hz]; rewrite Hz in He; discriminate.
  - intros Hargs Hsize.
    assert (Hend : endless_size (effective_batch_size w) = true).
    { destruct Hsize as [(z & -> & Hz) | ->]; [|reflexivity].
      cbn. now apply Z.leb_le. }
    split; [now apply endless_from_settings|].
    intros k Hk. pose proof (Hh Hargs Hend k Hk) as Hr. split; [exact Hr|].
    now destruct (Hd Hr) as (_ & _ & Hq).
Qed.

Lemma embed_batch_ends_by_integer_size_witness :
  let zero := {| baseUrl := "http://127.0.0.1:1234"; requestTimeoutMs := None;
                 maxTokens := None; batchSize := Some (Fin 0) |} in
  let w := set_settings (start (Some (model_with (Some (keyed_data "m" VUndefined)))) 0 []) zero in
  snd (embed_batch [VArr [VStr "a"]] w) = Diverge
  /\ requests (fst (embed_batch [VArr [VStr "a"]] w)) = [].
Proof.
  intros zero w.
  assert (Hsize : effective_batch_size w = Fin 0) by reflexivity.
  assert (Hkey : ensureModelKey (fst (ensureBatchSize w))
                 = (fst (embed_batch [VArr [VStr "a"]] w), Ret "m"))
    by (vm_compute; reflexivity).
  assert (Hq : requests (fst (ensureModelKey (fst (ensureBatchSize w)))) = [])
    by (vm_compute; reflexivity).
  destruct (embed_batch_ends_by_integer_size [VArr [VStr "a"]] w _ _
              (surjective_pairing _)) as (_ & _ & Hh).
  destruct (Hh ltac:(discriminate) (or_introl (ex_intro _ 0 (conj Hsize (Z.le_refl 0)))))
    as (_ & Hrun).
  destruct (Hrun "m" Hkey) as (Hr & Hreq).
  split; [exact Hr | now rewrite Hreq].
Defined.

(** ** Dimension inference *)

Lemma preserves_ret {P : Platform} {A X : Type} (f : World P -> X) (a : A) :
  preserves f (@ret P A a).
Proof. now intros w w' r [= <- <-]. Qed.

Lemma preserves_lift {P : Platform} {A X : Type} (f : World P -> X) (o : Outcome A) :
  preserves f (@lift P A o).
Proof. now intros w w' r [= <- <-]. Qed.

Lemma preserves_bind {P : Platform} {A B X : Type} (f : World P -> X)
    (m : M P A) (k : A -> M P B) :
  preserves f m -> (forall a, preserves f (k a)) -> preserves f (bind m k).
Proof.
  intros Hm Hk w w' r. unfold bind.
  destruct (m w) as [w1 [a | e |]] eqn:E; intros H.
  - rewrite (Hk a _ _ _ H). exact (Hm _ _ _ E).
  - injection H as <- <-. exact (Hm _ _ _ E).
  - injection H as <- <-. exact (Hm _ _ _ E).
Qed.

Lemma preserves_try_catch {P : Platform} {A X : Type} (f : World P -> X)
    (body : M P A) (handler : Err -> M P A) :
  preserves f body -> (forall e, preserves f (handler e)) ->
  preserves f (try_catch body handler).
Proof.
  intros Hb Hh w w' r. unfold try_catch.
  destruct (body w) as [w1 [a | e |]] eqn:E; intros H.
  - injection H as <- <-. exact (Hb _ _ _ E).
  - rewrite (Hh e _ _ _ H). exact (Hb _ _ _ E).
  - injection H as <- <-. exact (Hb _ _ _ E).
Qed.

Lemma this_fetchJson {P : Platform} (urlPath : string) (i : RequestInit) :
  preserves (@this P) (fetchJson urlPath i).
Proof. intros w w' r H. now destruct (fetchJson_effect _ _ _ _ _ H) as (_ & _ & _ & Ht & _). Qed.

Lemma this_embedOne {P : Platform} (k one : string) : preserves (@this P) (embedOne k one).
Proof.
  unfold embedOne. apply preserves_bind; [apply this_fetchJson|]. intros data.
  apply preserves_bind; [apply preserves_lift|].
  intros [|v vs]; [|apply preserves_ret]. now intros w w' r [= <- <-].
Qed.

Lemma this_embed_each {P : Platform} (k : string) (group : list string) :
  forall recovered, preserves (@this P) (embed_each k group recovered).
Proof.
  induction group as [|one rest IH]; intros recovered; cbn [embed_each].
  - apply preserves_ret.
  - apply preserves_bind; [apply this_embedOne | intros v; apply IH].
Qed.

Lemma this_embed_group {P : Platform} (k : string) (group : list string) (vectors : list Vec) :
  preserves (@this P) (embed_group k group vectors).
Proof.
  unfold embed_group.
  assert (Hrec : preserves (@this P)
                   (bind (embed_each k group []) (fun recovered => ret (vectors ++ recovered)))).
  { apply preserves_bind; [apply this_embed_each | intros; apply preserves_ret]. }
  apply preserves_try_catch; [|intros _; exact Hrec].
  apply preserves_bind.
  - unfold batch_request. apply preserves_bind; [apply this_fetchJson | intros; apply preserves_lift].
  - intros embeddings. destruct (negb _); [|apply preserves_ret].
    apply preserves_bind; [|intros _; exact Hrec]. now intros w w' r [= <- <-].
Qed.

Lemma dims_of_this {P : Platform} {A : Type} (m : M P A) :
  preserves (@this P) m -> preserves dims_of m.
Proof. intros Hm w w' r H. unfold dims_of, model_data. now rewrite (Hm _ _ _ H). Qed.

Lemma dims_of_update_data {P : Platform} (g : ModelData -> ModelData) :
  (forall d, d_dims (g d) = d_dims d) -> preserves dims_of (@update_data P g).
Proof.
  intros Hg w w' r H. rewrite update_data_run in H. injection H as <- <-.
  unfold dims_of. rewrite with_data_model_data.
  destruct (model_data w) as [d|]; cbn; [now rewrite Hg | reflexivity].
Qed.

Lemma dims_of_debounce_save {P : Platform} : preserves dims_of (@debounce_save P).
Proof.
  apply dims_of_this. intros w w' r H. rewrite debounce_save_run in H.
  injection H as <- <-. now destruct (saved_frame w) as (_ & _ & _ & Ht & _).
Qed.

Lemma dims_of_ensureBatchSize {P : Platform} : preserves dims_of (@ensureBatchSize P).
Proof.
  intros w w' r. unfold ensureBatchSize.
  destruct (model_data w) as [d|]; [|now intros [= <- <-]].
  apply preserves_bind; [|intros _; apply preserves_bind].
  - apply dims_of_update_data. intros d0. now destruct (not_a_size (d_batch_size d0)).
  - apply dims_of_update_data. intros d0. now destruct (not_a_size (d_max_batch_size d0)).
  - intros _. apply preserves_bind; [apply dims_of_debounce_save | intros; apply preserves_ret].
Qed.

Lemma dims_of_ensureModelKey {P : Platform} : preserves dims_of (@ensureModelKey P).
Proof.
  intros w w' r. unfold ensureModelKey.
  destruct (negb _); [now intros [= <- <-]|].
  apply preserves_bind.
  - unfold get_models. apply preserves_bind.
    + apply dims_of_this. intros v v' o H. now destruct (listModels_this _ _ _ _ H).
    + intros listed. apply preserves_bind; [|intros; apply preserves_ret].
      apply dims_of_update_data. intros d. now destruct (provider_models_empty d).
  - intros _ v v' o.
    destruct (String.eqb _ ""); [now intros [= <- <-]|].
    destruct (model_data v); [|now intros [= <- <-]].
    apply preserves_bind; [now apply dims_of_update_data|].
    intros _. apply preserves_bind; [apply dims_of_debounce_save | intros; apply preserves_ret].
Qed.

Lemma infer_dims_run {P : Platform} (vectors : list Vec) (w w' : World P) r (d : JsVal) :
  infer_dims vectors w = (w', r) ->
  dims_of w = Some d ->
  dims_of w'
  = Some (match vectors with
          | v0 :: _ => if Number_isFinite d then d else VNum (Fin (Z.of_nat (List.length v0)))
          | [] => d
          end).
Proof.
  unfold infer_dims, dims_of. destruct vectors as [|v0 vs]; [now intros [= <- <-]|].
  destruct (model_data w) as [d0|] eqn:Hd; [|discriminate]. cbn. intros H [= <-]. revert H.
  destruct (Number_isFinite (d_dims d0)); cbn [negb].
  - intros [= <- <-]. now rewrite Hd.
  - rewrite (bind_Ret _ _ _ _ _ (update_data_run _ _)), debounce_save_run.
    intros [= <- <-]. fold (dims_of (saved (with_data (set_dims (VNum (Fin (Z.of_nat (List.length v0))))) w))).
    rewrite (dims_of_debounce_save _ _ _ (debounce_save_run _)).
    unfold dims_of. rewrite with_data_model_data, Hd. reflexivity.
Qed.

Lemma embed_groups_dims {P : Platform} (k : string) (groups : list (list string)) :
  forall (vectors : list Vec) (w w' : World P) (vs : list Vec) (d : JsVal),
    embed_groups k groups vectors w = (w', Ret vs) ->
    dims_of w = Some d ->
    vectors = [] \/ Number_isFinite d = true ->
    (exists more, vs = vectors ++ more)
    /\ dims_of w'
       = Some (if Number_isFinite d then d
               else match vs with
                    | v0 :: _ => VNum (Fin (Z.of_nat (List.length v0)))
                    | [] => d
                    end).
Proof.
  induction groups as [|g rest IH]; intros vectors w w' vs d; cbn [embed_groups].
  - intros [= <- <-] Hd Hinv. split; [exists []; now rewrite app_nil_r|].
    rewrite Hd. destruct (Number_isFinite d) eqn:Hf; [reflexivity|].
    destruct Hinv as [-> | Hinv]; [reflexivity | discriminate].
  - intros H Hd Hinv.
    apply bind_Ret_inv in H. destruct H as (w1 & vectors1 & Hg & H).
    apply bind_Ret_inv in H. destruct H as (w2 & [] & Hi & H).
    destruct (embed_group_Ret _ _ _ _ _ _ Hg) as (added & -> & _).
    assert (Hd1 : dims_of w1 = Some d).
    { rewrite (dims_of_this _ (this_embed_group k g vectors) _ _ _ Hg). exact Hd. }
    pose proof (infer_dims_run _ _ _ _ _ Hi Hd1) as Hd2.
    destruct (IH _ _ _ _ _ H Hd2) as ((more & ->) & Hd').
    { destruct (vectors ++ added) as [|v0 tl]; [now left | right].
      now destruct (Number_isFinite d) eqn:Hf. }
    split; [exists (added ++ more); now rewrite app_assoc|].
    rewrite Hd'. f_equal.
    destruct (vectors ++ added) as [|v0 tl] eqn:Hva; cbn [app].
    + reflexivity.
    + destruct (Number_isFinite d) eqn:Hf; [now rewrite Hf | reflexivity].
Qed.

(** [embed_batch] fills in the model's [dims] once and never corrects it:
    when the call returns results for a model that has a data object, a
    finite [dims] is left as it was, whatever the width of the vectors
    received, and any other value is replaced by the width of the first
    vector of the result; [dims] is finite afterwards. *)
Theorem embed_batch_infers_dims_once {P : Platform}
    (args : list JsVal) (w w' : World P) (r0 : EmbeddingResult) (rest : list EmbeddingResult)
    (d : ModelData) :
  embed_batch args w = (w', Ret (r0 :: rest)) ->
  model_data w = Some d ->
  effective_batch_size w <> NaN ->
  exists d',
    model_data w' = Some d'
    /\ d_dims d' = (if Number_isFinite (d_dims d) then d_dims d
                    else VNum (Fin (Z.of_nat (List.length (vec r0)))))
    /\ Number_isFinite (d_dims d') = true.
Proof.
  intros H Hd Hsize.
  destruct (embed_batch_Ret_inv _ _ _ _ H) as [(_ & Hnil & _) | Hrun]; [discriminate|].
  destruct Hrun as (wa & wb & k & groups & vectors & Hb & Hk & Hch & Hg & padded & Hp & Hrs).
  assert (Hdb : dims_of wb = Some (d_dims d)).
  { rewrite (dims_of_ensureModelKey _ _ _ Hk), (dims_of_ensureBatchSize _ _ _ Hb).
    unfold dims_of. now rewrite Hd. }
  destruct (embed_groups_dims _ _ _ _ _ _ _ Hg Hdb (or_introl eq_refl)) as (_ & Hd').
  destruct (embed_groups_Ret _ _ _ _ _ _ Hg) as (vss & Hv & Hlen).
  cbn [app] in Hv.
  assert (Hn : List.length vectors
               = List.length (normalizeBatchInputs (coerceBatchInputsFromArgs args))).
  { rewrite Hv, (concat_lengths _ _ Hlen). now rewrite (chunk_partitions _ _ _ Hch Hsize). }
  rewrite <- Hn, padToLength_exact in Hp. injection Hp as <-.
  assert (Hvec : map vec (r0 :: rest) = vectors) by (rewrite Hrs; apply with_tokens_vec).
  destruct vectors as [|v0 tl]; [discriminate|]. injection Hvec as Hv0 _.
  unfold dims_of in Hd'. destruct (model_data w') as [d'|]; [|discriminate].
  injection Hd' as Hd'. exists d'. split; [reflexivity|]. rewrite Hd', Hv0.
  split; [reflexivity|]. now destruct (Number_isFinite (d_dims d)) eqn:Hf.
Qed.

Lemma embed_batch_infers_dims_once_witness :
  let w := echo_start (Some (model_with (Some (keyed_data "m" (VNum (Fin 2)))))) in
  let w' := fst (embed_batch [VArr [VStr "a"; VStr "b"; VStr "c"]] w) in
  option_map d_dims (model_data w) = Some VUndefined
  /\ option_map d_dims (model_data w') = Some (VNum (Fin 1)).
Proof.
  intros w w'.
  assert (Hrun : exists r0 rest, embed_batch [VArr [VStr "a"; VStr "b"; VStr "c"]] w
                                 = (w', Ret (r0 :: rest)) /\ List.length (vec r0) = 1%nat).
  { eexists; eexists. split; vm_compute; reflexivity. }
  destruct Hrun as (r0 & rest & Hrun & Hlen).
  destruct (embed_batch_infers_dims_once _ w w' r0 rest _ Hrun eq_refl ltac:(discriminate))
    as (d' & Hd' & Hdims & _).
  split; [reflexivity|]. rewrite Hd'. cbn [option_map]. rewrite Hdims, Hlen. reflexivity.
Defined.

(** ** Single-text entry points *)

(** [embed_query] embeds exactly one item, its argument as it is: when it
    returns, the result is always an embedding with the token estimate of the
    normalized argument, never the empty fallback.  For an argument that is
    not an array it does what [embed] does; an array argument is not spread
    but read as one item without text, so its content is ignored and the
    single space is embedded. *)
Theorem embed_query_single_item {P : Platform}
    (text : JsVal) (w w' : World P) (r : EmbedReturn) :
  embed_query text w = (w', Ret r) ->
  (exists v, r = Item {| vec := v; tokens := estimateTokens (normalizeItem text) |})
  /\ ((forall l, text <> VArr l) -> embed text w = (w', Ret r))
  /\ (forall l, text = VArr l ->
                normalizeItem text = " " /\ embed_query (VStr " ") w = (w', Ret r)).
Proof.
  unfold embed_query. intros H.
  apply bind_Ret_inv in H. destruct H as (w1 & rs & Hb & [= <- <-]).
  destruct (embed_batch_returns_aligned _ _ _ _ Hb) as (Hlen & Htok & _).
  destruct rs as [|r0 [|r1 rs]]; try discriminate. cbn in Htok. injection Htok as Htok.
  split; [|split].
  - exists (vec r0). cbn. destruct r0 as [v t]. cbn in *. now rewrite Htok.
  - intros Hna. unfold embed.
    assert (Hin : match text with VArr _ => text | _ => VArr [text] end = VArr [text]).
    { destruct text; try reflexivity. now elim (Hna l). }
    rewrite Hin. now rewrite (bind_Ret _ _ _ _ _ Hb).
  - intros l ->. split; [reflexivity|].
    assert (Hsame : embed_batch [VArr [VStr " "]] w = embed_batch [VArr [VArr l]] w) by reflexivity.
    unfold bind. now rewrite Hsame, Hb.
Qed.

Lemma embed_query_single_item_witness :
  let w := echo_start (Some (model_with (Some (keyed_data "m" (VNum (Fin 2)))))) in
  let r := Item {| vec := [VStr " "]; tokens := 1 |} in
  snd (embed_query (VArr [VStr "ignored"]) w) = Ret r
  /\ snd (embed_query (VStr " ") w) = Ret r.
Proof.
  intros w r.
  assert (Hrun : embed_query (VArr [VStr "ignored"]) w
                 = (fst (embed_query (VArr [VStr "ignored"]) w), Ret r))
    by (vm_compute; reflexivity).
  clearbody w.
  destruct (embed_query_single_item _ _ _ _ Hrun) as (_ & _ & Harr).
  destruct (Harr _ eq_refl) as (_ & Hq).
  split.
  - exact (f_equal snd Hrun).
  - exact (f_equal snd Hq).
Defined.

(** ** Requests of a batch that the server answers in full *)

Lemma chunk_from_length {T : Type} (items : list T) (size fuel : nat) :
  (0 < size)%nat ->
  forall i, (List.length items <= i + fuel)%nat ->
            List.length (chunk_from fuel items size i)
            = ((List.length items - i + size - 1) / size)%nat.
Proof.
  intros Hsize. induction fuel as [|fuel IH]; intros i Hlen; cbn [chunk_from].
  - replace (List.length items - i + size - 1)%nat with (size - 1)%nat by lia.
    cbn. symmetry. apply Nat.div_small. lia.
  - destruct (Nat.ltb_spec i (List.length items)) as [Hlt | Hge].
    + cbn [List.length]. rewrite IH by lia.
      destruct (Nat.le_gt_cases size (List.length items - i)) as [Hfull | Hpart].
      * replace (List.length items - i + size - 1)%nat
          with ((List.length items - (i + size) + size - 1) + 1 * size)%nat by lia.
        rewrite Nat.div_add by lia. lia.
      * replace (List.length items - (i + size) + size - 1)%nat with (size - 1)%nat by lia.
        rewrite (Nat.div_small (size - 1)) by lia.
        replace (List.length items - i + size - 1)%nat
          with ((List.length items - i - 1) + 1 * size)%nat by lia.
        rewrite Nat.div_add by lia. rewrite Nat.div_small by lia. reflexivity.
    + replace (List.length items - i + size - 1)%nat with (size - 1)%nat by lia.
      cbn. symmetry. apply Nat.div_small. lia.
Qed.

Lemma chunk_length {T : Type} (items : list T) (z : Z) (groups : list (list T)) :
  0 < z ->
  chunk items (Fin z) = Some groups ->
  List.length groups = ((List.length items + Z.to_nat z - 1) / Z.to_nat z)%nat.
Proof.
  intros Hz. unfold chunk. destruct items as [|x items].
  - intros [= <-]. cbn [List.length]. symmetry. apply Nat.div_small. lia.
  - destruct (Z.ltb_spec 0 z); [|lia]. intros Hch.
    assert (E : groups = chunk_from (List.length (x :: items)) (x :: items) (Z.to_nat z) 0)
      by congruence.
    rewrite E.
    rewrite (chunk_from_length (x :: items) (Z.to_nat z) (List.length (x :: items))) by lia.
    now rewrite Nat.sub_0_r.
Qed.

Lemma requests_update_data {P : Platform} (g : ModelData -> ModelData) :
  preserves (fun w : World P => (requests w, settings w)) (update_data g).
Proof.
  intros w w' r H. rewrite update_data_run in H. injection H as <- <-.
  destruct (with_data_frame g w) as (-> & _ & _ & Ht). unfold requests. now rewrite Ht.
Qed.

Lemma requests_debounce_save {P : Platform} :
  preserves (fun w : World P => (requests w, settings w)) debounce_save.
Proof.
  intros w w' r H. rewrite debounce_save_run in H. injection H as <- <-.
  now destruct (saved_frame w) as (-> & _ & _ & _ & ->).
Qed.

Lemma requests_infer_dims {P : Platform} (vectors : list Vec) :
  preserves (fun w : World P => (requests w, settings w)) (infer_dims vectors).
Proof.
  intros w w' r. unfold infer_dims.
  destruct vectors as [|v0 vs]; [now intros [= <- <-]|].
  destruct (model_data w) as [d|]; [|now intros [= <- <-]].
  destruct (negb _); [|now intros [= <- <-]].
  intros H.
  exact (preserves_bind (fun v : World P => (requests v, settings v)) _ _
           (requests_update_data _) (fun _ => requests_debounce_save) _ _ _ H).
Qed.

Lemma embed_groups_answered_in_full {P : Platform} (k : string) (groups : list (list string)) :
  (forall g (v : World P),
      exists v' vs, batch_request k g v = (v', Ret vs) /\ List.length vs = List.length g) ->
  forall (vectors : list Vec) (w : World P),
  exists w' vs,
    embed_groups k groups vectors w = (w', Ret vs)
    /\ settings w' = settings w
    /\ requests w'
       = requests w
         ++ map (fun g => embeddings_request (settings w) k (VArr (map VStr g))) groups.
Proof.
  intros Hserver. induction groups as [|g rest IH]; intros vectors w; cbn [embed_groups map].
  - exists w, vectors. split; [reflexivity|]. split; [reflexivity | now rewrite app_nil_r].
  - destruct (Hserver g w) as (w1 & vs & Hb & Hlen).
    destruct (batch_request_effect _ _ _ _ _ Hb) as (Hr1 & Hs1 & _).
    assert (Hg : embed_group k g vectors w
                 = (w1, Ret (vectors ++ firstn (List.length g) vs))).
    { unfold embed_group, try_catch. rewrite (bind_Ret _ _ _ _ _ Hb).
      now rewrite Hlen, Nat.eqb_refl. }
    rewrite (bind_Ret _ _ _ _ _ Hg).
    destruct (infer_dims_returns (vectors ++ firstn (List.length g) vs) w1) as (w2 & Hi).
    pose proof (requests_infer_dims _ _ _ _ Hi) as Hq. injection Hq as Hr2 Hs2.
    rewrite (bind_Ret _ _ _ _ _ Hi).
    destruct (IH (vectors ++ firstn (List.length g) vs) w2) as (w' & out & Hrun & Hs & Hr).
    exists w', out. split; [exact Hrun|]. split; [congruence|].
    rewrite Hr, Hr2, Hr1, Hs2, Hs1, <- app_assoc. reflexivity.
Qed.

(** When the server answers every batch request with one vector per text,
    [embed_batch] returns and, once the model key is known, sends one request
    per group and nothing else: for [n] texts and a positive integer batch
    size [z] that is [n / z] requests, rounded up. *)
Theorem embed_batch_one_request_per_group {P : Platform}
    (args : list JsVal) (w wa wb : World P) (z : Z) (k : string) :
  (forall g (v : World P),
      exists v' vs, batch_request k g v = (v', Ret vs) /\ List.length vs = List.length g) ->
  coerceBatchInputsFromArgs args <> [] ->
  ensureBatchSize w = (wa, Ret (Fin z)) ->
  0 < z ->
  ensureModelKey wa = (wb, Ret k) ->
  exists w' rs groups,
    embed_batch args w = (w', Ret rs)
    /\ chunk (normalizeBatchInputs (coerceBatchInputsFromArgs args)) (Fin z) = Some groups
    /\ requests w'
       = requests wb
         ++ map (fun g => embeddings_request (settings wb) k (VArr (map VStr g))) groups
    /\ List.length groups
       = ((List.length (coerceBatchInputsFromArgs args) + Z.to_nat z - 1) / Z.to_nat z)%nat.
Proof.
  intros Hserver Hargs Hsize Hz Hkey.
  destruct (chunk_positive (normalizeBatchInputs (coerceBatchInputsFromArgs args)) z Hz)
    as (groups & Hch).
  destruct (embed_groups_answered_in_full k groups Hserver [] wb) as (w' & vs & Hrun & _ & Hr).
  rewrite (embed_batch_runs_groups _ _ _ _ _ _ _ Hargs Hsize Hkey Hch).
  rewrite (bind_Ret _ _ _ _ _ Hrun).
  assert (Hn : List.length vs
               = List.length (normalizeBatchInputs (coerceBatchInputsFromArgs args))).
  { destruct (embed_groups_Ret _ _ _ _ _ _ Hrun) as (vss & -> & Hlen). cbn [app].
    rewrite (concat_lengths _ _ Hlen).
    now rewrite (chunk_partitions _ _ _ Hch) by discriminate. }
  unfold finish_batch. rewrite <- Hn.
  rewrite (bind_Ret _ _ _ _ _ (padToLength_exact w' vs)).
  eexists w', _, groups. split; [reflexivity|]. split; [exact Hch|]. split; [exact Hr|].
  rewrite (chunk_length _ _ _ Hz Hch). unfold normalizeBatchInputs. now rewrite length_map.
Qed.

Lemma full_batch_request (k : string) (g : list string) (v : World full) :
  exists v' vs, batch_request k g v = (v', Ret vs) /\ List.length vs = List.length g.
Proof.
  assert (Hcollect : forall n out,
             collect_embeddings (tallied (tally n)) out
             = Ret (out ++ repeat [VNum (Fin 0)] n)).
  { induction n as [|n IHn]; intros out; cbn.
    - now rewrite app_nil_r.
    - rewrite IHn, <- app_assoc. reflexivity. }
  unfold batch_request, createEmbeddings, fetchJson, bind, lift. cbn.
  rewrite length_map.
  destruct g as [|one g]; cbn.
  - eexists _, []. split; reflexivity.
  - eexists _, _. split; [unfold extractEmbeddings, data_array; cbn; rewrite Hcollect; reflexivity|].
    cbn. now rewrite repeat_length.
Qed.

Lemma embed_batch_one_request_per_group_witness :
  let w := full_start (Some (model_with (Some (keyed_data "m" (VNum (Fin 2)))))) in
  let texts := [VStr "a"; VStr "b"; VStr "c"; VStr "d"; VStr "e"] in
  let w' := fst (embed_batch [VArr texts] w) in
  requests w'
  = map (fun g => embeddings_request (settings w) "m" (VArr (map VStr g)))
      [["a"; "b"]; ["c"; "d"]; ["e"]]
  /\ List.length (requests w') = ((5 + 2 - 1) / 2)%nat.
Proof.
  intros w texts w'.
  destruct (embed_batch_one_request_per_group [VArr texts] w
              (fst (ensureBatchSize w)) (fst (ensureBatchSize w)) 2 "m"
              (full_batch_request "m") ltac:(discriminate)
              ltac:(vm_compute; reflexivity) eq_refl ltac:(vm_compute; reflexivity))
    as (v & rs & groups & Hrun & Hch & Hr & Hn).
  assert (E : w' = v) by (unfold w'; now rewrite Hrun).
  vm_compute in Hch. injection Hch as <-.
  rewrite E, Hr. split; [reflexivity|].
  rewrite length_app, length_map. reflexivity.
Defined.

(** ** The settings tab *)

Lemma clamped_bound {P : Platform} (floor z0 : Z) (value : string) :
  floor <= z0 ->
  exists z, clamped (P := P) floor (Some (Fin z0)) value = Some (Fin z) /\ floor <= z.
Proof.
  intros Hz. unfold clamped. destruct (StringToNumber P value) as [ | | | z]; eauto.
  exists (Z.max floor z). split; [reflexivity | lia].
Qed.

Lemma onChange_tab_settings {P : Platform} (f : Field) (value : string) (s : LmStudioSettings) :
  tab_settings s -> tab_settings (onChange (P := P) f value s).
Proof.
  intros (Hb & Ht & Hr & Hm & Hs). unfold tab_settings.
  destruct f; cbn; repeat split; try assumption.
  - destruct (String.eqb_spec (trim value) ""); [discriminate | assumption].
  - destruct (String.eqb_spec (trim value) ""); [reflexivity | apply trim_idempotent].
  - apply clamped_bound. lia.
  - apply clamped_bound. lia.
  - apply clamped_bound. lia.
Qed.

Lemma applySettings_run {P : Platform} (s : LmStudioSettings) (w : World P) :
  applySettings s w = (set_settings w s, Ret tt).
Proof. unfold applySettings, setLmStudioSettings. cbn. now destruct s. Qed.

(** Starting from the defaults, whatever is typed into the four fields of
    the settings tab, in any order, the settings stay usable: the address is
    trimmed and not empty, the timeout is at least 5000, the token limit at
    least 16 and the batch size at least 1.  An edit of a field repairs that
    field whatever it held before.  Applied to the module, such settings
    replace the module's own entirely.  A call of [embed_batch] then ends
    when the model carries no positive finite batch size of its own (the size
    in force is the one of the settings) and when it carries a positive
    integer (which is then the size in force); a positive size on the model
    that is not an integer is not covered. *)
Theorem settings_tab_keeps_settings_usable {P : Platform}
    (edits : list (Field * string)) :
  let s := edited (P := P) edits DEFAULT_SETTINGS in
  tab_settings s
  /\ (forall s0 value,
         exists z, batchSize (onChange (P := P) BatchSizeField value s0) = Some (Fin z)
                   /\ 1 <= z)
  /\ exists zs,
       batchSize s = Some (Fin zs) /\ 1 <= zs
       /\ forall w : World P,
           applySettings s w = (set_settings w s, Ret tt)
           /\ settings (set_settings w s) = s
           /\ forall args w' r,
                embed_batch args (set_settings w s) = (w', r) ->
                let candidate := Number_of (P := P) (data_prop w d_batch_size) in
                (Number_isFinite (VNum candidate) && num_pos candidate = false ->
                 effective_batch_size (set_settings w s) = Fin zs /\ r <> Diverge)
                /\ (forall z, candidate = Fin z -> 0 < z ->
                    effective_batch_size (set_settings w s) = Fin z /\ r <> Diverge).
Proof.
  intros s.
  assert (Hs : tab_settings s).
  { unfold s, edited.
    assert (H0 : tab_settings DEFAULT_SETTINGS).
    { unfold tab_settings. cbn. repeat split; try discriminate; eexists; split; try reflexivity; lia. }
    revert H0. generalize DEFAULT_SETTINGS.
    induction edits as [|[f value] rest IH]; intros s0 H0; cbn [fold_left]; [exact H0|].
    apply IH. now apply onChange_tab_settings. }
  split; [exact Hs|]. split.
  - intros s0 value. cbn. apply clamped_bound. lia.
  - destruct Hs as (_ & _ & _ & _ & zs & Hzs & Hpos).
    exists zs. split; [exact Hzs|]. split; [exact Hpos|].
    intros w. split; [apply applySettings_run|]. split; [reflexivity|].
    intros args w' r H candidate.
    assert (Hends : forall z, effective_batch_size (set_settings w s) = Fin z -> 0 < z ->
                              r <> Diverge).
    { intros z Hz Hz0 Hr.
      destruct (embed_batch_Diverge_inv _ _ _ _ H) as (Hd & _).
      destruct (Hd Hr) as (_ & Hend & _).
      rewrite Hz in Hend. cbn in Hend. destruct (Z.leb_spec z 0); [lia | discriminate]. }
    split.
    + intros Hc.
      assert (Hsize : effective_batch_size (set_settings w s) = Fin zs).
      { unfold effective_batch_size. cbn [settings set_settings].
        change (Number_of (data_prop (set_settings w s) d_batch_size)) with candidate.
        now rewrite Hc, Hzs. }
      split; [exact Hsize|]. apply (Hends zs Hsize). lia.
    + intros z Hc Hz.
      assert (Hsize : effective_batch_size (set_settings w s) = Fin z).
      { unfold effective_batch_size.
        change (Number_of (data_prop (set_settings w s) d_batch_size)) with candidate.
        rewrite Hc. cbn. now replace (0 <? z) with true by (symmetry; apply Z.ltb_lt; lia). }
      split; [exact Hsize|]. now apply (Hends z Hsize).
Qed.

Lemma settings_tab_keeps_settings_usable_witness :
  let edits := [(BatchSizeField, "0"); (BaseUrlField, "   ");
                (TimeoutField, "12"); (MaxTokensField, "many")] in
  let s := edited (P := scripted) edits DEFAULT_SETTINGS in
  let w := start (Some (model_with (Some (keyed_data "m" (VNum (Fin 0)))))) 0
             [ok_reply "one vector"] in
  s = {| baseUrl := "http://127.0.0.1:1234"; requestTimeoutMs := Some (Fin 5000);
         maxTokens := Some (Fin 512); batchSize := Some (Fin 1) |}
  /\ effective_batch_size (set_settings w s) = Fin 1
  /\ snd (embed_batch [VArr [VStr "hello"]] (set_settings w s)) <> Diverge.
Proof.
  intros edits s w.
  assert (Hs : s = {| baseUrl := "http://127.0.0.1:1234"; requestTimeoutMs := Some (Fin 5000);
                      maxTokens := Some (Fin 512); batchSize := Some (Fin 1) |})
    by (vm_compute; reflexivity).
  destruct (@settings_tab_keeps_settings_usable scripted edits) as (_ & _ & zs & Hzs & _ & Hw).
  fold s in Hzs, Hw.
  assert (E : zs = 1) by (rewrite Hs in Hzs; now injection Hzs).
  destruct (Hw w) as (_ & _ & Hrun).
  destruct (Hrun [VArr [VStr "hello"]] _ _ (surjective_pairing _)) as (Hnone & _).
  destruct (Hnone eq_refl) as (Hsize & Hr).
  split; [exact Hs|]. split; [now rewrite Hsize, E | exact Hr].
Defined.

(** A change of settings leaves the cached catalog alone.  After a refresh
    that returned a catalog, [setLmStudioSettings] replaces each of the four
    settings it is given and keeps the others, and changes nothing else of
    the module: the cached catalog, its time stamp, the adapter and the
    trace stay.  The cached entries still carry the token and batch defaults
    of the settings in force when the list was fetched, and while that
    catalog is not empty and less than 15 seconds old [listModels] goes on
    returning it without asking the server. *)
Theorem setLmStudioSettings_keeps_catalog {P : Platform}
    (refresh : bool) (next : PartialSettings) (w w1 : World P) (cat : Catalog) :
  cache_fresh refresh w = false ->
  listModels refresh w = (w1, Ret cat) ->
  exists w2,
    setLmStudioSettings next w1 = (w2, Ret tt)
    /\ baseUrl (settings w2)
       = match next_baseUrl next with Some u => u | None => baseUrl (settings w) end
    /\ requestTimeoutMs (settings w2)
       = match next_requestTimeoutMs next with
         | Some n => n
         | None => requestTimeoutMs (settings w)
         end
    /\ maxTokens (settings w2)
       = match next_maxTokens next with Some n => n | None => maxTokens (settings w) end
    /\ batchSize (settings w2)
       = match next_batchSize next with Some n => n | None => batchSize (settings w) end
    /\ cachedModels w2 = cat
    /\ lastFetchedAt w2 = Date_now P (env w)
    /\ this w2 = this w1
    /\ env w2 = env w1
    /\ trace w2 = trace w1
    /\ (forall k cfg,
           In (k, cfg) (cachedModels w2) ->
           cfg = model_entry (settings w) k
           /\ pm_max_tokens cfg = maxTokens (settings w)
           /\ pm_batch_size cfg = batchSize (settings w))
    /\ (cat <> [] ->
        forall later : Env P,
          Date_now P later - Date_now P (env w) < 15000 ->
          listModels false (set_env w2 later) = (set_env w2 later, Ret cat)).
Proof.
  intros Hstale Hrun.
  assert (Hw1 : settings w1 = settings w /\ cachedModels w1 = cat
                /\ lastFetchedAt w1 = Date_now P (env w)
                /\ forall k cfg, In (k, cfg) cat -> cfg = model_entry (settings w) k).
  { destruct (fetchJson "/v1/models" no_init w) as [v [data | e |]] eqn:Hf.
    - rewrite (listModels_refreshed _ _ _ _ Hstale Hf) in Hrun. injection Hrun as <- <-.
      destruct (fetchJson_effect _ _ _ _ _ Hf) as (Hs & _). cbn.
      split; [exact Hs|]. split; [reflexivity|]. split; [reflexivity|].
      intros k cfg Hin. rewrite Hs in Hin.
      destruct (catalog_of_invariant (settings w) (data_array data) []
                  ltac:(constructor) ltac:(intros k0 cfg0 [])) as (_ & H2 & _).
      now destruct (H2 k cfg Hin).
    - rewrite (listModels_failed _ _ _ _ Hstale Hf) in Hrun. discriminate.
    - destruct (fetchJson_effect _ _ _ _ _ Hf) as (_ & _ & _ & _ & _ & Hd). now elim Hd. }
  destruct Hw1 as (Hs & Hcat & Hstamp & Hentries).
  eexists. split; [reflexivity|]. cbn [settings set_settings baseUrl requestTimeoutMs maxTokens
                                       batchSize cachedModels lastFetchedAt this env trace].
  rewrite Hs. unfold spread.
  split; [reflexivity|]. split; [reflexivity|]. split; [reflexivity|]. split; [reflexivity|].
  split; [exact Hcat|]. split; [exact Hstamp|].
  split; [reflexivity|]. split; [reflexivity|]. split; [reflexivity|].
  split.
  - intros k cfg Hin. rewrite Hcat in Hin. rewrite (Hentries k cfg Hin).
    split; [reflexivity|]. split; reflexivity.
  - intros Hne later Hlater.
    match goal with |- listModels false ?v = _ =>
      assert (Hfresh : cache_fresh false v = true)
    end.
    { unfold cache_fresh. cbn [negb andb set_env set_settings env lastFetchedAt cachedModels].
      rewrite Hstamp, Hcat, Object_keys_length.
      replace (Date_now P later - Date_now P (env w) <? 15000) with true
        by (symmetry; apply Z.ltb_lt; lia).
      destruct cat; [now elim Hne | reflexivity]. }
    rewrite (listModels_cached false _ Hfresh). cbn [cachedModels set_env set_settings].
    now rewrite Hcat.
Qed.

Lemma setLmStudioSettings_keeps_catalog_witness :
  let w := start None 100 [ok_reply "two models"] in
  let w1 := fst (listModels true w) in
  let next := {| next_baseUrl := None; next_requestTimeoutMs := None;
                 next_maxTokens := Some (Some (Fin 64));
                 next_batchSize := Some (Some (Fin 4)) |} in
  let w2 := fst (setLmStudioSettings next w1) in
  let later := set_env w2 {| clock := 5000; replies := [] |} in
  settings w2 = {| baseUrl := "http://127.0.0.1:1234"; requestTimeoutMs := Some (Fin 120000);
                   maxTokens := Some (Fin 64); batchSize := Some (Fin 4) |}
  /\ map fst (cachedModels w2) = ["nomic-embed"; "bge-small"]
  /\ map (fun e => pm_batch_size (snd e)) (cachedModels w2) = [Some (Fin 16); Some (Fin 16)]
  /\ map (fun e => pm_max_tokens (snd e)) (cachedModels w2) = [Some (Fin 512); Some (Fin 512)]
  /\ listModels false later = (later, Ret (cachedModels w2))
  /\ requests (fst (listModels false later)) = requests w1.
Proof.
  intros w w1 next w2 later.
  assert (Hrun : listModels true w = (w1, Ret (cachedModels w1))) by (vm_compute; reflexivity).
  assert (Hkeys : map fst (cachedModels w1) = ["nomic-embed"; "bge-small"])
    by (vm_compute; reflexivity).
  assert (Hb : map (fun e => pm_batch_size (snd e)) (cachedModels w1)
               = [Some (Fin 16); Some (Fin 16)]) by (vm_compute; reflexivity).
  assert (Ht : map (fun e => pm_max_tokens (snd e)) (cachedModels w1)
               = [Some (Fin 512); Some (Fin 512)]) by (vm_compute; reflexivity).
  assert (Hset : settings w2 = {| baseUrl := "http://127.0.0.1:1234";
                                  requestTimeoutMs := Some (Fin 120000);
                                  maxTokens := Some (Fin 64); batchSize := Some (Fin 4) |})
    by (vm_compute; reflexivity).
  assert (Hreq : requests later = requests w1) by (vm_compute; reflexivity).
  assert (Hne : cachedModels w1 <> []).
  { intros E. rewrite E in Hkeys. discriminate. }
  destruct (setLmStudioSettings_keeps_catalog true next w w1 _ eq_refl Hrun)
    as (v2 & Hv2 & _ & _ & _ & _ & Hcat & _ & _ & _ & Htrace & _ & Hlater).
  assert (E : w2 = v2) by (unfold w2; now rewrite Hv2).
  pose proof (Hlater Hne {| clock := 5000; replies := [] |} ltac:(vm_compute; reflexivity))
    as Hkept.
  rewrite <- E in Hcat, Htrace, Hkept. fold later in Hkept.
  clearbody w1 w2 later.
  rewrite Hcat. split; [exact Hset|]. split; [exact Hkeys|]. split; [exact Hb|].
  split; [exact Ht|]. split; [exact Hkept|].
  rewrite Hkept. exact Hreq.
Defined.

(** ** What [embed_batch] sends *)

Lemma sends_ret {P : Platform} {A : Type} s allowed (a : A) : sends s allowed (@ret P A a).
Proof.
  intros w w' r Hs [= <- <-]. split; [exact Hs|]. exists []. now rewrite app_nil_r.
Qed.

Lemma sends_quiet {P : Platform} {A : Type} s allowed (m : M P A) :
  preserves (fun w : World P => (requests w, settings w)) m -> sends s allowed m.
Proof.
  intros Hm w w' r Hs H. pose proof (Hm _ _ _ H) as E. injection E as Hr Hs'.
  split; [congruence|]. exists []. now rewrite app_nil_r.
Qed.

Lemma sends_bind {P : Platform} {A B : Type} s allowed (m : M P A) (k : A -> M P B) :
  sends s allowed m -> (forall a, sends s allowed (k a)) -> sends s allowed (bind m k).
Proof.
  intros Hm Hk w w' r Hs. unfold bind.
  destruct (m w) as [w1 [a | e |]] eqn:E; intros H;
    destruct (Hm _ _ _ Hs E) as (Hs1 & sent1 & Hr1 & Ha1).
  - destruct (Hk a _ _ _ Hs1 H) as (Hs2 & sent2 & Hr2 & Ha2).
    split; [exact Hs2|]. exists (sent1 ++ sent2).
    split; [now rewrite Hr2, Hr1, app_assoc | now apply Forall_app].
  - injection H as <- <-. eauto.
  - injection H as <- <-. eauto.
Qed.

Lemma sends_try_catch {P : Platform} {A : Type} s allowed (body : M P A) (handler : Err -> M P A) :
  sends s allowed body -> (forall e, sends s allowed (handler e)) ->
  sends s allowed (try_catch body handler).
Proof.
  intros Hb Hh w w' r Hs. unfold try_catch.
  destruct (body w) as [w1 [a | e |]] eqn:E; intros H;
    destruct (Hb _ _ _ Hs E) as (Hs1 & sent1 & Hr1 & Ha1).
  - injection H as <- <-. eauto.
  - destruct (Hh e _ _ _ Hs1 H) as (Hs2 & sent2 & Hr2 & Ha2).
    split; [exact Hs2|]. exists (sent1 ++ sent2).
    split; [now rewrite Hr2, Hr1, app_assoc | now apply Forall_app].
  - injection H as <- <-. eauto.
Qed.

Lemma sends_createEmbeddings {P : Platform} s (allowed : Request -> Prop) (k : string)
    (input : JsVal) :
  allowed (embeddings_request s k input) -> sends s allowed (@createEmbeddings P k input).
Proof.
  intros Ha w w' r Hs H. destruct (createEmbeddings_effect _ _ _ _ _ H) as (Hr & Hs' & _).
  split; [congruence|]. exists [embeddings_request s k input].
  split; [now rewrite Hr, Hs | now constructor].
Qed.

Lemma sends_lifted {P : Platform} {A B : Type} s allowed (m : M P A) (f : A -> Outcome B) :
  sends s allowed m -> sends s allowed (bind m (fun a => lift (f a))).
Proof.
  intros Hm. apply sends_bind; [exact Hm|]. intros a.
  apply sends_quiet. now intros w w' r [= <- <-].
Qed.

Lemma sends_embedOne {P : Platform} s (allowed : Request -> Prop) (k one : string) :
  allowed (embeddings_request s k (VStr one)) -> sends s allowed (@embedOne P k one).
Proof.
  intros Ha. unfold embedOne. apply sends_bind; [now apply sends_createEmbeddings|].
  intros data. apply sends_quiet. intros w w' r. unfold bind, lift.
  destruct (extractEmbeddings data) as [[|v vs] | e |]; now intros [= <- <-].
Qed.

Lemma sends_embed_each {P : Platform} s (allowed : Request -> Prop) (k : string)
    (group : list string) :
  (forall t, In t group -> allowed (embeddings_request s k (VStr t))) ->
  forall recovered, sends s allowed (@embed_each P k group recovered).
Proof.
  induction group as [|one rest IH]; intros Ha recovered; cbn [embed_each].
  - apply sends_ret.
  - apply sends_bind; [apply sends_embedOne; apply Ha; now left|].
    intros v. apply IH. intros t Ht. apply Ha. now right.
Qed.

Lemma sends_embed_group {P : Platform} s (allowed : Request -> Prop) (k : string)
    (group : list string) (vectors : list Vec) :
  allowed (embeddings_request s k (VArr (map VStr group))) ->
  (forall t, In t group -> allowed (embeddings_request s k (VStr t))) ->
  sends s allowed (@embed_group P k group vectors).
Proof.
  intros Hb Ha. unfold embed_group.
  assert (Hrec : sends s allowed
                   (bind (@embed_each P k group [])
                      (fun recovered => ret (vectors ++ recovered)))).
  { apply sends_bind; [now apply sends_embed_each | intros; apply sends_ret]. }
  apply sends_try_catch; [|intros _; exact Hrec].
  apply sends_bind.
  - unfold batch_request. apply sends_lifted. now apply sends_createEmbeddings.
  - intros embeddings. destruct (negb _); [|apply sends_ret].
    apply sends_bind; [|intros _; exact Hrec].
    apply sends_quiet. intros w w' r [= <- <-]. unfold requests. cbn.
    rewrite flat_map_app. cbn. now rewrite app_nil_r.
Qed.

Lemma sends_embed_groups {P : Platform} s (allowed : Request -> Prop) (k : string)
    (groups : list (list string)) :
  (forall g, In g groups ->
             allowed (embeddings_request s k (VArr (map VStr g)))
             /\ forall t, In t g -> allowed (embeddings_request s k (VStr t))) ->
  forall vectors, sends s allowed (@embed_groups P k groups vectors).
Proof.
  induction groups as [|g rest IH]; intros Ha vectors; cbn [embed_groups].
  - apply sends_ret.
  - destruct (Ha g (or_introl eq_refl)) as (Hb & Hone).
    apply sends_bind; [now apply sends_embed_group|]. intros vectors'.
    apply sends_bind; [apply sends_quiet, requests_infer_dims|].
    intros _. apply IH. intros g' Hg'. apply Ha. now right.
Qed.

Lemma chunk_members {T : Type} (items : list T) (size : Num) (groups : list (list T)) :
  chunk items size = Some groups ->
  forall g t, In g groups -> In t g -> In t items.
Proof.
  intros Hch g t Hg Ht.
  destruct size as [ | | | z] eqn:Hsize.
  - unfold chunk in Hch. destruct items; injection Hch as <-; [now elim Hg|].
    destruct Hg as [<- | []]. now elim Ht.
  - rewrite <- (chunk_partitions _ _ _ Hch ltac:(discriminate)).
    apply in_concat. eauto.
  - rewrite <- (chunk_partitions _ _ _ Hch ltac:(discriminate)).
    apply in_concat. eauto.
  - rewrite <- (chunk_partitions _ _ _ Hch ltac:(discriminate)).
    apply in_concat. eauto.
Qed.

(** Once the model key is resolved, [embed_batch] talks to the embeddings
    endpoint only, for that key, and what it sends is always taken from the
    normalized texts: a single text or a list of them, never an empty string
    and never an item as the caller gave it.  This holds whether the call
    returns, throws, or falls back to single requests. *)
Theorem embed_batch_sends_only_normalized_texts {P : Platform}
    (args : list JsVal) (w wa wb w' : World P) (size : Num) (k : string)
    (r : Outcome (list EmbeddingResult)) :
  coerceBatchInputsFromArgs args <> [] ->
  ensureBatchSize w = (wa, Ret size) ->
  ensureModelKey wa = (wb, Ret k) ->
  embed_batch args w = (w', r) ->
  settings w' = settings wb
  /\ exists sent,
       requests w' = requests wb ++ sent
       /\ Forall (sends_texts (settings wb) k
                    (normalizeBatchInputs (coerceBatchInputsFromArgs args))) sent.
Proof.
  intros Hargs Hsize Hkey. unfold embed_batch.
  destruct (coerceBatchInputsFromArgs args) as [|x coerced] eqn:Hc; [now elim Hargs|].
  cbn [List.length Nat.eqb]. rewrite (bind_Ret _ _ _ _ _ Hsize), (bind_Ret _ _ _ _ _ Hkey).
  set (normalized := normalizeBatchInputs (x :: coerced)).
  assert (Hne : forall t, In t normalized -> t <> "").
  { intros t Ht. unfold normalized, normalizeBatchInputs in Ht.
    apply in_map_iff in Ht. destruct Ht as (item & <- & _).
    apply normalizeItem_shape. }
  cbn [normalizeBatchInputs map List.length Nat.eqb].
  fold (normalizeBatchInputs (x :: coerced)). fold normalized.
  change (normalizeItem x :: map normalizeItem coerced) with normalized.
  destruct (chunk normalized size) as [groups|] eqn:Hch.
  - intros H.
    refine (sends_bind (settings wb) _ _ _ _ _ wb w' r eq_refl H).
    + apply sends_embed_groups. intros g Hg. split.
      * exists (VArr (map VStr g)). split; [reflexivity | right]. exists g.
        split; [reflexivity|]. intros t Ht.
        pose proof (chunk_members _ _ _ Hch g t Hg Ht) as Hin. split; [exact Hin | now apply Hne].
      * intros t Ht. exists (VStr t). split; [reflexivity | left]. exists t.
        pose proof (chunk_members _ _ _ Hch g t Hg Ht) as Hin.
        split; [reflexivity|]. split; [exact Hin | now apply Hne].
    + intros vectors. apply sends_quiet. intros v v' o. unfold bind.
      destruct (padToLength vectors (List.length normalized) v) as [v1 [padded | e |]] eqn:Hp;
        destruct (padToLength_effect _ _ _ _ _ Hp) as (-> & _); now intros [= <- <-].
  - intros [= <- <-]. split; [reflexivity|]. exists []. now rewrite app_nil_r.
Qed.

Lemma embed_batch_sends_only_normalized_texts_witness :
  let items := [VStr "  hello "; VObj [("text", VStr "")]] in
  let w := start (Some (model_with (Some (keyed_data "m" (VNum (Fin 2))))))
             100 [error_reply 500 "busy"; ok_reply "one vector"; ok_reply "another vector"] in
  let w' := fst (embed_batch [VArr items] w) in
  requests w'
  = [ embeddings_request (settings w) "m" (VArr [VStr "hello"; VStr " "]);
      embeddings_request (settings w) "m" (VStr "hello");
      embeddings_request (settings w) "m" (VStr " ") ]
  /\ Forall (sends_texts (settings w) "m" ["hello"; " "]) (requests w').
Proof.
  intros items w w'.
  assert (Hreq : requests w'
                 = [ embeddings_request (settings w) "m" (VArr [VStr "hello"; VStr " "]);
                     embeddings_request (settings w) "m" (VStr "hello");
                     embeddings_request (settings w) "m" (VStr " ") ])
    by (vm_compute; reflexivity).
  assert (Hsize : ensureBatchSize w = (fst (ensureBatchSize w), Ret (Fin 2)))
    by (vm_compute; reflexivity).
  assert (Hkey : ensureModelKey (fst (ensureBatchSize w)) = (fst (ensureBatchSize w), Ret "m"))
    by (vm_compute; reflexivity).
  assert (Hq : requests (fst (ensureBatchSize w)) = []) by (vm_compute; reflexivity).
  assert (Hs : settings (fst (ensureBatchSize w)) = settings w) by (vm_compute; reflexivity).
  assert (Hn : normalizeBatchInputs (coerceBatchInputsFromArgs [VArr items]) = ["hello"; " "])
    by (vm_compute; reflexivity).
  destruct (embed_batch_sends_only_normalized_texts [VArr items] w _ _ w' (Fin 2) "m" _
              ltac:(discriminate) Hsize Hkey (surjective_pairing _))
    as (_ & sent & Hsent & Hall).
  rewrite Hq in Hsent. cbn [app] in Hsent. rewrite Hs, Hn in Hall.
  split; [exact Hreq|]. rewrite Hsent. exact Hall.
Defined.

(** ** A batch size that is not a number *)

Lemma requests_log {P : Platform} (ev : Event) (w : World P) :
  (forall req, ev <> Fetched req) -> requests (emit w ev) = requests w.
Proof.
  intros Hev. unfold requests. cbn. rewrite flat_map_app. cbn.
  destruct ev as [req | | expected got]; [now elim (Hev req) | |]; cbn; now rewrite app_nil_r.
Qed.

Lemma embed_group_empty {P : Platform} (k : string) (vectors : list Vec) (w w' : World P)
    (r : Outcome (list Vec)) :
  embed_group k [] vectors w = (w', r) ->
  r = Ret vectors
  /\ requests w' = requests w ++ [embeddings_request (settings w) k (VArr [])]
  /\ this w' = this w.
Proof.
  intros H. pose proof (this_embed_group _ _ _ _ _ _ H) as Ht. revert H.
  unfold embed_group, try_catch. unfold bind at 1.
  destruct (batch_request k [] w) as [w1 [vs | e |]] eqn:Hb;
    destruct (batch_request_effect _ _ _ _ _ Hb) as (Hr & _ & Hd).
  - destruct (negb _).
    + cbn. intros [= <- <-]. rewrite app_nil_r. split; [reflexivity|]. split; [|exact Ht].
      rewrite requests_log by discriminate. exact Hr.
    + cbn. intros [= <- <-]. rewrite app_nil_r. now split.
  - cbn. intros [= <- <-]. rewrite app_nil_r. now split.
  - now elim Hd.
Qed.

(** With a batch size that is [NaN], no text reaches the server: the only
    request carries an empty list and its answer is ignored whatever it is.
    Every input then gets a vector of zeros, of the width of the model's
    [dims] when that is finite and of 1536 otherwise, and the call returns
    one result per input with the token estimates of the texts; unless that
    width is [2^32] or more, in which case the call throws a [RangeError]. *)
Theorem embed_batch_nan_size_sends_no_text {P : Platform}
    (args : list JsVal) (w wa wb : World P) (k : string) :
  coerceBatchInputsFromArgs args <> [] ->
  ensureBatchSize w = (wa, Ret NaN) ->
  ensureModelKey wa = (wb, Ret k) ->
  exists w',
    fst (embed_batch args w) = w'
    /\ requests w' = requests wb ++ [embeddings_request (settings wb) k (VArr [])]
    /\ this w' = this wb
    /\ (pad_dims w' [] < 2 ^ 32 ->
        exists rs,
          embed_batch args w = (w', Ret rs)
          /\ map vec rs
             = repeat (zero_vector (pad_dims w' []))
                 (List.length (coerceBatchInputsFromArgs args))
          /\ map tokens rs
             = map estimateTokens (normalizeBatchInputs (coerceBatchInputsFromArgs args)))
    /\ (2 ^ 32 <= pad_dims w' [] -> embed_batch args w = (w', Throw RangeError)).
Proof.
  intros Hargs Hsize Hkey.
  assert (Hch : chunk (normalizeBatchInputs (coerceBatchInputsFromArgs args)) NaN = Some [[]]).
  { destruct (coerceBatchInputsFromArgs args); [now elim Hargs | reflexivity]. }
  rewrite (embed_batch_runs_groups _ _ _ _ _ _ _ Hargs Hsize Hkey Hch).
  cbn [embed_groups].
  destruct (embed_group k [] [] wb) as [w1 r1] eqn:Hg.
  destruct (embed_group_empty _ _ _ _ _ Hg) as (-> & Hr & Ht).
  assert (Hrun : bind (bind (embed_group k [] [])
                         (fun vectors' => bind (infer_dims vectors')
                                            (fun _ => ret vectors')))
                   (finish_batch (normalizeBatchInputs (coerceBatchInputsFromArgs args))) wb
                 = finish_batch (normalizeBatchInputs (coerceBatchInputsFromArgs args)) [] w1).
  { unfold bind at 1. unfold bind at 1. rewrite Hg. reflexivity. }
  rewrite Hrun. clear Hrun. unfold finish_batch.
  assert (Hlen : (0 < List.length (normalizeBatchInputs (coerceBatchInputsFromArgs args)))%nat).
  { unfold normalizeBatchInputs. rewrite length_map.
    destruct (coerceBatchInputsFromArgs args); [now elim Hargs | cbn; lia]. }
  exists w1. split.
  { unfold bind.
    destruct (padToLength [] _ w1) as [w2 [padded | e |]] eqn:Hp;
      now destruct (padToLength_effect _ _ _ _ _ Hp) as (-> & _). }
  split; [exact Hr|]. split; [exact Ht|]. split.
  - intros Hd.
    assert (Hp : padToLength [] (List.length (normalizeBatchInputs
                                                (coerceBatchInputsFromArgs args))) w1
                 = (w1, Ret (repeat (zero_vector (pad_dims w1 []))
                               (List.length (normalizeBatchInputs
                                               (coerceBatchInputsFromArgs args)))))).
    { unfold padToLength. cbn [List.length app].
      destruct (Nat.leb_spec (List.length (normalizeBatchInputs
                                             (coerceBatchInputsFromArgs args))) 0); [lia|].
      destruct (Z.leb_spec (2 ^ 32) (pad_dims w1 [])); [lia|]. now rewrite Nat.sub_0_r. }
    rewrite (bind_Ret _ _ _ _ _ Hp). eexists. split; [reflexivity|]. split.
    + rewrite with_tokens_vec. unfold normalizeBatchInputs. now rewrite length_map.
    + apply with_tokens_aligned. apply repeat_length.
  - intros Hd. apply bind_Throw. unfold padToLength. cbn [List.length].
    destruct (Nat.leb_spec (List.length (normalizeBatchInputs
                                           (coerceBatchInputsFromArgs args))) 0); [lia|].
    destruct (Z.leb_spec (2 ^ 32) (pad_dims w1 [])); [reflexivity | lia].
Qed.

Lemma embed_batch_nan_size_sends_no_text_witness :
  let nan := {| baseUrl := "http://127.0.0.1:1234"; requestTimeoutMs := None;
                maxTokens := None; batchSize := Some NaN |} in
  let w := set_settings (echo_start (Some (model_with (Some (keyed_data "m" VUndefined))))) nan in
  let out := embed_batch [VArr [VStr "a"; VStr "b"]] w in
  map (fun r => List.length (vec r)) match snd out with Ret rs => rs | _ => [] end
  = [1536%nat; 1536%nat]
  /\ requests (fst out) = [embeddings_request nan "m" (VArr [])].
Proof.
  intros nan w out.
  assert (Hsize : ensureBatchSize w = (fst (ensureBatchSize w), Ret NaN))
    by (vm_compute; reflexivity).
  assert (Hkey : ensureModelKey (fst (ensureBatchSize w)) = (fst (ensureBatchSize w), Ret "m"))
    by (vm_compute; reflexivity).
  assert (Hq : requests (fst (ensureBatchSize w)) = []) by (vm_compute; reflexivity).
  assert (Hs : settings (fst (ensureBatchSize w)) = nan) by (vm_compute; reflexivity).
  assert (Hd : pad_dims (fst out) [] = 1536) by (vm_compute; reflexivity).
  destruct (embed_batch_nan_size_sends_no_text [VArr [VStr "a"; VStr "b"]] w _ _ "m"
              ltac:(discriminate) Hsize Hkey) as (w' & Hw & Hr & _ & Hok & _).
  fold out in Hw. subst w'. rewrite Hd in Hok.
  destruct (Hok eq_refl) as (rs & Hrun & Hv & _).
  split.
  - unfold out at 1. rewrite Hrun. cbn [snd].
    rewrite <- (map_map vec (@List.length JsVal)), Hv. reflexivity.
  - now rewrite Hr, Hq, Hs.
Defined.

(** ** Calls without any input *)

(** When the arguments hold no input list, [embed_batch] returns the empty
    list at once: nothing is sent and the model is not touched, not even its
    batch size.  So [embed_documents] gives no result for a bare string,
    which [embed] would embed. *)
Theorem embed_batch_without_input_is_idle {P : Platform} (args : list JsVal) (w : World P) :
  coerceBatchInputsFromArgs args = [] ->
  embed_batch args w = (w, Ret [])
  /\ (forall a, args = [a] -> embed_documents a w = (w, Ret []))
  /\ (forall s, embed_documents (VStr s) w = (w, Ret [])
                /\ coerceBatchInputsFromArgs [embed_inputs (VStr s)] = [VStr s]).
Proof.
  intros H. assert (Hrun : embed_batch args w = (w, Ret [])).
  { unfold embed_batch. now rewrite H. }
  split; [exact Hrun|]. split.
  - intros a ->. exact Hrun.
  - intros s. split; reflexivity.
Qed.

Lemma embed_batch_without_input_is_idle_witness :
  let w := start (Some (model_with (Some blank_data))) 0 [] in
  embed_batch [VObj [("texts", VArr [])]; VNum (Fin 3)] w = (w, Ret [])
  /\ embed_documents (VStr "hello") w = (w, Ret []).
Proof.
  intros w.
  destruct (embed_batch_without_input_is_idle [VObj [("texts", VArr [])]; VNum (Fin 3)] w eq_refl)
    as (H1 & _ & H3).
  split; [exact H1 | exact (proj1 (H3 "hello"))].
Defined.

(** A response with status 200 whose body cannot be read. *)

(** ** The round of one group inside [embed_batch] *)

Lemma embed_batch_at_group {P : Platform}
    (args : list JsVal) (w wa wb wg : World P) (size : Num) (k : string)
    (pre post : list (list string)) (group : list string) (acc : list Vec) :
  coerceBatchInputsFromArgs args <> [] ->
  ensureBatchSize w = (wa, Ret size) ->
  ensureModelKey wa = (wb, Ret k) ->
  chunk (normalizeBatchInputs (coerceBatchInputsFromArgs args)) size
  = Some (pre ++ group :: post) ->
  embed_groups k pre [] wb = (wg, Ret acc) ->
  embed_batch args w
  = bind (embed_group k group acc)
      (rest_of_batch k (normalizeBatchInputs (coerceBatchInputsFromArgs args)) post) wg.
Proof.
  intros Hargs Hsize Hkey Hchunk Hpre.
  rewrite (embed_batch_runs_groups _ _ _ _ _ _ _ Hargs Hsize Hkey Hchunk).
  unfold bind at 1. rewrite embed_groups_app, (bind_Ret _ _ _ _ _ Hpre).
  cbn [embed_groups]. unfold rest_of_batch, bind.
  destruct (embed_group k group acc wg) as [w1 [vectors | e |]]; [|reflexivity..].
  destruct (infer_dims vectors w1) as [w2 [[] | e |]]; [|reflexivity..].
  destruct (embed_groups k post vectors w2) as [w3 [vs | e |]]; reflexivity.
Qed.

Lemma embed_group_miscount {P : Platform} (k : string) (group : list string)
    (vectors : list Vec) (w w1 : World P) (embeddings : list Vec) :
  batch_request k group w = (w1, Ret embeddings) ->
  List.length embeddings <> List.length group ->
  embed_group k group vectors w
  = try_catch (bind (embed_each k group []) (fun recovered => ret (vectors ++ recovered)))
      (fun _ => bind (embed_each k group []) (fun recovered => ret (vectors ++ recovered)))
      (emit w1 (Logged (List.length group) (List.length embeddings))).
Proof.
  intros Hb Hne. unfold embed_group, try_catch. rewrite (bind_Ret _ _ _ _ _ Hb).
  destruct (Nat.eqb_spec (List.length embeddings) (List.length group)) as [|_];
    [contradiction|].
  cbn [negb]. unfold log. unfold bind at 1. reflexivity.
Qed.

Lemma embed_group_batch_failed {P : Platform} (k : string) (group : list string)
    (vectors : list Vec) (w w1 : World P) (e : Err) :
  batch_request k group w = (w1, Throw e) ->
  embed_group k group vectors w
  = bind (embed_each k group []) (fun recovered => ret (vectors ++ recovered)) w1.
Proof. intros Hb. unfold embed_group, try_catch. now rewrite (bind_Throw _ _ _ _ _ Hb). Qed.

Lemma requests_logged {P : Platform} (w : World P) (expected got : nat) :
  requests (emit w (Logged expected got)) = requests w.
Proof. unfold requests. cbn. rewrite flat_map_app. cbn. now rewrite app_nil_r. Qed.

Lemma embed_each_sent {P : Platform} (k : string) (group : list string) :
  forall (recovered : list Vec) (w w' : World P) (r : Outcome (list Vec)),
    embed_each k group recovered w = (w', r) ->
    settings w' = settings w /\ exists sent, requests w' = requests w ++ sent.
Proof.
  induction group as [|one rest IH]; intros recovered w w' r; cbn [embed_each].
  - intros [= <- <-]. split; [reflexivity|]. exists []. now rewrite app_nil_r.
  - unfold bind. destruct (embedOne k one w) as [w1 [v | e |]] eqn:Ho;
      destruct (embedOne_effect _ _ _ _ _ Ho) as (Hr1 & Hs1 & _).
    + intros H. destruct (IH _ _ _ _ H) as (Hs & sent & Hr).
      split; [congruence|]. eexists. now rewrite Hr, Hr1, <- app_assoc.
    + intros [= <- <-]. split; [exact Hs1|]. eexists. exact Hr1.
    + intros [= <- <-]. split; [exact Hs1|]. eexists. exact Hr1.
Qed.

(** Where the vectors of a round end up: when the rest of the batch returns
    and the batch size is a number, the result holds the vectors the rounds
    have left so far, in their places. *)
Lemma rest_of_batch_keeps {P : Platform} (k : string) (normalized : list string)
    (size : Num) (pre post : list (list string)) (group : list string)
    (acc recovered : list Vec) (wb wg v w' : World P) (rs : list EmbeddingResult) :
  chunk normalized size = Some (pre ++ group :: post) ->
  size <> NaN ->
  embed_groups k pre [] wb = (wg, Ret acc) ->
  List.length recovered = List.length group ->
  rest_of_batch k normalized post (acc ++ recovered) v = (w', Ret rs) ->
  List.length rs = List.length normalized
  /\ exists more, map vec rs = acc ++ recovered ++ more.
Proof.
  intros Hch Hsize Hpre Hlen Hrun. unfold rest_of_batch in Hrun.
  apply bind_Ret_inv in Hrun. destruct Hrun as (w1 & [] & _ & Hrun).
  apply bind_Ret_inv in Hrun. destruct Hrun as (w2 & vs & Hg & Hrun).
  unfold finish_batch in Hrun.
  apply bind_Ret_inv in Hrun. destruct Hrun as (w3 & padded & Hp & Hrun).
  injection Hrun as <- <-.
  destruct (embed_groups_Ret _ _ _ _ _ _ Hg) as (vss & -> & Hall).
  destruct (embed_groups_Ret _ _ _ _ _ _ Hpre) as (vss0 & Hacc & Hall0). cbn [app] in Hacc.
  assert (Hn : List.length ((acc ++ recovered) ++ List.concat vss) = List.length normalized).
  { rewrite <- (chunk_partitions _ _ _ Hch Hsize).
    rewrite concat_app. cbn [List.concat]. rewrite !length_app.
    rewrite (concat_lengths _ _ Hall), Hacc, (concat_lengths _ _ Hall0). lia. }
  rewrite <- Hn, padToLength_exact in Hp. injection Hp as _ <-.
  rewrite with_tokens_vec. split.
  - rewrite <- (length_map vec), with_tokens_vec. exact Hn.
  - exists (List.concat vss). now rewrite app_assoc.
Qed.

(** ** Recovery from a count mismatch *)

(** C3 (as amended): when the batch request of the group that [embed_batch]
    has reached is answered with a number of vectors other than the number
    of texts, the answer is logged and set aside and the per-item loop runs:
    one request per text of the group, in the group's order.  When every one
    of them is answered, the vectors of the loop are the group's vectors, one
    per text, and [embed_batch] goes on from there with the other groups.
    When one of them fails, the loop is run once more for the whole group
    from the first text; [embed_batch] goes on with the vectors of this
    second pass, or fails with its error. *)
Theorem count_mismatch_reembeds_group {P : Platform}
    (args : list JsVal) (w wa wb wg w1 : World P) (size : Num) (k : string)
    (pre post : list (list string)) (group : list string) (acc embeddings : list Vec) :
  coerceBatchInputsFromArgs args <> [] ->
  ensureBatchSize w = (wa, Ret size) ->
  ensureModelKey wa = (wb, Ret k) ->
  chunk (normalizeBatchInputs (coerceBatchInputsFromArgs args)) size
  = Some (pre ++ group :: post) ->
  embed_groups k pre [] wb = (wg, Ret acc) ->
  batch_request k group wg = (w1, Ret embeddings) ->
  List.length embeddings <> List.length group ->
  let normalized := normalizeBatchInputs (coerceBatchInputsFromArgs args) in
  let logged := emit w1 (Logged (List.length group) (List.length embeddings)) in
  let batch := embeddings_request (settings wg) k (VArr (map VStr group)) in
  let single := fun one => embeddings_request (settings wg) k (VStr one) in
  (forall w2 recovered,
      embed_each k group [] logged = (w2, Ret recovered) ->
      embed_batch args w = rest_of_batch k normalized post (acc ++ recovered) w2
      /\ List.length recovered = List.length group
      /\ requests w2 = requests wg ++ batch :: map single group
      /\ (forall w' rs,
             embed_batch args w = (w', Ret rs) -> size <> NaN ->
             List.length rs = List.length (coerceBatchInputsFromArgs args)
             /\ exists more, map vec rs = acc ++ recovered ++ more))
  /\ (forall w2 e,
         embed_each k group [] logged = (w2, Throw e) ->
         (exists sent, requests w2 = requests wg ++ batch :: sent)
         /\ (forall w3 recovered,
                embed_each k group [] w2 = (w3, Ret recovered) ->
                embed_batch args w = rest_of_batch k normalized post (acc ++ recovered) w3
                /\ List.length recovered = List.length group
                /\ requests w3 = requests w2 ++ map single group)
         /\ (forall w3 e2,
                embed_each k group [] w2 = (w3, Throw e2) ->
                embed_batch args w = (w3, Throw e2))).
Proof.
  intros Hargs Hsize Hkey Hchunk Hpre Hb Hne normalized logged batch single.
  pose proof (embed_batch_at_group _ _ _ _ _ _ _ _ _ _ _ Hargs Hsize Hkey Hchunk Hpre) as Hat.
  fold normalized in Hat.
  pose proof (embed_group_miscount k group acc wg w1 embeddings Hb Hne) as Hg.
  fold logged in Hg.
  destruct (batch_request_effect _ _ _ _ _ Hb) as (Hrb & Hsb & _).
  assert (Hlogged : requests logged = requests wg ++ [batch]).
  { unfold logged. now rewrite requests_logged. }
  assert (Hslog : settings logged = settings wg) by exact Hsb.
  split.
  - intros w2 recovered He.
    assert (Hgroup : embed_group k group acc wg = (w2, Ret (acc ++ recovered))).
    { rewrite Hg. unfold try_catch. now rewrite (bind_Ret _ _ _ _ _ He). }
    assert (Hrun : embed_batch args w = rest_of_batch k normalized post (acc ++ recovered) w2).
    { rewrite Hat. now rewrite (bind_Ret _ _ _ _ _ Hgroup). }
    destruct (embed_each_Ret _ _ _ _ _ _ He) as (vs & Hvs & Hlen). cbn in Hvs. subst vs.
    destruct (embed_each_requests _ _ _ _ _ _ He) as (Hr & _).
    split; [exact Hrun|]. split; [exact Hlen|]. split.
    + rewrite Hr, Hlogged, Hslog, <- app_assoc. reflexivity.
    + intros w' rs Hret Hnan. rewrite Hrun in Hret.
      destruct (rest_of_batch_keeps _ _ _ _ _ _ _ _ _ _ _ _ _ Hchunk Hnan Hpre Hlen Hret)
        as (Hn & Hmore).
      split; [|exact Hmore]. rewrite Hn. unfold normalized, normalizeBatchInputs.
      apply length_map.
  - intros w2 e He.
    assert (Hgroup : embed_group k group acc wg
                     = bind (embed_each k group []) (fun recovered => ret (acc ++ recovered)) w2).
    { rewrite Hg. unfold try_catch. now rewrite (bind_Throw _ _ _ _ _ He). }
    split; [|split].
    + destruct (embed_each_sent _ _ _ _ _ _ He) as (_ & sent & Hr).
      exists sent. now rewrite Hr, Hlogged, <- app_assoc.
    + intros w3 recovered He2.
      assert (Hs2 : settings w2 = settings wg).
      { destruct (embed_each_sent _ _ _ _ _ _ He) as (Hs & _). now rewrite Hs. }
      destruct (embed_each_Ret _ _ _ _ _ _ He2) as (vs & Hvs & Hlen). cbn in Hvs. subst vs.
      destruct (embed_each_requests _ _ _ _ _ _ He2) as (Hr & _).
      split; [|split; [exact Hlen | now rewrite Hr, Hs2]].
      rewrite Hat. unfold bind at 1. rewrite Hgroup. now rewrite (bind_Ret _ _ _ _ _ He2).
    + intros w3 e2 He2. rewrite Hat. apply bind_Throw. rewrite Hgroup.
      now apply bind_Throw.
Qed.

Lemma count_mismatch_reembeds_group_witness :
  let items := [VStr "hello"; VObj [("text", VStr "world")]; VObj [("embed_input", VStr "  ")]] in
  let m := Some (model_with (Some (keyed_data "m" (VNum (Fin 2))))) in
  let w := start m 100
             [ok_reply "two vectors"; ok_reply "two vectors"; ok_reply "third vector"] in
  let out := embed_batch [VArr items] w in
  snd out = Ret [ {| vec := vector_of [1; 1]; tokens := 2 |};
                  {| vec := vector_of [2; 2]; tokens := 2 |};
                  {| vec := vector_of [9; 9]; tokens := 1 |} ]
  /\ map (fun r => option_map (fun b => prop b "input") (body (init r))) (requests (fst out))
     = [ Some (VArr [VStr "hello"; VStr "world"]); Some (VArr [VStr " "]); Some (VStr " ") ].
Proof.
  intros items m w out.
  pose (wa := fst (ensureBatchSize w)).
  pose (wb := fst (ensureModelKey wa)).
  pose (wg := fst (embed_groups "m" [["hello"; "world"]] [] wb)).
  pose (w1 := fst (batch_request "m" [" "] wg)).
  pose (acc := [vector_of [1; 1]; vector_of [2; 2]]).
  destruct (count_mismatch_reembeds_group [VArr items] w wa wb wg w1 (Fin 2) "m"
              [["hello"; "world"]] [] [" "] acc [vector_of [1; 1]; vector_of [2; 2]]
              ltac:(discriminate) ltac:(vm_compute; reflexivity)
              ltac:(vm_compute; reflexivity) ltac:(vm_compute; reflexivity)
              ltac:(vm_compute; reflexivity) ltac:(vm_compute; reflexivity)
              ltac:(cbn; lia))
    as (Hok & _).
  destruct (Hok (fst (embed_each "m" [" "] [] (emit w1 (Logged 1 2)))) [vector_of [9; 9]]
              ltac:(vm_compute; reflexivity))
    as (Hrun & _ & Hreq & _).
  assert (Hrest : rest_of_batch "m"
                    (normalizeBatchInputs (coerceBatchInputsFromArgs [VArr items])) []
                    (acc ++ [vector_of [9; 9]])
                    (fst (embed_each "m" [" "] [] (emit w1 (Logged 1 2))))
                  = (fst out,
                     Ret [ {| vec := vector_of [1; 1]; tokens := 2 |};
                           {| vec := vector_of [2; 2]; tokens := 2 |};
                           {| vec := vector_of [9; 9]; tokens := 1 |} ]))
    by (vm_compute; reflexivity).
  split.
  - unfold out. rewrite Hrun. exact (f_equal snd Hrest).
  - vm_compute. reflexivity.
Defined.

(** C3 (as stated) fails: the batch request for two texts is answered with
    three vectors and the first request of the per-item loop fails; the loop
    is run again, so the first text is requested twice and the group's
    requests are not one per text. *)
Lemma count_mismatch_counterexample :
  let m := Some (model_with (Some (keyed_data "m" (VNum (Fin 2))))) in
  let w := start m 100
             [ok_reply "three vectors"; error_reply 500 "busy";
              ok_reply "one vector"; ok_reply "another vector"] in
  let out := embed_batch [VArr [VStr "hello"; VStr "world"]] w in
  snd out = Ret [ {| vec := vector_of [7; 7]; tokens := 2 |};
                  {| vec := vector_of [8; 8]; tokens := 2 |} ]
  /\ map (fun r => option_map (fun b => prop b "input") (body (init r))) (requests (fst out))
     = [ Some (VArr [VStr "hello"; VStr "world"]);
         Some (VStr "hello"); Some (VStr "hello"); Some (VStr "world") ].
Proof. cbv zeta. split; vm_compute; reflexivity. Qed.

(** ** Fallback after a failed batch request *)

Lemma batch_request_blank {P : Platform} (k : string) (group : list string) (w : World P)
    (e' : Env P) (res : Response) :
  fetch P (env w) (embeddings_request (settings w) k (VArr (map VStr group)))
  = (e', Responded res) ->
  res_ok res = true ->
  res_text res = None \/ res_text res = Some "" ->
  batch_request k group w
  = (emit (set_env w e')
       (Fetched (embeddings_request (settings w) k (VArr (map VStr group)))),
     Ret []).
Proof.
  intros Hf Hok Htext. unfold batch_request, createEmbeddings, fetchJson, bind, lift.
  change {| url := (normalizeBaseUrl (baseUrl (settings w)) ++ "/v1/embeddings")%string;
            init := {| method := Some "POST";
                       headers := [("content-type", "application/json")];
                       body := Some (VObj [("model", VStr k);
                                           ("input", VArr (map VStr group));
                                           ("encoding_format", VStr "float")]) |};
            abort_after := requestTimeoutMs (settings w) |}
    with (embeddings_request (settings w) k (VArr (map VStr group))).
  rewrite Hf, Hok. cbn [negb].
  destruct Htext as [-> | ->]; reflexivity.
Qed.

(** C4 (as amended): when the batch request of the group that [embed_batch]
    has reached throws (the request is rejected, answered with an error
    status, or its body is not JSON or holds an embedding that is no array),
    the per-item loop runs for the whole group from the state the failure
    left, one request per text.  When every one of them is answered, the
    group gets one vector per text and [embed_batch] goes on with the other
    groups: the failure of the batch request fails nothing.  When one of them
    fails, [embed_batch] fails with that very error.  An answer with a 2xx
    status whose body is empty or cannot be read does not throw, and is no
    such failure. *)
Theorem batch_failure_falls_back {P : Platform}
    (args : list JsVal) (w wa wb wg w1 : World P) (size : Num) (k : string)
    (pre post : list (list string)) (group : list string) (acc : list Vec) (e : Err) :
  coerceBatchInputsFromArgs args <> [] ->
  ensureBatchSize w = (wa, Ret size) ->
  ensureModelKey wa = (wb, Ret k) ->
  chunk (normalizeBatchInputs (coerceBatchInputsFromArgs args)) size
  = Some (pre ++ group :: post) ->
  embed_groups k pre [] wb = (wg, Ret acc) ->
  batch_request k group wg = (w1, Throw e) ->
  let normalized := normalizeBatchInputs (coerceBatchInputsFromArgs args) in
  let batch := embeddings_request (settings wg) k (VArr (map VStr group)) in
  let single := fun one => embeddings_request (settings wg) k (VStr one) in
  (forall w2 recovered,
      embed_each k group [] w1 = (w2, Ret recovered) ->
      embed_batch args w = rest_of_batch k normalized post (acc ++ recovered) w2
      /\ List.length recovered = List.length group
      /\ requests w2 = requests wg ++ batch :: map single group
      /\ (forall w' rs,
             embed_batch args w = (w', Ret rs) -> size <> NaN ->
             List.length rs = List.length (coerceBatchInputsFromArgs args)
             /\ exists more, map vec rs = acc ++ recovered ++ more))
  /\ (forall w2 e2,
         embed_each k group [] w1 = (w2, Throw e2) ->
         embed_batch args w = (w2, Throw e2))
  /\ (forall e' res,
         fetch P (env wg) batch = (e', Responded res) ->
         res_ok res = true ->
         res_text res <> None /\ res_text res <> Some "").
Proof.
  intros Hargs Hsize Hkey Hchunk Hpre Hb normalized batch single.
  pose proof (embed_batch_at_group _ _ _ _ _ _ _ _ _ _ _ Hargs Hsize Hkey Hchunk Hpre) as Hat.
  fold normalized in Hat.
  pose proof (embed_group_batch_failed k group acc wg w1 e Hb) as Hg.
  destruct (batch_request_effect _ _ _ _ _ Hb) as (Hrb & Hsb & _).
  split; [|split].
  - intros w2 recovered He.
    assert (Hrun : embed_batch args w = rest_of_batch k normalized post (acc ++ recovered) w2).
    { rewrite Hat. unfold bind at 1. rewrite Hg. now rewrite (bind_Ret _ _ _ _ _ He). }
    destruct (embed_each_Ret _ _ _ _ _ _ He) as (vs & Hvs & Hlen). cbn in Hvs. subst vs.
    destruct (embed_each_requests _ _ _ _ _ _ He) as (Hr & _).
    split; [exact Hrun|]. split; [exact Hlen|]. split.
    + rewrite Hr, Hrb, Hsb, <- app_assoc. reflexivity.
    + intros w' rs Hret Hnan. rewrite Hrun in Hret.
      destruct (rest_of_batch_keeps _ _ _ _ _ _ _ _ _ _ _ _ _ Hchunk Hnan Hpre Hlen Hret)
        as (Hn & Hmore).
      split; [|exact Hmore]. rewrite Hn. unfold normalized, normalizeBatchInputs.
      apply length_map.
  - intros w2 e2 He. rewrite Hat. apply bind_Throw. rewrite Hg. now apply bind_Throw.
  - intros e' res Hf Hok.
    split; intros Htext.
    + rewrite (batch_request_blank k group wg e' res Hf Hok (or_introl Htext)) in Hb.
      discriminate.
    + rewrite (batch_request_blank k group wg e' res Hf Hok (or_intror Htext)) in Hb.
      discriminate.
Qed.

Lemma batch_failure_falls_back_witness :
  let items := [VStr "hello"; VObj [("text", VStr "world")]; VObj [("embed_input", VStr "  ")]] in
  let m := Some (model_with (Some (keyed_data "m" (VNum (Fin 2))))) in
  let three := Ret [ {| vec := vector_of [7; 7]; tokens := 2 |};
                     {| vec := vector_of [8; 8]; tokens := 2 |};
                     {| vec := vector_of [9; 9]; tokens := 1 |} ] in
  let singles := [ok_reply "one vector"; ok_reply "another vector"; ok_reply "third vector"] in
  let recovering := start m 100 (error_reply 500 "busy" :: singles) in
  let failing := start m 100
      [ok_reply "two vectors"; error_reply 500 "busy"; error_reply 503 "still busy"] in
  snd (embed_batch [VArr items] recovering) = three
  /\ snd (embed_batch [VArr items] failing) = Throw (HttpStatusError 503 "Error" "still busy")
  /\ snd (embed_batch [VArr items] (start m 100 (Rejected NetworkError :: singles))) = three
  /\ snd (embed_batch [VArr items] (start m 100 (ok_reply "not json" :: singles))) = three
  /\ snd (embed_batch [VArr items] (start m 100 (ok_reply "bad vector" :: singles))) = three.
Proof.
  intros items m three singles recovering failing.
  split; [|split; [|split; [|split]]].
  - pose (wa := fst (ensureBatchSize recovering)).
    pose (wb := fst (ensureModelKey wa)).
    pose (w1 := fst (batch_request "m" ["hello"; "world"] wb)).
    destruct (batch_failure_falls_back [VArr items] recovering wa wb wb w1 (Fin 2) "m"
                [] [[" "]] ["hello"; "world"] [] (HttpStatusError 500 "Error" "busy")
                ltac:(discriminate) ltac:(vm_compute; reflexivity)
                ltac:(vm_compute; reflexivity) ltac:(vm_compute; reflexivity)
                ltac:(vm_compute; reflexivity) ltac:(vm_compute; reflexivity))
      as (Hok & _).
    destruct (Hok (fst (embed_each "m" ["hello"; "world"] [] w1))
                [vector_of [7; 7]; vector_of [8; 8]] ltac:(vm_compute; reflexivity))
      as (Hrun & _).
    assert (Hrest : rest_of_batch "m"
                      (normalizeBatchInputs (coerceBatchInputsFromArgs [VArr items])) [[" "]]
                      ([] ++ [vector_of [7; 7]; vector_of [8; 8]])
                      (fst (embed_each "m" ["hello"; "world"] [] w1))
                    = (fst (embed_batch [VArr items] recovering), three))
      by (vm_compute; reflexivity).
    rewrite Hrun. exact (f_equal snd Hrest).
  - pose (wa := fst (ensureBatchSize failing)).
    pose (wb := fst (ensureModelKey wa)).
    pose (wg := fst (embed_groups "m" [["hello"; "world"]] [] wb)).
    pose (w1 := fst (batch_request "m" [" "] wg)).
    destruct (batch_failure_falls_back [VArr items] failing wa wb wg w1 (Fin 2) "m"
                [["hello"; "world"]] [] [" "] [vector_of [1; 1]; vector_of [2; 2]]
                (HttpStatusError 500 "Error" "busy")
                ltac:(discriminate) ltac:(vm_compute; reflexivity)
                ltac:(vm_compute; reflexivity) ltac:(vm_compute; reflexivity)
                ltac:(vm_compute; reflexivity) ltac:(vm_compute; reflexivity))
      as (_ & Hthrow & _).
    now rewrite (Hthrow (fst (embed_each "m" [" "] [] w1))
                   (HttpStatusError 503 "Error" "still busy") ltac:(vm_compute; reflexivity)).
  - vm_compute. reflexivity.
  - vm_compute. reflexivity.
  - vm_compute. reflexivity.
Defined.

(** C4 (as stated) fails: a batch request whose answer cannot be read, or
    holds no list, is handled as a count mismatch; the single request that
    then fails is not propagated: the per-item loop is run once more and
    [embed_batch] returns. *)
Lemma batch_failure_counterexample :
  let m := Some (model_with (Some (keyed_data "m" (VNum (Fin 2))))) in
  let fallback := [error_reply 500 "busy"; ok_reply "one vector"; ok_reply "another vector"] in
  let two := Ret [ {| vec := vector_of [7; 7]; tokens := 2 |};
                   {| vec := vector_of [8; 8]; tokens := 2 |} ] in
  let sent := [ Some (VArr [VStr "hello"; VStr "world"]);
                Some (VStr "hello"); Some (VStr "hello"); Some (VStr "world") ] in
  let inputs := fun (w : World scripted) =>
    map (fun r => option_map (fun b => prop b "input") (body (init r))) (requests w) in
  let unreadable := embed_batch [VArr [VStr "hello"; VStr "world"]]
                      (start m 100 (unreadable_reply :: fallback)) in
  let no_list := embed_batch [VArr [VStr "hello"; VStr "world"]]
                   (start m 100 (ok_reply "no models" :: fallback)) in
  snd unreadable = two /\ inputs (fst unreadable) = sent
  /\ snd no_list = two /\ inputs (fst no_list) = sent.
Proof. cbv zeta. repeat split; vm_compute; reflexivity. Qed.

(** ** Token counts *)

(** C8: whenever [embed_batch] returns, it returns one result for every
    input item, and the result of item [i] carries the estimate
    [max(1, ceil(length / 4))] of the normalized text of that item, which is
    a positive integer.  And it does return them, when a model key is
    configured, the batch size is a positive integer and every single-text
    request is answered, whatever the batch requests do. *)
Theorem embed_batch_token_estimate {P : Platform} (args : list JsVal) (w : World P) :
  (forall w' rs,
      embed_batch args w = (w', Ret rs) ->
      List.length rs = List.length (coerceBatchInputsFromArgs args)
      /\ forall i item,
           nth_error (coerceBatchInputsFromArgs args) i = Some item ->
           exists r,
             nth_error rs i = Some r
             /\ tokens r
                = Z.max 1 (Qceiling (inject_Z (str_len (normalizeItem item)) / inject_Z 4))
             /\ tokens r = Z.max 1 ((str_len (normalizeItem item) + 3) / 4)
             /\ 0 < tokens r)
  /\ (forall (items : list JsVal) (V : string -> Vec) (z : Z),
         args = [VArr items] ->
         (forall k one (v : World P), exists v', embedOne k one v = (v', Ret (V one))) ->
         (forall k group (v v' : World P) embeddings,
             batch_request k group v = (v', Ret embeddings) ->
             List.length embeddings = List.length group ->
             embeddings = map V group) ->
         configured_key w <> "" ->
         effective_batch_size w = Fin z ->
         0 < z ->
         exists w' rs,
           embed_batch args w = (w', Ret rs)
           /\ List.length rs = List.length items
           /\ map tokens rs
              = map (fun item =>
                       Z.max 1 (Qceiling (inject_Z (str_len (normalizeItem item)) / inject_Z 4)))
                  items).
Proof.
  split.
  - intros w' rs H.
    destruct (embed_batch_aligned _ _ _ _ H) as (Hlen & Htok).
    split; [exact Hlen|]. intros i item Hitem.
    destruct (nth_error rs i) as [r|] eqn:Hr.
    + exists r. split; [reflexivity|].
      apply (map_nth_error tokens) in Hr. rewrite Htok in Hr.
      unfold normalizeBatchInputs in Hr. rewrite map_map, nth_error_map, Hitem in Hr.
      injection Hr as Hr.
      split; [now rewrite <- Hr|].
      split; [now rewrite <- Hr, estimateTokens_formula|].
      rewrite <- Hr. pose proof (estimateTokens_positive (normalizeItem item)). lia.
    + exfalso. apply nth_error_None in Hr.
      assert (i < List.length (coerceBatchInputsFromArgs args))%nat
        by (apply nth_error_Some; congruence).
      lia.
  - intros items V z -> single positional Hkey Hsize Hz.
    destruct (embed_batch_keyed V items w z single positional Hkey Hsize Hz) as (w' & Hrun).
    exists w', (map (keyed_result V) (normalizeBatchInputs items)).
    split; [exact Hrun|]. unfold normalizeBatchInputs. rewrite !length_map, !map_map.
    split; reflexivity.
Qed.

Lemma embed_batch_token_estimate_witness :
  let items := [ VStr "  hello world   "; VStr "";
                 VObj [("text", VStr "abcde")];
                 VObj [("embed_input", VNum (Fin 5)); ("text", VStr "hidden text")] ] in
  let w := echo_start (Some (model_with (Some (keyed_data "m" (VNum (Fin 3)))))) in
  let rs := [ {| vec := [VStr "hello world"]; tokens := 3 |};
              {| vec := [VStr " "]; tokens := 1 |};
              {| vec := [VStr "abcde"]; tokens := 2 |};
              {| vec := [VStr " "]; tokens := 1 |} ] in
  snd (embed_batch [VArr items] w) = Ret rs
  /\ List.length rs = List.length items
  /\ map tokens rs
     = map (fun item => Z.max 1 ((str_len (normalizeItem item) + 3) / 4)) items
  /\ Z.max 1 ((str_len "  hello world   " + 3) / 4) = 4.
Proof.
  intros items w rs.
  assert (Hrun : embed_batch [VArr items] w = (fst (embed_batch [VArr items] w), Ret rs))
    by (vm_compute; reflexivity).
  destruct (embed_batch_token_estimate [VArr items] w) as (Hany & Hkeyed).
  destruct (Hkeyed items (fun one => [VStr one]) 3 eq_refl echo_single echo_positional
              ltac:(discriminate) eq_refl eq_refl) as (w' & rs' & Hrun' & Hlen' & Htok').
  destruct (Hany _ _ Hrun) as (Hlen & _).
  split; [exact (f_equal snd Hrun)|]. split; [exact Hlen|].
  split; reflexivity.
Defined.
